(** * LoongArch relocation engine of the mold linker (elf/arch-loongarch.cc)

    A shallow embedding of the immediate writers, the address materializer,
    the PLT stub generator, the three relocation appliers and the requirement
    scanner, followed by the properties stated for them.

    Conventions.  Fixed-width C++ integers are mathematical integers with the
    wrap-around written out ([u64], [u32], [i64]).  The output buffer is a
    list of bytes; the little-endian accessors [ul16], [ul32], [ul64] of the
    source are [le_combine]/[le_split] on a slice of it.  Code with effects
    runs in a small state monad whose outcome distinguishes a normal return,
    a fatal exit and undefined behaviour. *)

From Stdlib Require Import ZArith Lia List Bool.
From coqutil Require Import Byte Word.LittleEndianList Z.bitblast.
From stdpp Require Import base list.

Local Open Scope Z_scope.

(* ===================================================================== *)
(** * Part I: the embedding *)
(* ===================================================================== *)

(** ** Fixed-width integers *)

Module Bits.

(** Conversion to an unsigned integer of [w] bits. *)
Definition wrap (w z : Z) : Z := z mod 2 ^ w.

Definition u8 (z : Z) : Z := wrap 8 z.
Definition u16 (z : Z) : Z := wrap 16 z.
Definition u32 (z : Z) : Z := wrap 32 z.
Definition u64 (z : Z) : Z := wrap 64 z.

(** Conversion to a signed 64-bit integer (two's complement). *)
Definition i64 (z : Z) : Z := (z + 2 ^ 63) mod 2 ^ 64 - 2 ^ 63.

(** [u64] arithmetic of the source: [+], [-], [*] wrap around. *)
Definition add64 (a b : Z) : Z := u64 (a + b).
Definition sub64 (a b : Z) : Z := u64 (a - b).
Definition mul64 (a b : Z) : Z := u64 (a * b).

End Bits.

Import Bits.

Declare Scope u64_scope.
Delimit Scope u64_scope with u64.
Arguments add64 (a b)%_u64.
Arguments sub64 (a b)%_u64.
Arguments mul64 (a b)%_u64.
Infix "+" := add64 : u64_scope.
Infix "-" := sub64 : u64_scope.
Infix "*" := mul64 : u64_scope.

(** ** Address materializer *)

(** [static u64 page(u64 val)] *)
Definition page (val : Z) : Z := Z.land val 0xfffffffffffff000.

(** [static u64 mid20(u64 val, u64 pc)] *)
Definition mid20 (val pc : Z) : Z := (page (val + 0x800)%u64 - page pc)%u64.

(** [static i64 alau64_hi32(i64 val, i64 pc)]; the arithmetic is signed
    64-bit, and [~0xffffffffL] is the signed constant [-0x100000000]. *)
Definition alau64_hi32 (val pc : Z) : Z :=
  i64 (i64 (val - i64 (Z.shiftl (Z.land val 0x800) 21))
       - Z.land pc (Z.lnot 0xffffffff)).

(** The decoding of the two-instruction sequence, after the comment of
    [mid20] in the source: [addi.d] sign-extends its 12-bit immediate and
    adds it to the register. *)
Definition sign_extend12 (lo : Z) : Z :=
  if Z.testbit lo 11 then Z.land lo 0xfff - 0x1000 else Z.land lo 0xfff.

(** After the same comment: [pcalau12i] computes [pc + (hi << 12)] and
    clears bits 11 to 0.  The address the pair computes at [pc] from a high
    part [hi] and a low immediate [lo] is
    [(page(pc) + (hi << 12)) + sign_extend12(lo)], in 64-bit registers. *)
Definition materialize (pc hi lo : Z) : Z :=
  ((page pc + Z.shiftl hi 12) + sign_extend12 lo)%u64.

(** ** Data model *)

(** Relocation kinds named in the source; [R_LARCH_OTHER] stands for every
    other value of the 32-bit [r_type] field. *)
Inductive RelType : Type :=
| R_NONE | R_LARCH_RELAX | R_LARCH_MARK_LA | R_LARCH_MARK_PCREL
| R_LARCH_32 | R_LARCH_64
| R_LARCH_B16 | R_LARCH_B21 | R_LARCH_B26
| R_LARCH_ABS_HI20 | R_LARCH_ABS_LO12 | R_LARCH_ABS64_LO20 | R_LARCH_ABS64_HI12
| R_LARCH_PCALA_HI20 | R_LARCH_PCALA_LO12
| R_LARCH_PCALA64_LO20 | R_LARCH_PCALA64_HI12
| R_LARCH_GOT_PC_HI20 | R_LARCH_GOT_PC_LO12
| R_LARCH_GOT64_PC_LO20 | R_LARCH_GOT64_PC_HI12
| R_LARCH_GOT_HI20 | R_LARCH_GOT_LO12 | R_LARCH_GOT64_LO20 | R_LARCH_GOT64_HI12
| R_LARCH_TLS_LE_HI20 | R_LARCH_TLS_LE_LO12
| R_LARCH_TLS_LE64_LO20 | R_LARCH_TLS_LE64_HI12
| R_LARCH_TLS_IE_PC_HI20 | R_LARCH_TLS_IE_PC_LO12
| R_LARCH_TLS_IE64_PC_LO20 | R_LARCH_TLS_IE64_PC_HI12
| R_LARCH_TLS_IE_HI20 | R_LARCH_TLS_IE_LO12
| R_LARCH_TLS_IE64_LO20 | R_LARCH_TLS_IE64_HI12
| R_LARCH_TLS_LD_PC_HI20 | R_LARCH_TLS_GD_PC_HI20
| R_LARCH_TLS_LD_HI20 | R_LARCH_TLS_GD_HI20
| R_LARCH_ADD6 | R_LARCH_ADD8 | R_LARCH_ADD16 | R_LARCH_ADD32 | R_LARCH_ADD64
| R_LARCH_SUB6 | R_LARCH_SUB8 | R_LARCH_SUB16 | R_LARCH_SUB32 | R_LARCH_SUB64
| R_LARCH_32_PCREL | R_LARCH_64_PCREL
| R_LARCH_ADD_ULEB128 | R_LARCH_SUB_ULEB128
| R_LARCH_TLS_DTPREL32 | R_LARCH_TLS_DTPREL64
| R_LARCH_OTHER (code : Z).

(** [ElfRel<E>]: the addend is signed. *)
Record ElfRel : Type := mkRel {
  r_offset : Z;
  r_type : RelType;
  r_sym : nat;
  r_addend : Z
}.

(** [SectionFragment<E>], reduced to what is read here: [get_addr(ctx)]. *)
Record SectionFragment : Type := mkFrag { frag_get_addr : Z }.

(** [Symbol<E>].  The getters of the source take the context; after slot
    allocation each is a fixed value of the symbol.  The slot indices are
    signed ([-1] when no slot was assigned). *)
Record Symbol : Type := mkSym {
  file : bool;             (* sym.file != nullptr *)
  get_addr : Z;
  get_got_idx : Z;
  get_tlsgd_idx : Z;
  has_tlsgd : bool;
  get_got_addr : Z;
  get_gotplt_addr : Z;
  get_plt_addr : Z;
  get_gottp_addr : Z;
  get_tlsgd_addr : Z;
  is_ifunc : bool;
  is_imported : bool;
  flags : Z
}.

Definition set_flags (f : Z) (sym : Symbol) : Symbol :=
  mkSym (file sym) (get_addr sym) (get_got_idx sym) (get_tlsgd_idx sym)
        (has_tlsgd sym) (get_got_addr sym) (get_gotplt_addr sym)
        (get_plt_addr sym) (get_gottp_addr sym) (get_tlsgd_addr sym)
        (is_ifunc sym) (is_imported sym) f.

(** [Context<E>] and the template parameter [E]. *)
Record Ctx : Type := mkCtx {
  is_64 : bool;            (* E::is_64 *)
  got : Z;                 (* ctx.got->shdr.sh_addr *)
  gotplt : Z;              (* ctx.gotplt->shdr.sh_addr *)
  plt : Z;                 (* ctx.plt->shdr.sh_addr *)
  tp_addr : Z;
  dtp_addr : Z;
  reldyn : option Z        (* ctx.reldyn, as its shdr.sh_offset *)
}.

(** [sizeof(Word<E>)] *)
Definition sizeof_Word (ctx : Ctx) : Z := if is_64 ctx then 8 else 4.

(** [InputSection<E>], with the members read here. *)
Record InputSection : Type := mkSec {
  get_rels : list ElfRel;
  sec_addr : Z;            (* this->get_addr() *)
  is_alloc : bool;         (* shdr().sh_flags & SHF_ALLOC *)
  file_reldyn_offset : Z   (* file.reldyn_offset *)
}.

(** [EhFrameSection<E>], with the members read here. *)
Record EhFrameSection : Type := mkEh {
  eh_sh_offset : Z;
  eh_sh_addr : Z
}.

(** Diagnostics, holding the values the source streams into the message. *)
Inductive Diag : Type :=
| Overflow_PLT_header
| Overflow_PLT_entry
| Overflow_PLTGOT_entry
| Out_of_range (rel : ElfRel) (val lo hi : Z)
| Unaligned (rel : ElfRel) (val : Z)
| Unknown_relocation (rel : ElfRel)
| Unsupported_eh_relocation (rel : ElfRel)
| Invalid_nonalloc_relocation (rel : ElfRel).

(** What the passes read and write: the output buffer [ctx.buf], the
    diagnostics recorded so far (newest first), the symbols of the file,
    and the counters of dynamic relocations. *)
Record LinkState : Type := mkState {
  buf : list byte;
  errors : list Diag;
  symbols : list Symbol;
  num_dynrel : Z;          (* file.num_dynrel *)
  reldyn_offset : Z;       (* this->reldyn_offset *)
  dynrel : option Z        (* the cursor [ElfRel<E> *dynrel] *)
}.

Definition set_buf (b : list byte) (s : LinkState) : LinkState :=
  mkState b (errors s) (symbols s) (num_dynrel s) (reldyn_offset s) (dynrel s).
Definition set_errors (e : list Diag) (s : LinkState) : LinkState :=
  mkState (buf s) e (symbols s) (num_dynrel s) (reldyn_offset s) (dynrel s).
Definition set_symbols (y : list Symbol) (s : LinkState) : LinkState :=
  mkState (buf s) (errors s) y (num_dynrel s) (reldyn_offset s) (dynrel s).
Definition set_reldyn_offset (o : Z) (s : LinkState) : LinkState :=
  mkState (buf s) (errors s) (symbols s) (num_dynrel s) o (dynrel s).

(** ** Effects *)

(** A call returns normally, or the process exits ([Fatal]), or the
    behaviour is undefined (an access outside the buffer or the symbol
    table, [unreachable()], a failed [assert]). *)
Inductive outcome (A : Type) : Type :=
| Returns (a : A) (s : LinkState)
| Exits (s : LinkState)
| Undefined.
Arguments Returns {A} a s.
Arguments Exits {A} s.
Arguments Undefined {A}.

Definition M (A : Type) : Type := LinkState -> outcome A.

Definition ret {A} (a : A) : M A := fun s => Returns a s.

Definition bind {A B} (m : M A) (k : A -> M B) : M B :=
  fun s => match m s with
           | Returns a s' => k a s'
           | Exits s' => Exits s'
           | Undefined => Undefined
           end.

Notation "x <- m ;; k" := (bind m (fun x => k))
  (at level 100, m at next level, right associativity).
Notation "m ;;; k" := (bind m (fun _ => k))
  (at level 100, right associativity).

Definition undefined {A} : M A := fun _ => Undefined.

Definition skip : M unit := ret tt.

Definition when (b : bool) (m : M unit) : M unit := if b then m else skip.

(** [assert(b)] *)
Definition assert (b : bool) : M unit := if b then skip else undefined.

(** Modelled from the spec: the reporter [Error] is declared in mold.h,
    which is not part of this file.  The error is recorded and the caller
    goes on; the link fails after all such errors are collected. *)
Definition Error (d : Diag) : M unit :=
  fun s => Returns tt (set_errors (d :: errors s) s).

(** Modelled from the spec: the reporter [Fatal] is declared in mold.h,
    which is not part of this file.  The diagnostic is reported and link
    generation is aborted immediately. *)
Definition Fatal {A} (d : Diag) : M A :=
  fun s => Exits (set_errors (d :: errors s) s).

(** The loop [for (i64 i = 0; i < rels.size(); i++)]; [continue] is the
    normal return of the body. *)
Fixpoint for_each {A} (body : A -> M unit) (l : list A) : M unit :=
  match l with
  | [] => skip
  | x :: l' => body x ;;; for_each body l'
  end.

(** ** The output buffer *)

Definition in_bounds (n : nat) (loc : Z) (b : list byte) : bool :=
  (0 <=? loc) && (loc + Z.of_nat n <=? Z.of_nat (length b)).

Definition slice (n : nat) (loc : Z) (b : list byte) : list byte :=
  take n (drop (Z.to_nat loc) b).

Definition splice (loc : Z) (bs b : list byte) : list byte :=
  take (Z.to_nat loc) b ++ bs ++ drop (Z.to_nat loc + length bs) b.

(** Reading [n] bytes at [loc] as a little-endian integer: the source
    dereferences [loc] as [u8], [ul16], [ul32] or [ul64]. *)
Definition word_at (n : nat) (loc : Z) (b : list byte) : Z :=
  le_combine (slice n loc b).

Definition load (n : nat) (loc : Z) : M Z :=
  fun s => if in_bounds n loc (buf s)
           then Returns (word_at n loc (buf s)) s
           else Undefined.

(** [memcpy(loc, bs, sizeof(bs))] *)
Definition memcpy (loc : Z) (bs : list byte) : M unit :=
  fun s => if in_bounds (length bs) loc (buf s)
           then Returns tt (set_buf (splice loc bs (buf s)) s)
           else Undefined.

(** Storing the low [n] bytes of [v] at [loc], little-endian. *)
Definition update (n : nat) (loc v : Z) (b : list byte) : list byte :=
  splice loc (le_split n v) b.

Definition store (n : nat) (loc v : Z) : M unit :=
  fun s => if in_bounds n loc (buf s)
           then Returns tt (set_buf (update n loc v (buf s)) s)
           else Undefined.

(** The compound assignments [&=], [|=], [+=], [-=] on the integer at
    [loc]: read, modify, write.  The operand of [+=] and [-=] is a [u64]. *)
Definition and_assign (n : nat) (loc m : Z) : M unit :=
  w <- load n loc ;; store n loc (Z.land w m).
Definition or_assign (n : nat) (loc v : Z) : M unit :=
  w <- load n loc ;; store n loc (Z.lor w v).
Definition add_assign (n : nat) (loc v : Z) : M unit :=
  w <- load n loc ;; store n loc (w + v)%u64.
Definition sub_assign (n : nat) (loc v : Z) : M unit :=
  w <- load n loc ;; store n loc (w - v)%u64.

(** ** Immediate codec *)

(** [static void write_j20(u8 *loc, u32 val)];
    mask [0b11111110'00000000'00000000'00011111]. *)
Definition write_j20 (loc val : Z) : M unit :=
  let val := u32 val in
  and_assign 4 loc 0xfe00001f ;;;
  or_assign 4 loc (u32 (Z.shiftl (Z.land val 0xfffff) 5)).

(** [static void write_k12(u8 *loc, u32 val)];
    mask [0b11111111'11110000'00000011'11111111]. *)
Definition write_k12 (loc val : Z) : M unit :=
  let val := u32 val in
  and_assign 4 loc 0xfff003ff ;;;
  or_assign 4 loc (u32 (Z.shiftl (Z.land val 0xfff) 10)).

(** [static void write_d5k16(u8 *loc, u32 val)];
    mask [0b11111100'00000000'00000011'11100000]. *)
Definition write_d5k16 (loc val : Z) : M unit :=
  let val := u32 val in
  let hi := Z.shiftr val 16 in
  and_assign 4 loc 0xfc0003e0 ;;;
  or_assign 4 loc
    (Z.lor (u32 (Z.shiftl (Z.land val 0xffff) 10)) (Z.land hi 0x1f)).

(** [static void write_d10k16(u8 *loc, u32 val)];
    mask [0b11111100'00000000'00000000'00000000]. *)
Definition write_d10k16 (loc val : Z) : M unit :=
  let val := u32 val in
  let hi := Z.shiftr val 16 in
  and_assign 4 loc 0xfc000000 ;;;
  or_assign 4 loc
    (Z.lor (u32 (Z.shiftl (Z.land val 0xffff) 10)) (Z.land hi 0x3ff)).

(** [static void write_k16(u8 *loc, u32 val)];
    mask [0b11111100'00000000'00000011'11111111]. *)
Definition write_k16 (loc val : Z) : M unit :=
  let val := u32 val in
  and_assign 4 loc 0xfc0003ff ;;;
  or_assign 4 loc (u32 (Z.shiftl (Z.land val 0xffff) 10)).

(** ** PLT stub generator *)

Definition ul32s (ws : list Z) : list byte := flat_map (le_split 4) ws.

Definition insn_64 : list Z :=
  [ 0x1c00000e; 0x0011bdad; 0x28c001cf; 0x02ff51ad;
    0x02c001cc; 0x004505ad; 0x28c0218c; 0x4c0001e0 ].

Definition insn_32 : list Z :=
  [ 0x1c00000e; 0x00113dad; 0x288001cf; 0x02bf51ad;
    0x028001cc; 0x004489ad; 0x2880118c; 0x4c0001e0 ].

Definition plt_entry_64 : list Z :=
  [ 0x1c00000f; 0x28c001ef; 0x4c0001ed; 0x03400000 ].

Definition plt_entry_32 : list Z :=
  [ 0x1c00000f; 0x288001ef; 0x4c0001ed; 0x03400000 ].

(** [void write_plt_header(Context<E> &ctx, u8 *buf)]; the pointer [buf] is
    an offset [loc] into the output buffer. *)
Definition write_plt_header (ctx : Ctx) (loc : Z) : M unit :=
  memcpy loc (ul32s (if is_64 ctx then insn_64 else insn_32)) ;;;
  let gotplt := gotplt ctx in
  let plt := plt ctx in
  when (0xffffffff <? (gotplt - plt + 0x80000800)%u64)
       (Error Overflow_PLT_header) ;;;
  write_j20 loc (Z.shiftr (mid20 gotplt plt) 12) ;;;
  write_k12 (loc + 8) (gotplt - plt)%u64 ;;;
  write_k12 (loc + 16) (gotplt - plt)%u64.

(** [void write_plt_entry(Context<E> &ctx, u8 *buf, Symbol<E> &sym)] *)
Definition write_plt_entry (ctx : Ctx) (loc : Z) (sym : Symbol) : M unit :=
  memcpy loc (ul32s (if is_64 ctx then plt_entry_64 else plt_entry_32)) ;;;
  let gotplt := get_gotplt_addr sym in
  let plt := get_plt_addr sym in
  when (0xffffffff <? (gotplt - plt + 0x80000800)%u64)
       (Error Overflow_PLT_entry) ;;;
  write_j20 loc (Z.shiftr (mid20 gotplt plt) 12) ;;;
  write_k12 (loc + 4) (gotplt - plt)%u64.

(** [void write_pltgot_entry(Context<E> &ctx, u8 *buf, Symbol<E> &sym)] *)
Definition write_pltgot_entry (ctx : Ctx) (loc : Z) (sym : Symbol) : M unit :=
  memcpy loc (ul32s (if is_64 ctx then plt_entry_64 else plt_entry_32)) ;;;
  let got := get_got_addr sym in
  let plt := get_plt_addr sym in
  when (0xffffffff <? (got - plt + 0x80000800)%u64)
       (Error Overflow_PLTGOT_entry) ;;;
  write_j20 loc (Z.shiftr (mid20 got plt) 12) ;;;
  write_k12 (loc + 4) (got - plt)%u64.

(** ** External collaborators *)

(** Constants and functions the source uses and other files define.  The
    functions that act on the link are state transformers: they report
    through [Error] and return. *)
Class Collaborators : Type := {
  (* requirement flags *)
  NEEDS_GOT : Z;
  NEEDS_PLT : Z;
  NEEDS_GOTTP : Z;
  NEEDS_TLSGD : Z;
  (* sizeof(ElfRel<E>) *)
  sizeof_ElfRel : Ctx -> Z;
  (* undefined-symbol reporter *)
  record_undef_error :
    Ctx -> InputSection -> ElfRel -> LinkState -> bool * LinkState;
  (* dynamic absolute relocations: scanner and applier *)
  scan_absrel : Ctx -> InputSection -> nat -> ElfRel -> LinkState -> LinkState;
  scan_dyn_absrel :
    Ctx -> InputSection -> nat -> ElfRel -> LinkState -> LinkState;
  scan_pcrel : Ctx -> InputSection -> nat -> ElfRel -> LinkState -> LinkState;
  check_tlsle : Ctx -> InputSection -> nat -> ElfRel -> LinkState -> LinkState;
  apply_dyn_absrel :
    Ctx -> InputSection -> Symbol -> ElfRel -> Z -> Z -> Z -> Z ->
    LinkState -> LinkState;
  (* merged-constant fragments and tombstones *)
  get_fragment : Ctx -> InputSection -> ElfRel -> option SectionFragment * Z;
  get_tombstone : Symbol -> option SectionFragment -> option Z;
  (* ULEB128 *)
  read_uleb : Z -> LinkState -> Z;
  overwrite_uleb : Z -> Z -> LinkState -> LinkState
}.

Section Passes.

Context {ext : Collaborators}.

(** A collaborator that changes the link and returns nothing. *)
Definition call (f : LinkState -> LinkState) : M unit :=
  fun s => Returns tt (f s).

(** A collaborator that returns a value. *)
Definition call_ret {A} (f : LinkState -> A * LinkState) : M A :=
  fun s => let (a, s') := f s in Returns a s'.

Definition get {A} (f : LinkState -> A) : M A := fun s => Returns (f s) s.

(** The symbol [file.symbols[i]] points to. *)
Definition get_symbol (i : nat) : M Symbol :=
  fun s => match symbols s !! i with
           | Some sym => Returns sym s
           | None => Undefined
           end.

(** [sym.flags |= m] on the symbol of index [i]. *)
Definition or_flags (i : nat) (m : Z) : M unit :=
  fun s => match symbols s !! i with
           | Some sym =>
               Returns tt
                 (set_symbols
                    (<[i := set_flags (Z.lor (flags sym) m) sym]> (symbols s))
                    s)
           | None => Undefined
           end.

(** The kinds every pass over an allocated section skips first. *)
Definition is_hint (t : RelType) : bool :=
  match t with
  | R_NONE | R_LARCH_RELAX | R_LARCH_MARK_LA | R_LARCH_MARK_PCREL => true
  | _ => false
  end.

(** *** Unwind-relocation applier *)

(** [void EhFrameSection<E>::apply_eh_reloc(ctx, rel, offset, val)] *)
Definition apply_eh_reloc (ctx : Ctx) (eh : EhFrameSection) (rel : ElfRel)
    (offset val : Z) : M unit :=
  let loc := eh_sh_offset eh + offset in
  match r_type rel with
  | R_NONE => skip
  | R_LARCH_ADD6 =>
      b <- load 1 loc ;;
      store 1 loc (Z.lor (Z.land b 0xc0) (Z.land (b + val)%u64 0x3f))
  | R_LARCH_ADD8 => add_assign 1 loc val
  | R_LARCH_ADD16 => add_assign 2 loc val
  | R_LARCH_ADD32 => add_assign 4 loc val
  | R_LARCH_ADD64 => add_assign 8 loc val
  | R_LARCH_SUB6 =>
      b <- load 1 loc ;;
      store 1 loc (Z.lor (Z.land b 0xc0) (Z.land (b - val)%u64 0x3f))
  | R_LARCH_SUB8 => sub_assign 1 loc val
  | R_LARCH_SUB16 => sub_assign 2 loc val
  | R_LARCH_SUB32 => sub_assign 4 loc val
  | R_LARCH_SUB64 => sub_assign 8 loc val
  | R_LARCH_32_PCREL => store 4 loc (val - eh_sh_addr eh - offset)%u64
  | R_LARCH_64_PCREL => store 8 loc (val - eh_sh_addr eh - offset)%u64
  | _ => Fatal (Unsupported_eh_relocation rel)
  end.

(** *** Value applier, allocated sections *)

(** The lambda [check] of [apply_reloc_alloc]. *)
Definition check (rel : ElfRel) (val lo hi : Z) : M unit :=
  when ((val <? lo) || (hi <=? val)) (Error (Out_of_range rel val lo hi)).

(** The lambda [check_branch] of [apply_reloc_alloc]. *)
Definition check_branch (rel : ElfRel) (val lo hi : Z) : M unit :=
  when (negb (Z.land val 3 =? 0)) (Error (Unaligned rel val)) ;;;
  check rel val lo hi.

(** The body of the loop of [apply_reloc_alloc], for one relocation. *)
Definition apply_reloc_alloc_rel (ctx : Ctx) (sec : InputSection)
    (base : Z) (rel : ElfRel) : M unit :=
  if is_hint (r_type rel) then skip else
  sym <- get_symbol (r_sym rel) ;;
  let loc := base + r_offset rel in
  let S := get_addr sym in
  let A := u64 (r_addend rel) in
  let P := (sec_addr sec + r_offset rel)%u64 in
  let G := (u64 (if has_tlsgd sym then get_tlsgd_idx sym
                 else get_got_idx sym) * sizeof_Word ctx)%u64 in
  let GOT := got ctx in
  match r_type rel with
  | R_LARCH_32 =>
      if is_64 ctx then store 4 loc (S + A)%u64
      else call (apply_dyn_absrel ctx sec sym rel loc S A P)
  | R_LARCH_64 =>
      assert (is_64 ctx) ;;;
      call (apply_dyn_absrel ctx sec sym rel loc S A P)
  | R_LARCH_B16 =>
      check_branch rel (i64 (S + A - P)%u64) (- 2 ^ 17) (2 ^ 17) ;;;
      write_k16 loc (Z.shiftr (S + A - P)%u64 2)
  | R_LARCH_B21 =>
      check_branch rel (i64 (S + A - P)%u64) (- 2 ^ 22) (2 ^ 22) ;;;
      write_d5k16 loc (Z.shiftr (S + A - P)%u64 2)
  | R_LARCH_B26 =>
      check_branch rel (i64 (S + A - P)%u64) (- 2 ^ 27) (2 ^ 27) ;;;
      write_d10k16 loc (Z.shiftr (S + A - P)%u64 2)
  | R_LARCH_ABS_HI20 => write_j20 loc (Z.shiftr (S + A)%u64 12)
  | R_LARCH_ABS_LO12 => write_k12 loc (S + A)%u64
  | R_LARCH_ABS64_LO20 => write_j20 loc (Z.shiftr (S + A)%u64 32)
  | R_LARCH_ABS64_HI12 => write_k12 loc (Z.shiftr (S + A)%u64 52)
  | R_LARCH_PCALA_HI20 =>
      let val := i64 (mid20 (S + A)%u64 P) in
      check rel val (- 2 ^ 31) (2 ^ 31) ;;;
      write_j20 loc (Z.shiftr val 12)
  | R_LARCH_PCALA_LO12 => write_k12 loc (S + A)%u64
  | R_LARCH_PCALA64_LO20 =>
      write_j20 loc (Z.shiftr (alau64_hi32 (i64 (S + A)%u64) (i64 P)) 32)
  | R_LARCH_PCALA64_HI12 =>
      write_k12 loc (Z.shiftr (alau64_hi32 (i64 (S + A)%u64) (i64 P)) 52)
  | R_LARCH_GOT_PC_HI20 =>
      let val := i64 (mid20 (GOT + G + A)%u64 P) in
      check rel val (- 2 ^ 31) (2 ^ 31) ;;;
      write_j20 loc (Z.shiftr val 12)
  | R_LARCH_GOT_PC_LO12 => write_k12 loc (GOT + G + A)%u64
  | R_LARCH_GOT64_PC_LO20 =>
      write_j20 loc
        (Z.shiftr (alau64_hi32 (i64 (GOT + G + A)%u64) (i64 P)) 32)
  | R_LARCH_GOT64_PC_HI12 =>
      write_k12 loc
        (Z.shiftr (alau64_hi32 (i64 (GOT + G + A)%u64) (i64 P)) 52)
  | R_LARCH_GOT_HI20 => write_j20 loc (Z.shiftr (GOT + G + A)%u64 12)
  | R_LARCH_GOT_LO12 => write_k12 loc (GOT + G + A)%u64
  | R_LARCH_GOT64_LO20 => write_j20 loc (Z.shiftr (GOT + G + A)%u64 32)
  | R_LARCH_GOT64_HI12 => write_k12 loc (Z.shiftr (GOT + G + A)%u64 52)
  | R_LARCH_TLS_LE_HI20 =>
      write_j20 loc (Z.shiftr (S + A - tp_addr ctx)%u64 12)
  | R_LARCH_TLS_LE_LO12 => write_k12 loc (S + A - tp_addr ctx)%u64
  | R_LARCH_TLS_LE64_LO20 =>
      write_j20 loc (Z.shiftr (S + A - tp_addr ctx)%u64 32)
  | R_LARCH_TLS_LE64_HI12 =>
      write_k12 loc (Z.shiftr (S + A - tp_addr ctx)%u64 52)
  | R_LARCH_TLS_IE_PC_HI20 =>
      let val := i64 (mid20 (get_gottp_addr sym + A)%u64 P) in
      check rel val (- 2 ^ 31) (2 ^ 31) ;;;
      write_j20 loc (Z.shiftr val 12)
  | R_LARCH_TLS_IE_PC_LO12 => write_k12 loc (get_gottp_addr sym + A)%u64
  | R_LARCH_TLS_IE64_PC_LO20 =>
      write_j20 loc
        (Z.shiftr (alau64_hi32 (i64 (get_gottp_addr sym + A)%u64) (i64 P)) 32)
  | R_LARCH_TLS_IE64_PC_HI12 =>
      write_k12 loc
        (Z.shiftr (alau64_hi32 (i64 (get_gottp_addr sym + A)%u64) (i64 P)) 52)
  | R_LARCH_TLS_IE_HI20 =>
      write_j20 loc (Z.shiftr (get_gottp_addr sym + A)%u64 12)
  | R_LARCH_TLS_IE_LO12 => write_k12 loc (get_gottp_addr sym + A)%u64
  | R_LARCH_TLS_IE64_LO20 =>
      write_j20 loc (Z.shiftr (get_gottp_addr sym + A)%u64 32)
  | R_LARCH_TLS_IE64_HI12 =>
      write_k12 loc (Z.shiftr (get_gottp_addr sym + A)%u64 52)
  | R_LARCH_TLS_LD_PC_HI20 | R_LARCH_TLS_GD_PC_HI20 =>
      let val := i64 (mid20 (get_tlsgd_addr sym + A)%u64 P) in
      check rel val (- 2 ^ 31) (2 ^ 31) ;;;
      write_j20 loc (Z.shiftr val 12)
  | R_LARCH_TLS_LD_HI20 | R_LARCH_TLS_GD_HI20 =>
      write_j20 loc (Z.shiftr (get_tlsgd_addr sym + A)%u64 12)
  | R_LARCH_ADD6 =>
      b <- load 1 loc ;;
      store 1 loc (Z.lor (Z.land b 0xc0) (Z.land (b + S + A)%u64 0x3f))
  | R_LARCH_ADD8 => add_assign 1 loc (S + A)%u64
  | R_LARCH_ADD16 => add_assign 2 loc (S + A)%u64
  | R_LARCH_ADD32 => add_assign 4 loc (S + A)%u64
  | R_LARCH_ADD64 => add_assign 8 loc (S + A)%u64
  | R_LARCH_SUB6 =>
      b <- load 1 loc ;;
      store 1 loc (Z.lor (Z.land b 0xc0) (Z.land (b - S - A)%u64 0x3f))
  | R_LARCH_SUB8 => sub_assign 1 loc (S + A)%u64
  | R_LARCH_SUB16 => sub_assign 2 loc (S + A)%u64
  | R_LARCH_SUB32 => sub_assign 4 loc (S + A)%u64
  | R_LARCH_SUB64 => sub_assign 8 loc (S + A)%u64
  | R_LARCH_32_PCREL => store 4 loc (S + A - P)%u64
  | R_LARCH_64_PCREL => store 8 loc (S + A - P)%u64
  | R_LARCH_ADD_ULEB128 =>
      v <- get (read_uleb loc) ;;
      call (overwrite_uleb loc (v + S + A)%u64)
  | R_LARCH_SUB_ULEB128 =>
      v <- get (read_uleb loc) ;;
      call (overwrite_uleb loc (v - S - A)%u64)
  | _ => undefined
  end.


(** *** Value applier, non-allocated sections *)

(** The body of the loop of [apply_reloc_nonalloc], for one relocation. *)
Definition apply_reloc_nonalloc_rel (ctx : Ctx) (sec : InputSection)
    (base : Z) (rel : ElfRel) : M unit :=
  match r_type rel with
  | R_NONE => skip
  | _ =>
    sym <- get_symbol (r_sym rel) ;;
    let loc := base + r_offset rel in
    if negb (file sym) then
      _ <- call_ret (record_undef_error ctx sec rel) ;; skip
    else
    let (frag, frag_addend) := get_fragment ctx sec rel in
    let S := match frag with
             | Some f => frag_get_addr f
             | None => get_addr sym
             end in
    let A := match frag with
             | Some _ => u64 frag_addend
             | None => u64 (r_addend rel)
             end in
    match r_type rel with
    | R_LARCH_32 => store 4 loc (S + A)%u64
    | R_LARCH_64 =>
        match get_tombstone sym frag with
        | Some val => store 8 loc val
        | None => store 8 loc (S + A)%u64
        end
    | R_LARCH_ADD6 =>
        b <- load 1 loc ;;
        store 1 loc (Z.lor (Z.land b 0xc0) (Z.land (b + S + A)%u64 0x3f))
    | R_LARCH_ADD8 => add_assign 1 loc (S + A)%u64
    | R_LARCH_ADD16 => add_assign 2 loc (S + A)%u64
    | R_LARCH_ADD32 => add_assign 4 loc (S + A)%u64
    | R_LARCH_ADD64 => add_assign 8 loc (S + A)%u64
    | R_LARCH_SUB6 =>
        b <- load 1 loc ;;
        store 1 loc (Z.lor (Z.land b 0xc0) (Z.land (b - S - A)%u64 0x3f))
    | R_LARCH_SUB8 => sub_assign 1 loc (S + A)%u64
    | R_LARCH_SUB16 => sub_assign 2 loc (S + A)%u64
    | R_LARCH_SUB32 => sub_assign 4 loc (S + A)%u64
    | R_LARCH_SUB64 => sub_assign 8 loc (S + A)%u64
    | R_LARCH_TLS_DTPREL32 =>
        match get_tombstone sym frag with
        | Some val => store 4 loc val
        | None => store 4 loc (S + A - dtp_addr ctx)%u64
        end
    | R_LARCH_TLS_DTPREL64 =>
        match get_tombstone sym frag with
        | Some val => store 8 loc val
        | None => store 8 loc (S + A - dtp_addr ctx)%u64
        end
    | R_LARCH_ADD_ULEB128 =>
        v <- get (read_uleb loc) ;;
        call (overwrite_uleb loc (v + S + A)%u64)
    | R_LARCH_SUB_ULEB128 =>
        v <- get (read_uleb loc) ;;
        call (overwrite_uleb loc (v - S - A)%u64)
    | _ => Fatal (Invalid_nonalloc_relocation rel)
    end
  end.

(** [void InputSection<E>::apply_reloc_nonalloc(Context<E> &ctx, u8 *base)] *)
Definition apply_reloc_nonalloc (ctx : Ctx) (sec : InputSection) (base : Z)
    : M unit :=
  for_each (apply_reloc_nonalloc_rel ctx sec base) (get_rels sec).

(** *** Requirement scanner *)

(** The body of the loop of [scan_relocations], for one relocation. *)
Definition scan_relocations_rel (ctx : Ctx) (sec : InputSection)
    (rel : ElfRel) : M unit :=
  if is_hint (r_type rel) then skip else
  undef <- call_ret (record_undef_error ctx sec rel) ;;
  if (undef : bool) then skip else
  sym <- get_symbol (r_sym rel) ;;
  if negb (file sym) then
    _ <- call_ret (record_undef_error ctx sec rel) ;; skip
  else
  when (is_ifunc sym) (or_flags (r_sym rel) (Z.lor NEEDS_GOT NEEDS_PLT)) ;;;
  match r_type rel with
  | R_LARCH_32 =>
      if is_64 ctx then call (scan_absrel ctx sec (r_sym rel) rel)
      else call (scan_dyn_absrel ctx sec (r_sym rel) rel)
  | R_LARCH_64 =>
      assert (is_64 ctx) ;;;
      call (scan_dyn_absrel ctx sec (r_sym rel) rel)
  | R_LARCH_B26 =>
      when (is_imported sym) (or_flags (r_sym rel) NEEDS_PLT)
  | R_LARCH_GOT_HI20 | R_LARCH_GOT_PC_HI20 =>
      or_flags (r_sym rel) NEEDS_GOT
  | R_LARCH_TLS_IE_HI20 | R_LARCH_TLS_IE_PC_HI20 =>
      or_flags (r_sym rel) NEEDS_GOTTP
  | R_LARCH_TLS_LD_PC_HI20 | R_LARCH_TLS_GD_PC_HI20
  | R_LARCH_TLS_LD_HI20 | R_LARCH_TLS_GD_HI20 =>
      or_flags (r_sym rel) NEEDS_TLSGD
  | R_LARCH_32_PCREL | R_LARCH_64_PCREL =>
      call (scan_pcrel ctx sec (r_sym rel) rel)
  | R_LARCH_TLS_LE_HI20 | R_LARCH_TLS_LE_LO12
  | R_LARCH_TLS_LE64_LO20 | R_LARCH_TLS_LE64_HI12 =>
      call (check_tlsle ctx sec (r_sym rel) rel)
  | R_LARCH_B16 | R_LARCH_B21
  | R_LARCH_ABS_HI20 | R_LARCH_ABS_LO12
  | R_LARCH_ABS64_LO20 | R_LARCH_ABS64_HI12
  | R_LARCH_PCALA_HI20 | R_LARCH_PCALA_LO12
  | R_LARCH_PCALA64_LO20 | R_LARCH_PCALA64_HI12
  | R_LARCH_GOT_PC_LO12 | R_LARCH_GOT64_PC_LO20 | R_LARCH_GOT64_PC_HI12
  | R_LARCH_GOT_LO12 | R_LARCH_GOT64_LO20 | R_LARCH_GOT64_HI12
  | R_LARCH_TLS_IE_PC_LO12 | R_LARCH_TLS_IE64_PC_LO20
  | R_LARCH_TLS_IE64_PC_HI12
  | R_LARCH_TLS_IE_LO12 | R_LARCH_TLS_IE64_LO20 | R_LARCH_TLS_IE64_HI12
  | R_LARCH_ADD6 | R_LARCH_SUB6 | R_LARCH_ADD8 | R_LARCH_SUB8
  | R_LARCH_ADD16 | R_LARCH_SUB16 | R_LARCH_ADD32 | R_LARCH_SUB32
  | R_LARCH_ADD64 | R_LARCH_SUB64
  | R_LARCH_ADD_ULEB128 | R_LARCH_SUB_ULEB128 =>
      skip
  | _ => Error (Unknown_relocation rel)
  end.

(** [void InputSection<E>::scan_relocations(Context<E> &ctx)] *)
Definition scan_relocations (ctx : Ctx) (sec : InputSection) : M unit :=
  assert (is_alloc sec) ;;;
  call (fun s =>
          set_reldyn_offset (num_dynrel s * sizeof_ElfRel ctx)%u64 s) ;;;
  for_each (scan_relocations_rel ctx sec) (get_rels sec).

End Passes.

(** ** Vocabulary of the statements *)

(** The instruction word each immediate writer leaves, from the word [w]
    it finds and the value [val] it is given. *)
Definition insn_j20 (w val : Z) : Z :=
  Z.lor (Z.land w 0xfe00001f) (u32 (Z.shiftl (Z.land (u32 val) 0xfffff) 5)).

Definition insn_k12 (w val : Z) : Z :=
  Z.lor (Z.land w 0xfff003ff) (u32 (Z.shiftl (Z.land (u32 val) 0xfff) 10)).

Definition insn_d5k16 (w val : Z) : Z :=
  Z.lor (Z.land w 0xfc0003e0)
        (Z.lor (u32 (Z.shiftl (Z.land (u32 val) 0xffff) 10))
               (Z.land (Z.shiftr (u32 val) 16) 0x1f)).

Definition insn_d10k16 (w val : Z) : Z :=
  Z.lor (Z.land w 0xfc000000)
        (Z.lor (u32 (Z.shiftl (Z.land (u32 val) 0xffff) 10))
               (Z.land (Z.shiftr (u32 val) 16) 0x3ff)).

Definition insn_k16 (w val : Z) : Z :=
  Z.lor (Z.land w 0xfc0003ff) (u32 (Z.shiftl (Z.land (u32 val) 0xffff) 10)).

(** The state after the instruction word at [loc] went through [f]. *)
Definition patched (loc : Z) (f : Z -> Z) (s : LinkState) : LinkState :=
  set_buf (update 4 loc (f (word_at 4 loc (buf s))) (buf s)) s.

(** The state after the diagnostics [ds] (oldest first) were recorded. *)
Definition reported (ds : list Diag) (s : LinkState) : LinkState :=
  set_errors (rev ds ++ errors s) s.

(** The diagnostics of the two checks of [apply_reloc_alloc]. *)
Definition range_failures (rel : ElfRel) (val lo hi : Z) : list Diag :=
  if (val <? lo) || (hi <=? val) then [Out_of_range rel val lo hi] else [].

Definition alignment_failures (rel : ElfRel) (val : Z) : list Diag :=
  if Z.land val 3 =? 0 then [] else [Unaligned rel val].

(** [S + A - P] of a relocation, as the unsigned 64-bit value the source
    computes. *)
Definition displacement (sec : InputSection) (sym : Symbol) (rel : ElfRel)
    : Z :=
  (get_addr sym + u64 (r_addend rel) - (sec_addr sec + r_offset rel))%u64.

(** [G]: the byte offset of the symbol's slot in the GOT. *)
Definition got_slot_offset (ctx : Ctx) (sym : Symbol) : Z :=
  if has_tlsgd sym then (u64 (get_tlsgd_idx sym) * sizeof_Word ctx)%u64
  else (u64 (get_got_idx sym) * sizeof_Word ctx)%u64.

(** The address a PC-relative high part is computed for, for the kinds
    whose value is range-checked. *)
Definition hi20_target (ctx : Ctx) (sym : Symbol) (rel : ElfRel) : option Z :=
  let A := u64 (r_addend rel) in
  match r_type rel with
  | R_LARCH_PCALA_HI20 => Some (get_addr sym + A)%u64
  | R_LARCH_GOT_PC_HI20 => Some (got ctx + got_slot_offset ctx sym + A)%u64
  | R_LARCH_TLS_IE_PC_HI20 => Some (get_gottp_addr sym + A)%u64
  | R_LARCH_TLS_LD_PC_HI20 | R_LARCH_TLS_GD_PC_HI20 =>
      Some (get_tlsgd_addr sym + A)%u64
  | _ => None
  end.

(** Width of the immediate of a direct branch. *)
Definition branch_width (t : RelType) : option Z :=
  match t with
  | R_LARCH_B16 => Some 16
  | R_LARCH_B21 => Some 21
  | R_LARCH_B26 => Some 26
  | _ => None
  end.

(** The split-field writer that goes with a direct branch. *)
Definition branch_insn (t : RelType) : Z -> Z -> Z :=
  match t with
  | R_LARCH_B16 => insn_k16
  | R_LARCH_B21 => insn_d5k16
  | R_LARCH_B26 => insn_d10k16
  | _ => fun w _ => w
  end.

(** The relocations of an allocated section whose value is checked. *)
Definition is_checked (t : RelType) : bool :=
  match t with
  | R_LARCH_B16 | R_LARCH_B21 | R_LARCH_B26
  | R_LARCH_PCALA_HI20 | R_LARCH_GOT_PC_HI20 | R_LARCH_TLS_IE_PC_HI20
  | R_LARCH_TLS_LD_PC_HI20 | R_LARCH_TLS_GD_PC_HI20 => true
  | _ => false
  end.

(** What the checks of a checked relocation report. *)
Definition check_failures (ctx : Ctx) (sec : InputSection) (sym : Symbol)
    (rel : ElfRel) : list Diag :=
  match branch_width (r_type rel), hi20_target ctx sym rel with
  | Some w, _ =>
      let d := i64 (displacement sec sym rel) in
      alignment_failures rel d
      ++ range_failures rel d (- 2 ^ (w + 1)) (2 ^ (w + 1))
  | None, Some target =>
      let P := (sec_addr sec + r_offset rel)%u64 in
      range_failures rel (i64 (mid20 target P)) (- 2 ^ 31) (2 ^ 31)
  | None, None => []
  end.

(** The instruction word a checked relocation leaves at the patch site. *)
Definition checked_insn (ctx : Ctx) (sec : InputSection) (sym : Symbol)
    (rel : ElfRel) (w : Z) : Z :=
  match branch_width (r_type rel), hi20_target ctx sym rel with
  | Some _, _ =>
      branch_insn (r_type rel) w (Z.shiftr (displacement sec sym rel) 2)
  | None, Some target =>
      let P := (sec_addr sec + r_offset rel)%u64 in
      insn_j20 w (Z.shiftr (i64 (mid20 target P)) 12)
  | None, None => w
  end.

(** The overflow test of the PLT stub generator, for a slot at [slot] and
    a stub at [plt]. *)
Definition plt_overflow (slot plt : Z) : bool :=
  0xffffffff <? (slot - plt + 0x80000800)%u64.

(** A template whose first instruction received the high part of the
    distance, and whose [i]-th instruction received the low part. *)
Definition patch_hi20 (slot plt : Z) (ws : list Z) : list Z :=
  alter (fun w => insn_j20 w (Z.shiftr (mid20 slot plt) 12)) 0%nat ws.

Definition patch_lo12 (i : nat) (slot plt : Z) (ws : list Z) : list Z :=
  alter (fun w => insn_k12 w (slot - plt)%u64) i ws.

Definition plt_header_words (ctx : Ctx) : list Z :=
  patch_lo12 4 (gotplt ctx) (plt ctx)
    (patch_lo12 2 (gotplt ctx) (plt ctx)
       (patch_hi20 (gotplt ctx) (plt ctx)
          (if is_64 ctx then insn_64 else insn_32))).

Definition plt_entry_words (ctx : Ctx) (slot plt : Z) : list Z :=
  patch_lo12 1 slot plt
    (patch_hi20 slot plt (if is_64 ctx then plt_entry_64 else plt_entry_32)).

(** The GOT-relative kinds of the allocated-section applier. *)
Definition is_got_relative (t : RelType) : bool :=
  match t with
  | R_LARCH_GOT_PC_HI20 | R_LARCH_GOT_PC_LO12
  | R_LARCH_GOT64_PC_LO20 | R_LARCH_GOT64_PC_HI12
  | R_LARCH_GOT_HI20 | R_LARCH_GOT_LO12
  | R_LARCH_GOT64_LO20 | R_LARCH_GOT64_HI12 => true
  | _ => false
  end.

(** The instruction word a GOT-relative relocation leaves, for the slot
    address [target] and the patch-site address [P]. *)
Definition got_relative_insn (t : RelType) (target P w : Z) : Z :=
  match t with
  | R_LARCH_GOT_PC_HI20 => insn_j20 w (Z.shiftr (i64 (mid20 target P)) 12)
  | R_LARCH_GOT_PC_LO12 => insn_k12 w target
  | R_LARCH_GOT64_PC_LO20 =>
      insn_j20 w (Z.shiftr (alau64_hi32 (i64 target) (i64 P)) 32)
  | R_LARCH_GOT64_PC_HI12 =>
      insn_k12 w (Z.shiftr (alau64_hi32 (i64 target) (i64 P)) 52)
  | R_LARCH_GOT_HI20 => insn_j20 w (Z.shiftr target 12)
  | R_LARCH_GOT_LO12 => insn_k12 w target
  | R_LARCH_GOT64_LO20 => insn_j20 w (Z.shiftr target 32)
  | R_LARCH_GOT64_HI12 => insn_k12 w (Z.shiftr target 52)
  | _ => w
  end.

(** The ADD and SUB kinds that accumulate into a field of [w] bits, with
    the number of bytes they read and write. *)
Definition accumulate_kinds (w : Z) : option (RelType * RelType * nat) :=
  if w =? 6 then Some (R_LARCH_ADD6, R_LARCH_SUB6, 1%nat)
  else if w =? 8 then Some (R_LARCH_ADD8, R_LARCH_SUB8, 1%nat)
  else if w =? 16 then Some (R_LARCH_ADD16, R_LARCH_SUB16, 2%nat)
  else if w =? 32 then Some (R_LARCH_ADD32, R_LARCH_SUB32, 4%nat)
  else if w =? 64 then Some (R_LARCH_ADD64, R_LARCH_SUB64, 8%nat)
  else None.

(** The byte the 6-bit kinds store: the top two bits of the byte [b] they
    found, over the low six bits of [x]. *)
Definition six (b x : Z) : Z := Z.lor (Z.land b 0xc0) (Z.land x 0x3f).

(** The symbol of index [i] has every flag of the mask [m] set. *)
Definition has_flags (s : LinkState) (i : nat) (m : Z) : Prop :=
  exists sym, symbols s !! i = Some sym /\ Z.land (flags sym) m = m.

(** A collaborator that never clears a requirement flag. *)
Definition set_only (f : LinkState -> LinkState) : Prop :=
  forall s i m, has_flags s i m -> has_flags (f s) i m.

(** The collaborators of the scanner never clear a flag. *)
Definition scanners_set_only {ext : Collaborators} (ctx : Ctx)
    (sec : InputSection) : Prop :=
  (forall i r, set_only (scan_absrel ctx sec i r)) /\
  (forall i r, set_only (scan_dyn_absrel ctx sec i r)) /\
  (forall i r, set_only (scan_pcrel ctx sec i r)) /\
  (forall i r, set_only (check_tlsle ctx sec i r)).

(** The kinds of the non-allocated applier that consult the tombstone,
    with the number of bytes they store. *)
Definition tombstone_width (t : RelType) : option nat :=
  match t with
  | R_LARCH_64 => Some 8%nat
  | R_LARCH_TLS_DTPREL32 => Some 4%nat
  | R_LARCH_TLS_DTPREL64 => Some 8%nat
  | _ => None
  end.

(** The fields the writers fill, read back: the 20 bits [write_j20] places
    at bit 5 and the 12 bits [write_k12] places at bit 10. *)
Definition field_j20 (insn : Z) : Z := Z.land (Z.shiftr insn 5) 0xfffff.

Definition field_k12 (insn : Z) : Z := Z.land (Z.shiftr insn 10) 0xfff.

(** The 20-bit immediate as [pcalau12i] reads it, sign-extended. *)
Definition sign_extend20 (hi : Z) : Z :=
  if Z.testbit hi 19 then Z.land hi 0xfffff - 0x100000 else Z.land hi 0xfffff.

(** ** Concrete inputs *)

(** Small links on which the statements below are evaluated. *)
Module Examples.

(** Collaborators that never object: no undefined symbol, no fragment,
    no tombstone, no dynamic relocation. *)
Definition quiet : Collaborators := {|
  NEEDS_GOT := 1;
  NEEDS_PLT := 2;
  NEEDS_GOTTP := 8;
  NEEDS_TLSGD := 16;
  sizeof_ElfRel := fun ctx => if is_64 ctx then 24 else 12;
  record_undef_error := fun _ _ _ s => (false, s);
  scan_absrel := fun _ _ _ _ s => s;
  scan_dyn_absrel := fun _ _ _ _ s => s;
  scan_pcrel := fun _ _ _ _ s => s;
  check_tlsle := fun _ _ _ _ s => s;
  apply_dyn_absrel := fun _ _ _ _ _ _ _ _ s => s;
  get_fragment := fun _ _ _ => (None, 0);
  get_tombstone := fun _ _ => None;
  read_uleb := fun _ _ => 0;
  overwrite_uleb := fun _ _ s => s
|}.

(** The same, with every symbol tombstoned to the value [1]. *)
Definition tombstoning : Collaborators := {|
  NEEDS_GOT := 1;
  NEEDS_PLT := 2;
  NEEDS_GOTTP := 8;
  NEEDS_TLSGD := 16;
  sizeof_ElfRel := fun ctx => if is_64 ctx then 24 else 12;
  record_undef_error := fun _ _ _ s => (false, s);
  scan_absrel := fun _ _ _ _ s => s;
  scan_dyn_absrel := fun _ _ _ _ s => s;
  scan_pcrel := fun _ _ _ _ s => s;
  check_tlsle := fun _ _ _ _ s => s;
  apply_dyn_absrel := fun _ _ _ _ _ _ _ _ s => s;
  get_fragment := fun _ _ _ => (None, 0);
  get_tombstone := fun _ _ => Some 1;
  read_uleb := fun _ _ => 0;
  overwrite_uleb := fun _ _ s => s
|}.

(** A 64-bit link: GOT at 0x20000, GOT-PLT at 0x30000, PLT at 0x10000. *)
Definition ctx64 : Ctx := mkCtx true 0x20000 0x30000 0x10000 0 0 None.

(** A link whose GOT-PLT lies 4 GiB above its PLT. *)
Definition ctx_far : Ctx := mkCtx true 0x20000 0x100010000 0x10000 0 0 None.

(** A defined symbol at [addr], without slots. *)
Definition sym_at (addr : Z) : Symbol :=
  mkSym true addr (-1) (-1) false 0 0 0 0 0 false false 0.

(** An indirect function at [addr]. *)
Definition ifunc_at (addr : Z) : Symbol :=
  mkSym true addr (-1) (-1) false 0 0 0 0 0 true false 0.

(** A symbol with GOT slot 3 and TLS-GD slot 5. *)
Definition sym_tlsgd : Symbol :=
  mkSym true 0x4000 3 5 true 0 0 0 0 0 false false 16.

(** A symbol whose PLT stub is at 0x10020 and whose slots are 4 GiB
    away from it. *)
Definition sym_far : Symbol :=
  mkSym true 0x4000 0 (-1) false 0x100020000 0x100030000 0x10020 0 0
        false false 3.

(** A section placed at 0x1000. *)
Definition text : InputSection := mkSec [] 0x1000 true 0.

(** A section that is not mapped into the image. *)
Definition debug_info : InputSection := mkSec [] 0 false 0.

Definition eh_frame : EhFrameSection := mkEh 0 0x2000.

(** A link state with the given bytes and symbols, and no error yet. *)
Definition image (bytes : list byte) (syms : list Symbol) : LinkState :=
  mkState bytes [] syms 0 0 None.

Definition ones4 : list byte := [Byte.xff; Byte.xff; Byte.xff; Byte.xff].

Definition zeros (n : nat) : list byte := repeat Byte.x00 n.

End Examples.

(** ** Further vocabulary *)

(** A two's complement number of [n] bits, read as signed. *)
Definition sign_extend (n x : Z) : Z :=
  (x + 2 ^ (n - 1)) mod 2 ^ n - 2 ^ (n - 1).

(** The fields the split-field writers fill, read back: 16 bits at bit 10,
    with the 5 or 10 bits above them at bit 0. *)
Definition field_k16 (insn : Z) : Z := Z.land (Z.shiftr insn 10) 0xffff.

Definition field_d5k16 (insn : Z) : Z :=
  Z.lor (Z.shiftl (Z.land insn 0x1f) 16) (Z.land (Z.shiftr insn 10) 0xffff).

Definition field_d10k16 (insn : Z) : Z :=
  Z.lor (Z.shiftl (Z.land insn 0x3ff) 16) (Z.land (Z.shiftr insn 10) 0xffff).

(** The field a direct branch fills. *)
Definition branch_field (t : RelType) : Z -> Z :=
  match t with
  | R_LARCH_B16 => field_k16
  | R_LARCH_B21 => field_d5k16
  | R_LARCH_B26 => field_d10k16
  | _ => fun _ => 0
  end.


(** The buffer [b'] has the length of [b] and its bytes, except in the
    [n] bytes at [loc]. *)
Definition same_outside (n : nat) (loc : Z) (b b' : list byte) : Prop :=
  length b' = length b /\
  forall i : nat,
    Z.of_nat i < loc \/ loc + Z.of_nat n <= Z.of_nat i -> b' !! i = b !! i.

(** The kinds [apply_eh_reloc] has a case for. *)
Definition eh_supported (t : RelType) : bool :=
  match t with
  | R_NONE
  | R_LARCH_ADD6 | R_LARCH_ADD8 | R_LARCH_ADD16 | R_LARCH_ADD32
  | R_LARCH_ADD64
  | R_LARCH_SUB6 | R_LARCH_SUB8 | R_LARCH_SUB16 | R_LARCH_SUB32
  | R_LARCH_SUB64
  | R_LARCH_32_PCREL | R_LARCH_64_PCREL => true
  | _ => false
  end.

(** The kinds [apply_reloc_nonalloc] has a case for. *)
Definition nonalloc_supported (t : RelType) : bool :=
  match t with
  | R_NONE | R_LARCH_32 | R_LARCH_64
  | R_LARCH_ADD6 | R_LARCH_ADD8 | R_LARCH_ADD16 | R_LARCH_ADD32
  | R_LARCH_ADD64
  | R_LARCH_SUB6 | R_LARCH_SUB8 | R_LARCH_SUB16 | R_LARCH_SUB32
  | R_LARCH_SUB64
  | R_LARCH_TLS_DTPREL32 | R_LARCH_TLS_DTPREL64
  | R_LARCH_ADD_ULEB128 | R_LARCH_SUB_ULEB128 => true
  | _ => false
  end.

(** The kinds the two appliers of sections treat with the same
    statements: the accumulating ones. *)
Definition is_accumulating (t : RelType) : bool :=
  match t with
  | R_LARCH_ADD6 | R_LARCH_ADD8 | R_LARCH_ADD16 | R_LARCH_ADD32
  | R_LARCH_ADD64
  | R_LARCH_SUB6 | R_LARCH_SUB8 | R_LARCH_SUB16 | R_LARCH_SUB32
  | R_LARCH_SUB64
  | R_LARCH_ADD_ULEB128 | R_LARCH_SUB_ULEB128 => true
  | _ => false
  end.

(** The kinds the switch of [scan_relocations] has a case for. *)
Definition scanner_known (t : RelType) : bool :=
  match t with
  | R_NONE | R_LARCH_RELAX | R_LARCH_MARK_LA | R_LARCH_MARK_PCREL
  | R_LARCH_TLS_DTPREL32 | R_LARCH_TLS_DTPREL64 | R_LARCH_OTHER _ => false
  | _ => true
  end.

(** The number of bytes [apply_reloc_alloc] writes at the patch site, for
    the kinds it patches with its own statements. *)
Definition patch_size (ctx : Ctx) (t : RelType) : option nat :=
  match t with
  | R_NONE | R_LARCH_RELAX | R_LARCH_MARK_LA | R_LARCH_MARK_PCREL => None
  | R_LARCH_32 => if is_64 ctx then Some 4%nat else None
  | R_LARCH_64 | R_LARCH_ADD_ULEB128 | R_LARCH_SUB_ULEB128 => None
  | R_LARCH_TLS_DTPREL32 | R_LARCH_TLS_DTPREL64 | R_LARCH_OTHER _ => None
  | R_LARCH_ADD6 | R_LARCH_SUB6 | R_LARCH_ADD8 | R_LARCH_SUB8 => Some 1%nat
  | R_LARCH_ADD16 | R_LARCH_SUB16 => Some 2%nat
  | R_LARCH_ADD64 | R_LARCH_SUB64 | R_LARCH_64_PCREL => Some 8%nat
  | _ => Some 4%nat
  end.

(** A step that, given [n] bytes at [loc], returns, and changes the buffer
    in these bytes only and no symbol. *)
Definition patches (n : nat) (loc : Z) (m : M unit) : Prop :=
  forall s, in_bounds n loc (buf s) = true ->
    exists s', m s = Returns tt s' /\
               same_outside n loc (buf s) (buf s') /\
               symbols s' = symbols s.

(** The kinds of [apply_reloc_nonalloc] that store an address, with the
    number of bytes stored and what is taken off the address. *)
Definition stored_width (t : RelType) : option nat :=
  match t with
  | R_LARCH_32 | R_LARCH_TLS_DTPREL32 => Some 4%nat
  | R_LARCH_64 | R_LARCH_TLS_DTPREL64 => Some 8%nat
  | _ => None
  end.

Definition stored_bias (ctx : Ctx) (t : RelType) : Z :=
  match t with
  | R_LARCH_TLS_DTPREL32 | R_LARCH_TLS_DTPREL64 => dtp_addr ctx
  | _ => 0
  end.

(** The state after [sym.flags |= m] on the symbol of index [i]. *)
Definition flagged (i : nat) (m : Z) (s : LinkState) : LinkState :=
  set_symbols
    (alter (fun sym => set_flags (Z.lor (flags sym) m) sym) i (symbols s)) s.

(** The flags the statements of [scan_relocations] themselves set on the
    symbol of a relocation of kind [t]. *)
Definition required_flags {ext : Collaborators} (sym : Symbol)
    (t : RelType) : Z :=
  Z.lor (if is_ifunc sym then Z.lor NEEDS_GOT NEEDS_PLT else 0)
    (match t with
     | R_LARCH_B26 => if is_imported sym then NEEDS_PLT else 0
     | R_LARCH_GOT_HI20 | R_LARCH_GOT_PC_HI20 => NEEDS_GOT
     | R_LARCH_TLS_IE_HI20 | R_LARCH_TLS_IE_PC_HI20 => NEEDS_GOTTP
     | R_LARCH_TLS_LD_PC_HI20 | R_LARCH_TLS_GD_PC_HI20
     | R_LARCH_TLS_LD_HI20 | R_LARCH_TLS_GD_HI20 => NEEDS_TLSGD
     | _ => 0
     end).

(** The kinds [scan_relocations] hands to another function. *)
Definition is_delegated (t : RelType) : bool :=
  match t with
  | R_LARCH_32 | R_LARCH_64 | R_LARCH_32_PCREL | R_LARCH_64_PCREL
  | R_LARCH_TLS_LE_HI20 | R_LARCH_TLS_LE_LO12
  | R_LARCH_TLS_LE64_LO20 | R_LARCH_TLS_LE64_HI12 => true
  | _ => false
  end.


(** The 16 bytes at [loc] are the PLT stub made at the address [plt] for
    the slot at [slot]: the template, with the high part of the page
    distance in the first instruction and the low 12 bits of the distance
    in the second. *)
Definition is_plt_stub (ctx : Ctx) (loc slot plt : Z) (b : list byte)
    : Prop :=
  field_j20 (word_at 4 loc b) = Z.shiftr (mid20 slot plt) 12 mod 2 ^ 20 /\
  field_k12 (word_at 4 (loc + 4) b) = (slot - plt) mod 2 ^ 12 /\
  Z.land (word_at 4 loc b) 0xfe00001f = 0x1c00000f /\
  Z.land (word_at 4 (loc + 4) b) 0xffc003ff
  = (if is_64 ctx then 0x28c001ef else 0x288001ef) /\
  word_at 4 (loc + 8) b = 0x4c0001ed /\
  word_at 4 (loc + 12) b = 0x03400000.

(** The families of four kinds that place one 64-bit value in the fields
    of four instructions: bits 12 to 31, 0 to 11, 32 to 51 and 52 to 63. *)
Inductive Family : Type := Abs | Got | TlsLe | TlsIe.

Definition family_kinds (f : Family)
    : RelType * RelType * RelType * RelType :=
  match f with
  | Abs => (R_LARCH_ABS_HI20, R_LARCH_ABS_LO12,
            R_LARCH_ABS64_LO20, R_LARCH_ABS64_HI12)
  | Got => (R_LARCH_GOT_HI20, R_LARCH_GOT_LO12,
            R_LARCH_GOT64_LO20, R_LARCH_GOT64_HI12)
  | TlsLe => (R_LARCH_TLS_LE_HI20, R_LARCH_TLS_LE_LO12,
              R_LARCH_TLS_LE64_LO20, R_LARCH_TLS_LE64_HI12)
  | TlsIe => (R_LARCH_TLS_IE_HI20, R_LARCH_TLS_IE_LO12,
              R_LARCH_TLS_IE64_LO20, R_LARCH_TLS_IE64_HI12)
  end.

(** The value [apply_reloc_alloc] computes for the kinds of a family. *)
Definition family_value (ctx : Ctx) (sym : Symbol) (A : Z) (f : Family)
    : Z :=
  match f with
  | Abs => (get_addr sym + u64 A)%u64
  | Got => (got ctx + got_slot_offset ctx sym + u64 A)%u64
  | TlsLe => (get_addr sym + u64 A - tp_addr ctx)%u64
  | TlsIe => (get_gottp_addr sym + u64 A)%u64
  end.

(** The kind that fills the low 12 bits next to a PC-relative high part
    computed for the same address. *)
Definition lo12_partner (t : RelType) : option RelType :=
  match t with
  | R_LARCH_PCALA_HI20 => Some R_LARCH_PCALA_LO12
  | R_LARCH_GOT_PC_HI20 => Some R_LARCH_GOT_PC_LO12
  | R_LARCH_TLS_IE_PC_HI20 => Some R_LARCH_TLS_IE_PC_LO12
  | _ => None
  end.
(* ===================================================================== *)
(** * Part II: properties *)
(* ===================================================================== *)

(** ** Facts on fixed-width arithmetic *)

Section BitsFacts.

Lemma u64_range z : 0 <= u64 z < 2 ^ 64.
Proof. unfold u64, wrap. apply Z.mod_pos_bound. lia. Qed.

Lemma u32_range z : 0 <= u32 z < 2 ^ 32.
Proof. unfold u32, wrap. apply Z.mod_pos_bound. lia. Qed.

Lemma i64_range z : - 2 ^ 63 <= i64 z < 2 ^ 63.
Proof.
  unfold i64. pose proof (Z.mod_pos_bound (z + 2 ^ 63) (2 ^ 64)). lia.
Qed.

Lemma u64_small z : 0 <= z < 2 ^ 64 -> u64 z = z.
Proof. intros H. unfold u64, wrap. now apply Z.mod_small. Qed.

Lemma u64_idem z : u64 (u64 z) = u64 z.
Proof. apply u64_small, u64_range. Qed.

Lemma i64_small z : - 2 ^ 63 <= z < 2 ^ 63 -> i64 z = z.
Proof. intros H. unfold i64. rewrite Z.mod_small; lia. Qed.

(** [i64] and [u64] name the same residue modulo [2^64]. *)
Lemma u64_i64 z : u64 (i64 z) = u64 z.
Proof.
  unfold u64, wrap, i64.
  rewrite Zminus_mod, Z.mod_mod by lia.
  rewrite <- Zminus_mod. f_equal. lia.
Qed.

Lemma u64_add_l a b : u64 (u64 a + b) = u64 (a + b).
Proof. unfold u64, wrap. now rewrite Zplus_mod_idemp_l. Qed.

Lemma u64_add_r a b : u64 (a + u64 b) = u64 (a + b).
Proof. unfold u64, wrap. now rewrite Zplus_mod_idemp_r. Qed.

Lemma u64_sub_l a b : u64 (u64 a - b) = u64 (a - b).
Proof. unfold u64, wrap. now rewrite Zminus_mod_idemp_l. Qed.

Lemma u64_sub_r a b : u64 (a - u64 b) = u64 (a - b).
Proof. unfold u64, wrap. now rewrite Zminus_mod_idemp_r. Qed.

End BitsFacts.

(** ** Facts on [page] and [mid20] *)

Section PageFacts.

Lemma page_decompose x : page x = u64 x - x mod 2 ^ 12.
Proof.
  unfold page, u64, wrap.
  change 0xfffffffffffff000 with (Z.ldiff (Z.ones 64) (Z.ones 12)).
  rewrite <- !Z.land_ones by lia.
  assert (H : Z.land x (Z.ones 64) =
              Z.lor (Z.land x (Z.ldiff (Z.ones 64) (Z.ones 12)))
                    (Z.land x (Z.ones 12))).
  { Z.bitblast. }
  rewrite H.
  rewrite <- Z.add_nocarry_lor by (Z.bitblast).
  lia.
Qed.

Lemma mod12_of_u64 x : (u64 x) mod 2 ^ 12 = x mod 2 ^ 12.
Proof.
  unfold u64, wrap. apply Z.mod_mod_divide.
  exists (2 ^ 52). reflexivity.
Qed.

Lemma page_range x : 0 <= page x < 2 ^ 64.
Proof.
  rewrite page_decompose.
  pose proof (u64_range x) as Hx.
  pose proof (Z.mod_pos_bound x (2 ^ 12) ltac:(lia)) as Hm.
  assert (x mod 2 ^ 12 <= u64 x).
  { rewrite <- mod12_of_u64. apply Z.mod_le; lia. }
  lia.
Qed.

Lemma page_low_bits x : (page x) mod 2 ^ 12 = 0.
Proof.
  rewrite page_decompose, Zminus_mod, mod12_of_u64, Z.mod_mod by lia.
  rewrite Z.sub_diag. reflexivity.
Qed.

Lemma page_idempotent x : page (page x) = page x.
Proof.
  rewrite (page_decompose (page x)), page_low_bits.
  rewrite u64_small by apply page_range. lia.
Qed.

Lemma page_multiple x : exists q, page x = 2 ^ 12 * q.
Proof.
  exists (page x / 2 ^ 12).
  pose proof (Z.div_mod (page x) (2 ^ 12) ltac:(lia)) as H.
  rewrite page_low_bits in H. lia.
Qed.

End PageFacts.

Section Mid20Facts.

Lemma mod12_of_i64 x : (i64 x) mod 2 ^ 12 = x mod 2 ^ 12.
Proof.
  rewrite <- (mod12_of_u64 (i64 x)), u64_i64. apply mod12_of_u64.
Qed.

Lemma mid20_low_bits val pc : (mid20 val pc) mod 2 ^ 12 = 0.
Proof.
  unfold mid20, sub64.
  rewrite mod12_of_u64, Zminus_mod, !page_low_bits. reflexivity.
Qed.

Lemma shift12_exact x : x mod 2 ^ 12 = 0 -> Z.shiftl (Z.shiftr x 12) 12 = x.
Proof.
  intros Hx.
  rewrite Z.shiftr_div_pow2, Z.shiftl_mul_pow2 by lia.
  pose proof (Z.div_mod x (2 ^ 12) ltac:(lia)). lia.
Qed.

(** The high part [pcalau12i] adds to [page(pc)] lands on the page of the
    biased target. *)
Lemma page_plus_mid20 val pc :
  (page pc + mid20 val pc)%u64 = page (val + 0x800)%u64.
Proof.
  unfold mid20, add64, sub64.
  rewrite u64_add_r.
  replace (page pc + (page (u64 (val + 0x800)) - page pc))
    with (page (u64 (val + 0x800))) by lia.
  apply u64_small, page_range.
Qed.

Lemma land_0xfff x : Z.land x 0xfff = x mod 2 ^ 12.
Proof. change 0xfff with (Z.ones 12). apply Z.land_ones. lia. Qed.

Lemma sign_extend12_low x :
  sign_extend12 (Z.land x 0xfff) =
  if x mod 2 ^ 12 <? 0x800 then x mod 2 ^ 12 else x mod 2 ^ 12 - 0x1000.
Proof.
  unfold sign_extend12.
  rewrite !land_0xfff, Z.mod_mod by lia.
  pose proof (Z.mod_pos_bound x (2 ^ 12) ltac:(lia)) as Hr.
  set (r := x mod 2 ^ 12) in *.
  destruct (Z.testbit r 11) eqn:Hb.
  - apply Z.testbit_true in Hb; [|lia].
    destruct (Z.ltb_spec r 0x800) as [Hlt|Hge]; [|reflexivity].
    rewrite Z.div_small in Hb by lia. discriminate.
  - apply Z.testbit_false in Hb; [|lia].
    destruct (Z.ltb_spec r 0x800) as [Hlt|Hge]; [reflexivity|].
    assert (Hq : r / 2 ^ 11 = 1).
    { symmetry. apply Z.div_unique with (r := r - 2 ^ 11); lia. }
    rewrite Hq in Hb. discriminate.
Qed.

(** The pair of instructions rebuilds the target, whatever the distance:
    the range matters only for the width of the 20-bit field. *)
Lemma materialize_mid20 pc target :
  materialize pc (Z.shiftr (mid20 target pc) 12) (Z.land target 0xfff)
  = u64 target.
Proof.
  unfold materialize.
  rewrite shift12_exact by apply mid20_low_bits.
  rewrite page_plus_mid20, sign_extend12_low.
  unfold add64, sub64. rewrite page_decompose, u64_idem.
  rewrite mod12_of_u64.
  pose proof (Z.mod_pos_bound target (2 ^ 12) ltac:(lia)) as Hr.
  pose proof (Z.div_mod target (2 ^ 12) ltac:(lia)) as Ht.
  set (r := target mod 2 ^ 12) in *.
  set (q := target / 2 ^ 12) in *.
  destruct (Z.ltb_spec r 0x800) as [Hlt|Hge].
  - assert (Hm : (target + 0x800) mod 2 ^ 12 = r + 0x800).
    { symmetry. apply Z.mod_unique with (q := q); lia. }
    rewrite Hm.
    match goal with |- u64 (u64 ?a - ?b + ?c) = _ =>
      replace (u64 a - b + c) with (u64 a + (c - b)) by lia end.
    rewrite u64_add_l. f_equal. lia.
  - assert (Hm : (target + 0x800) mod 2 ^ 12 = r - 0x800).
    { symmetry. apply Z.mod_unique with (q := q + 1); lia. }
    rewrite Hm.
    match goal with |- u64 (u64 ?a - ?b + ?c) = _ =>
      replace (u64 a - b + c) with (u64 a + (c - b)) by lia end.
    rewrite u64_add_l. f_equal. lia.
Qed.

End Mid20Facts.

(** ** C9: the difference of two pages is a multiple of the page size *)

(** Claim C9.  For every [val] and [pc], [mid20 val pc] has its low 12 bits
    clear, so shifting it right by 12 and back by 12 gives the same number:
    the shift applied before the 20-bit field is written loses nothing.
    This holds for the unsigned value the PLT generator shifts and for the
    signed copy the relocation applier shifts. *)
Theorem mid20_is_page_multiple (val pc : Z) :
  Z.land (mid20 val pc) 0xfff = 0 /\
  Z.shiftl (Z.shiftr (mid20 val pc) 12) 12 = mid20 val pc /\
  Z.shiftl (Z.shiftr (i64 (mid20 val pc)) 12) 12 = i64 (mid20 val pc).
Proof.
  repeat split.
  - rewrite land_0xfff. apply mid20_low_bits.
  - apply shift12_exact, mid20_low_bits.
  - apply shift12_exact. rewrite mod12_of_i64. apply mid20_low_bits.
Qed.

(** ** C1: the two-instruction sequence rebuilds the target *)

(** Claim C1.  For every 64-bit [pc] and every 64-bit [target] with
    [pc - 2^31 <= target < pc + 2^31], the high part [mid20 target pc >> 12]
    and the low part [target & 0xfff], decoded as
    [(page pc + (hi << 12)) + sign_extend12 lo], give [target] back. *)
Theorem materialize_reconstructs_target (pc target : Z) :
  0 <= pc < 2 ^ 64 ->
  0 <= target < 2 ^ 64 ->
  pc - 2 ^ 31 <= target < pc + 2 ^ 31 ->
  materialize pc (Z.shiftr (mid20 target pc) 12) (Z.land target 0xfff)
  = target.
Proof.
  intros _ Ht _. rewrite materialize_mid20. now apply u64_small.
Qed.

Lemma materialize_reconstructs_target_witness :
  materialize 0x120000ffc (Z.shiftr (mid20 0x120008abc 0x120000ffc) 12)
              (Z.land 0x120008abc 0xfff) = 0x120008abc.
Proof.
  apply (materialize_reconstructs_target 0x120000ffc 0x120008abc); lia.
Defined.

(** ** Facts on the output buffer *)

Section BufferFacts.

Implicit Types (b bs : list byte) (loc v : Z) (n : nat).

Lemma in_bounds_spec n loc b :
  in_bounds n loc b = true <->
  0 <= loc /\ (Z.to_nat loc + n <= length b)%nat.
Proof.
  unfold in_bounds. rewrite andb_true_iff, Z.leb_le, Z.leb_le. lia.
Qed.

Lemma length_splice loc bs b :
  (Z.to_nat loc + length bs <= length b)%nat ->
  length (splice loc bs b) = length b.
Proof.
  intros Hb. unfold splice.
  rewrite !length_app, length_take, length_drop. lia.
Qed.

Lemma slice_splice loc bs b :
  (Z.to_nat loc <= length b)%nat ->
  slice (length bs) loc (splice loc bs b) = bs.
Proof.
  intros Hb. unfold slice, splice.
  rewrite drop_app_length' by (rewrite length_take; lia).
  apply take_app_length.
Qed.

Lemma splice_slice n loc b :
  (Z.to_nat loc + n <= length b)%nat ->
  splice loc (slice n loc b) b = b.
Proof.
  intros Hb. unfold slice, splice.
  rewrite length_take, length_drop.
  replace (Z.to_nat loc + n `min` (length b - Z.to_nat loc))%nat
    with (Z.to_nat loc + n)%nat by lia.
  rewrite <- drop_drop, take_drop. apply take_drop.
Qed.

Lemma splice_splice loc bs bs' b :
  length bs' = length bs ->
  (Z.to_nat loc <= length b)%nat ->
  splice loc bs' (splice loc bs b) = splice loc bs' b.
Proof.
  intros Hl Hb. unfold splice.
  rewrite take_app_length' by (rewrite length_take; lia).
  do 2 f_equal.
  rewrite drop_app_add' by (rewrite length_take; lia).
  rewrite Hl. apply drop_app_length.
Qed.

Lemma length_update n loc v b :
  (Z.to_nat loc + n <= length b)%nat ->
  length (update n loc v b) = length b.
Proof.
  intros Hb. unfold update. apply length_splice.
  now rewrite length_le_split.
Qed.

Lemma in_bounds_update m n loc loc' v b :
  in_bounds n loc b = true ->
  in_bounds m loc' (update n loc v b) = in_bounds m loc' b.
Proof.
  intros Hb. apply in_bounds_spec in Hb as [_ Hb].
  unfold in_bounds. now rewrite length_update.
Qed.

(** Reading back what was stored gives the value, cut to [n] bytes. *)
Lemma word_at_update n loc v b :
  in_bounds n loc b = true ->
  word_at n loc (update n loc v b) = v mod 2 ^ (Z.of_nat n * 8).
Proof.
  intros Hb. apply in_bounds_spec in Hb as [_ Hb].
  unfold word_at, update.
  rewrite <- (length_le_split n v) at 1.
  rewrite slice_splice by lia.
  apply le_combine_split.
Qed.

(** A second store at the same place hides the first. *)
Lemma update_update n loc v v' b :
  in_bounds n loc b = true ->
  update n loc v' (update n loc v b) = update n loc v' b.
Proof.
  intros Hb. apply in_bounds_spec in Hb as [_ Hb].
  unfold update. apply splice_splice; [|lia].
  now rewrite !length_le_split.
Qed.

(** Storing what is there changes nothing. *)
Lemma update_word_at n loc b :
  in_bounds n loc b = true ->
  update n loc (word_at n loc b) b = b.
Proof.
  intros Hb. apply in_bounds_spec in Hb as [_ Hb].
  unfold update, word_at.
  assert (Hl : length (slice n loc b) = n).
  { unfold slice. rewrite length_take, length_drop. lia. }
  rewrite <- Hl at 1. rewrite split_le_combine.
  now apply splice_slice.
Qed.

(** A store keeps the low [n] bytes of the value only. *)
Lemma update_mod n loc v b :
  update n loc (v mod 2 ^ (Z.of_nat n * 8)) b = update n loc v b.
Proof. unfold update. now rewrite <- le_split_mod. Qed.

Lemma update_congr n loc v v' b :
  v mod 2 ^ (Z.of_nat n * 8) = v' mod 2 ^ (Z.of_nat n * 8) ->
  update n loc v b = update n loc v' b.
Proof.
  intros Hv. rewrite <- (update_mod n loc v), <- (update_mod n loc v').
  now rewrite Hv.
Qed.

Lemma word_at_range n loc b :
  0 <= word_at n loc b < 2 ^ (Z.of_nat n * 8).
Proof.
  unfold word_at.
  pose proof (le_combine_bound (slice n loc b)) as Hr.
  assert (Hl : (length (slice n loc b) <= n)%nat).
  { unfold slice. rewrite length_take. lia. }
  assert (2 ^ (8 * Z.of_nat (length (slice n loc b)))
          <= 2 ^ (Z.of_nat n * 8)).
  { apply Z.pow_le_mono_r; lia. }
  lia.
Qed.

End BufferFacts.

(** ** Running the buffer accessors and the immediate writers *)

Section RunFacts.

Implicit Types (s : LinkState) (loc v : Z) (n : nat).

Lemma bind_returns {A B} (m : M A) (k : A -> M B) s a s' :
  m s = Returns a s' -> bind m k s = k a s'.
Proof. intros Hm. unfold bind. now rewrite Hm. Qed.

Lemma load_ok n loc s :
  in_bounds n loc (buf s) = true ->
  load n loc s = Returns (word_at n loc (buf s)) s.
Proof. intros Hb. unfold load. now rewrite Hb. Qed.

Lemma store_ok n loc v s :
  in_bounds n loc (buf s) = true ->
  store n loc v s = Returns tt (set_buf (update n loc v (buf s)) s).
Proof. intros Hb. unfold store. now rewrite Hb. Qed.

Lemma land_small w m k :
  0 <= k -> 0 <= w < 2 ^ k -> (Z.land w m) mod 2 ^ k = Z.land w m.
Proof.
  intros Hk Hw.
  rewrite <- Z.land_ones, <- Z.land_assoc, (Z.land_comm m),
    Z.land_assoc, Z.land_ones by lia.
  now rewrite Z.mod_small.
Qed.

(** Clearing a field and setting it again: the two read-modify-write
    steps of a writer amount to one store. *)
Lemma clear_then_set n loc m v s :
  in_bounds n loc (buf s) = true ->
  (and_assign n loc m ;;; or_assign n loc v) s =
  Returns tt
    (set_buf (update n loc (Z.lor (Z.land (word_at n loc (buf s)) m) v)
                     (buf s)) s).
Proof.
  intros Hb. unfold and_assign, or_assign.
  rewrite (bind_returns _ _ s tt
             (set_buf (update n loc (Z.land (word_at n loc (buf s)) m)
                              (buf s)) s)).
  2:{ erewrite bind_returns by now apply load_ok. now apply store_ok. }
  assert (Hb' : in_bounds n loc
                  (update n loc (Z.land (word_at n loc (buf s)) m) (buf s))
                = true).
  { now rewrite in_bounds_update. }
  erewrite bind_returns by (apply load_ok; exact Hb').
  rewrite store_ok by exact Hb'. cbn [buf set_buf].
  rewrite word_at_update, update_update by assumption.
  rewrite land_small by (try apply word_at_range; lia).
  reflexivity.
Qed.

Lemma write_j20_ok loc val s :
  in_bounds 4 loc (buf s) = true ->
  write_j20 loc val s = Returns tt (patched loc (fun w => insn_j20 w val) s).
Proof. intros Hb. unfold write_j20. now rewrite clear_then_set. Qed.

Lemma write_k12_ok loc val s :
  in_bounds 4 loc (buf s) = true ->
  write_k12 loc val s = Returns tt (patched loc (fun w => insn_k12 w val) s).
Proof. intros Hb. unfold write_k12. now rewrite clear_then_set. Qed.

Lemma write_d5k16_ok loc val s :
  in_bounds 4 loc (buf s) = true ->
  write_d5k16 loc val s
  = Returns tt (patched loc (fun w => insn_d5k16 w val) s).
Proof. intros Hb. unfold write_d5k16. now rewrite clear_then_set. Qed.

Lemma write_d10k16_ok loc val s :
  in_bounds 4 loc (buf s) = true ->
  write_d10k16 loc val s
  = Returns tt (patched loc (fun w => insn_d10k16 w val) s).
Proof. intros Hb. unfold write_d10k16. now rewrite clear_then_set. Qed.

Lemma write_k16_ok loc val s :
  in_bounds 4 loc (buf s) = true ->
  write_k16 loc val s = Returns tt (patched loc (fun w => insn_k16 w val) s).
Proof. intros Hb. unfold write_k16. now rewrite clear_then_set. Qed.

End RunFacts.

(** ** The checks of the allocated-section applier *)

Section CheckFacts.

Context {ext : Collaborators}.

Implicit Types (s : LinkState) (rel : ElfRel).

Lemma reported_nil s : reported [] s = s.
Proof. now destruct s. Qed.

Lemma reported_app ds ds' s :
  reported (ds ++ ds') s = reported ds' (reported ds s).
Proof.
  unfold reported. cbn [errors set_errors].
  rewrite rev_app_distr, <- app_assoc. reflexivity.
Qed.

Lemma errors_reported ds s : errors (reported ds s) = rev ds ++ errors s.
Proof. reflexivity. Qed.

Lemma check_run rel val lo hi s :
  check rel val lo hi s
  = Returns tt (reported (range_failures rel val lo hi) s).
Proof.
  unfold check, when, range_failures.
  destruct ((val <? lo) || (hi <=? val)).
  - reflexivity.
  - now rewrite reported_nil.
Qed.

Lemma check_branch_run rel val lo hi s :
  check_branch rel val lo hi s
  = Returns tt
      (reported (alignment_failures rel val ++ range_failures rel val lo hi)
                s).
Proof.
  unfold check_branch. rewrite reported_app.
  erewrite bind_returns.
  - apply check_run.
  - unfold when, alignment_failures.
    destruct (Z.land val 3 =? 0); cbn [negb].
    + now rewrite reported_nil.
    + reflexivity.
Qed.

Lemma get_symbol_ok i s sym :
  symbols s !! i = Some sym -> get_symbol i s = Returns sym s.
Proof. intros Hs. unfold get_symbol. now rewrite Hs. Qed.

(** A checked relocation reports what its checks find, and then writes
    its value at the patch site in either case. *)
Lemma checked_reloc_run ctx sec base rel s sym :
  is_checked (r_type rel) = true ->
  symbols s !! r_sym rel = Some sym ->
  in_bounds 4 (base + r_offset rel) (buf s) = true ->
  apply_reloc_alloc_rel ctx sec base rel s
  = Returns tt
      (patched (base + r_offset rel) (checked_insn ctx sec sym rel)
               (reported (check_failures ctx sec sym rel) s)).
Proof.
  intros Hk Hsym Hb.
  unfold apply_reloc_alloc_rel, check_failures, checked_insn, hi20_target,
    got_slot_offset, displacement.
  destruct (r_type rel) eqn:Hty; try discriminate Hk;
    cbn [is_hint branch_width branch_insn];
    (erewrite bind_returns by (apply get_symbol_ok; exact Hsym));
    cbv zeta.
  1-3: erewrite bind_returns by apply check_branch_run.
  4-8: erewrite bind_returns by apply check_run.
  - now rewrite write_k16_ok.
  - now rewrite write_d5k16_ok.
  - now rewrite write_d10k16_ok.
  - now rewrite write_j20_ok.
  - destruct (has_tlsgd sym); now rewrite write_j20_ok.
  - now rewrite write_j20_ok.
  - now rewrite write_j20_ok.
  - now rewrite write_j20_ok.
Qed.

End CheckFacts.

(** ** C2: direct branches *)

Section BranchFacts.

Lemma range_failures_spec rel val lo hi e :
  In e (range_failures rel val lo hi)
  <-> e = Out_of_range rel val lo hi /\ ~ (lo <= val < hi).
Proof.
  unfold range_failures.
  destruct (Z.ltb_spec val lo), (Z.leb_spec hi val); cbn;
    intuition (try congruence; try lia).
Qed.

Lemma alignment_failures_spec rel val e :
  In e (alignment_failures rel val)
  <-> e = Unaligned rel val /\ Z.land val 3 <> 0.
Proof.
  unfold alignment_failures.
  destruct (Z.eqb_spec (Z.land val 3) 0); cbn;
    intuition (try congruence).
Qed.

Lemma no_failures rel val lo hi :
  Z.land val 3 = 0 -> lo <= val < hi ->
  alignment_failures rel val ++ range_failures rel val lo hi = [].
Proof.
  intros Ha Hr. unfold alignment_failures, range_failures.
  rewrite Ha. cbn.
  destruct (Z.ltb_spec val lo), (Z.leb_spec hi val); try lia.
  reflexivity.
Qed.

End BranchFacts.

(** Claim C2.  For a direct branch of field width [w] (16, 21 or 26) in an
    allocated section, with [d] the signed displacement [S + A - P]: the
    relocation returns; the errors it adds contain the alignment error
    exactly when [d] has a nonzero bit among its low two, and the range error
    exactly when [d] is outside [[-2^(w+1), 2^(w+1))], and nothing else; and
    when both checks pass, the state it leaves is the one where the
    instruction word went through the matching split-field writer with
    [(S + A - P) >> 2]. *)
Theorem branch_reloc_checks {ext : Collaborators} (ctx : Ctx)
    (sec : InputSection) (base : Z) (rel : ElfRel) (s : LinkState)
    (sym : Symbol) (w : Z) :
  branch_width (r_type rel) = Some w ->
  symbols s !! r_sym rel = Some sym ->
  in_bounds 4 (base + r_offset rel) (buf s) = true ->
  exists new s',
    apply_reloc_alloc_rel ctx sec base rel s = Returns tt s' /\
    errors s' = new ++ errors s /\
    (In (Unaligned rel (i64 (displacement sec sym rel))) new
     <-> Z.land (i64 (displacement sec sym rel)) 3 <> 0) /\
    (In (Out_of_range rel (i64 (displacement sec sym rel))
                      (- 2 ^ (w + 1)) (2 ^ (w + 1))) new
     <-> ~ (- 2 ^ (w + 1) <= i64 (displacement sec sym rel) < 2 ^ (w + 1))) /\
    (forall e, In e new ->
       e = Unaligned rel (i64 (displacement sec sym rel)) \/
       e = Out_of_range rel (i64 (displacement sec sym rel))
                        (- 2 ^ (w + 1)) (2 ^ (w + 1))) /\
    (Z.land (i64 (displacement sec sym rel)) 3 = 0 ->
     - 2 ^ (w + 1) <= i64 (displacement sec sym rel) < 2 ^ (w + 1) ->
     s' = patched (base + r_offset rel)
            (fun insn => branch_insn (r_type rel) insn
                           (Z.shiftr (displacement sec sym rel) 2)) s).
Proof.
  intros Hw Hsym Hb.
  assert (Hk : is_checked (r_type rel) = true).
  { destruct (r_type rel); try discriminate Hw; reflexivity. }
  pose proof (checked_reloc_run ctx sec base rel s sym Hk Hsym Hb) as Hrun.
  assert (Hf : check_failures ctx sec sym rel =
               alignment_failures rel (i64 (displacement sec sym rel))
               ++ range_failures rel (i64 (displacement sec sym rel))
                    (- 2 ^ (w + 1)) (2 ^ (w + 1))).
  { unfold check_failures. now rewrite Hw. }
  assert (Hi : checked_insn ctx sec sym rel =
               fun insn => branch_insn (r_type rel) insn
                             (Z.shiftr (displacement sec sym rel) 2)).
  { unfold checked_insn. now rewrite Hw. }
  rewrite Hf, Hi in Hrun. clear Hf Hi.
  set (d := i64 (displacement sec sym rel)) in *.
  eexists (rev _), _. split; [exact Hrun|].
  split; [reflexivity|].
  repeat split.
  - intros Hin. apply in_rev, in_app_or in Hin as [Hin|Hin].
    + now apply alignment_failures_spec in Hin.
    + apply range_failures_spec in Hin as [Hin _]. discriminate Hin.
  - intros Hd. apply in_rev. rewrite rev_involutive. apply in_or_app. left.
    now apply alignment_failures_spec.
  - intros Hin. apply in_rev, in_app_or in Hin as [Hin|Hin].
    + apply alignment_failures_spec in Hin as [Hin _]. discriminate Hin.
    + now apply range_failures_spec in Hin.
  - intros Hd. apply in_rev. rewrite rev_involutive. apply in_or_app. right.
    now apply range_failures_spec.
  - intros e Hin. apply in_rev, in_app_or in Hin as [Hin|Hin].
    + left. now apply alignment_failures_spec in Hin.
    + right. now apply range_failures_spec in Hin.
  - intros Ha Hr. rewrite no_failures by assumption.
    now rewrite reported_nil.
Qed.

Lemma branch_reloc_checks_witness :
  exists new s',
    apply_reloc_alloc_rel (ext := Examples.quiet) Examples.ctx64 Examples.text
      0 (mkRel 0 R_LARCH_B16 0 0)
      (Examples.image Examples.ones4 [Examples.sym_at 0x1040])
    = Returns tt s' /\
    errors s' = new ++ [] /\
    (Z.land (i64 (displacement Examples.text (Examples.sym_at 0x1040)
                               (mkRel 0 R_LARCH_B16 0 0))) 3 = 0 ->
     - 2 ^ (16 + 1)
       <= i64 (displacement Examples.text (Examples.sym_at 0x1040)
                            (mkRel 0 R_LARCH_B16 0 0)) < 2 ^ (16 + 1) ->
     s' = patched 0
            (fun insn => insn_k16 insn
               (Z.shiftr (displacement Examples.text (Examples.sym_at 0x1040)
                                       (mkRel 0 R_LARCH_B16 0 0)) 2))
            (Examples.image Examples.ones4 [Examples.sym_at 0x1040])).
Proof.
  destruct (branch_reloc_checks (ext := Examples.quiet) Examples.ctx64
              Examples.text 0 (mkRel 0 R_LARCH_B16 0 0)
              (Examples.image Examples.ones4 [Examples.sym_at 0x1040])
              (Examples.sym_at 0x1040) 16 eq_refl eq_refl eq_refl)
    as (new & s' & Hrun & Herr & _ & _ & _ & Hok).
  exists new, s'. repeat split; assumption.
Defined.

(** ** C4: a failed check does not stop the relocation *)

(** Claim C4, as stated, fails.  A 16-bit branch whose displacement is 3
    is reported as unaligned, yet the instruction word at the patch site is
    rewritten: its immediate field is overwritten with [3 >> 2]. *)
Lemma unaligned_branch_is_still_encoded :
  apply_reloc_alloc_rel (ext := Examples.quiet) Examples.ctx64 Examples.text
    0 (mkRel 0 R_LARCH_B16 0 0)
    (Examples.image Examples.ones4 [Examples.sym_at 0x1003])
  = Returns tt
      (mkState [Byte.xff; Byte.x03; Byte.x00; Byte.xfc]
               [Unaligned (mkRel 0 R_LARCH_B16 0 0) 3]
               [Examples.sym_at 0x1003] 0 0 None)
  /\ [Byte.xff; Byte.x03; Byte.x00; Byte.xfc] <> Examples.ones4.
Proof. split; [vm_compute; reflexivity | discriminate]. Qed.

(** Claim C4, amended.  When a check of a relocation in an allocated
    section fails, the error is recorded and the relocation is carried out
    all the same: the instruction word at the patch site receives the
    encoding of the value, cut to the field; the relocations that follow in
    the section are then processed from that state. *)
Theorem failed_check_is_reported_and_encoded {ext : Collaborators}
    (ctx : Ctx) (sec : InputSection) (base : Z) (rel : ElfRel)
    (rels : list ElfRel) (s : LinkState) (sym : Symbol) :
  is_checked (r_type rel) = true ->
  symbols s !! r_sym rel = Some sym ->
  in_bounds 4 (base + r_offset rel) (buf s) = true ->
  check_failures ctx sec sym rel <> [] ->
  exists s',
    apply_reloc_alloc_rel ctx sec base rel s = Returns tt s' /\
    errors s' = rev (check_failures ctx sec sym rel) ++ errors s /\
    errors s' <> errors s /\
    buf s' = update 4 (base + r_offset rel)
               (checked_insn ctx sec sym rel
                  (word_at 4 (base + r_offset rel) (buf s)))
               (buf s) /\
    for_each (apply_reloc_alloc_rel ctx sec base) (rel :: rels) s
    = for_each (apply_reloc_alloc_rel ctx sec base) rels s'.
Proof.
  intros Hk Hsym Hb Hfail.
  pose proof (checked_reloc_run ctx sec base rel s sym Hk Hsym Hb) as Hrun.
  eexists. split; [exact Hrun|].
  split; [reflexivity|].
  split.
  - cbn [errors patched set_buf reported set_errors].
    intros Heq.
    apply (f_equal (@length Diag)) in Heq.
    rewrite length_app, length_rev in Heq.
    destruct (check_failures ctx sec sym rel); [congruence|].
    cbn [length] in Heq. lia.
  - split; [reflexivity|].
    cbn [for_each]. now rewrite (bind_returns _ _ _ _ _ Hrun).
Qed.

Lemma failed_check_is_reported_and_encoded_witness :
  exists s',
    apply_reloc_alloc_rel (ext := Examples.quiet) Examples.ctx64 Examples.text
      0 (mkRel 0 R_LARCH_B16 0 0)
      (Examples.image Examples.ones4 [Examples.sym_at 0x1003])
    = Returns tt s' /\
    errors s' = [Unaligned (mkRel 0 R_LARCH_B16 0 0) 3] /\
    buf s' = [Byte.xff; Byte.x03; Byte.x00; Byte.xfc].
Proof.
  destruct (failed_check_is_reported_and_encoded (ext := Examples.quiet)
              Examples.ctx64 Examples.text 0 (mkRel 0 R_LARCH_B16 0 0) []
              (Examples.image Examples.ones4 [Examples.sym_at 0x1003])
              (Examples.sym_at 0x1003) eq_refl eq_refl eq_refl
              ltac:(vm_compute; discriminate))
    as (s' & Hrun & Herr & _ & Hbuf & _).
  exists s'. split; [exact Hrun|]. split.
  - rewrite Herr. vm_compute. reflexivity.
  - rewrite Hbuf. vm_compute. reflexivity.
Defined.

(** ** Instruction words inside a copied template *)

Section TemplateFacts.

Implicit Types (b bs l r : list byte) (ws : list Z) (k loc v : Z) (n i : nat).

Lemma slice_app_shift n k l r :
  0 <= k -> slice n (Z.of_nat (length l) + k) (l ++ r) = slice n k r.
Proof.
  intros Hk. unfold slice.
  replace (Z.to_nat (Z.of_nat (length l) + k))
    with (length l + Z.to_nat k)%nat by lia.
  now rewrite drop_app_add.
Qed.

Lemma splice_app_shift k bs l r :
  0 <= k ->
  splice (Z.of_nat (length l) + k) bs (l ++ r) = l ++ splice k bs r.
Proof.
  intros Hk. unfold splice.
  replace (Z.to_nat (Z.of_nat (length l) + k))
    with (length l + Z.to_nat k)%nat by lia.
  rewrite take_app_add, <- app_assoc, <- Nat.add_assoc, drop_app_add.
  reflexivity.
Qed.

Lemma slice_app_inner n k l r :
  (Z.to_nat k + n <= length l)%nat -> slice n k (l ++ r) = slice n k l.
Proof.
  intros Hk. unfold slice.
  rewrite drop_app_le by lia.
  rewrite take_app_le by (rewrite length_drop; lia).
  reflexivity.
Qed.

Lemma splice_app_inner k bs l r :
  (Z.to_nat k + length bs <= length l)%nat ->
  splice k bs (l ++ r) = splice k bs l ++ r.
Proof.
  intros Hk. unfold splice.
  rewrite take_app_le, drop_app_le by lia.
  now rewrite <- !app_assoc.
Qed.

Lemma length_ul32s ws : length (ul32s ws) = (4 * length ws)%nat.
Proof.
  unfold ul32s. induction ws as [|w ws IH]; [reflexivity|].
  cbn [flat_map length]. rewrite length_app, length_le_split, IH. lia.
Qed.

Lemma ul32s_cons w ws : ul32s (w :: ws) = le_split 4 w ++ ul32s ws.
Proof. reflexivity. Qed.

(** The [i]-th word of a little-endian image of [ws]. *)
Lemma word_at_ul32s ws i w :
  ws !! i = Some w ->
  word_at 4 (4 * Z.of_nat i) (ul32s ws) = w mod 2 ^ 32.
Proof.
  revert i. induction ws as [|w0 ws IH]; intros [|i] Hw; try discriminate.
  - injection Hw as ->. rewrite ul32s_cons. unfold word_at.
    rewrite slice_app_inner by (rewrite length_le_split; lia).
    unfold slice. change (Z.to_nat (4 * Z.of_nat 0)) with 0%nat.
    rewrite drop_0, take_ge by (rewrite length_le_split; lia).
    apply le_combine_split.
  - cbn in Hw. rewrite ul32s_cons. unfold word_at.
    replace (4 * Z.of_nat (S i))
      with (Z.of_nat (length (le_split 4 w0)) + 4 * Z.of_nat i)
      by (rewrite length_le_split; lia).
    rewrite slice_app_shift by lia.
    now apply IH.
Qed.

(** Storing a word in the image is replacing it in the list. *)
Lemma update_ul32s ws i w v :
  ws !! i = Some w ->
  update 4 (4 * Z.of_nat i) v (ul32s ws) = ul32s (<[i := v]> ws).
Proof.
  revert i. induction ws as [|w0 ws IH]; intros [|i] Hw; try discriminate.
  - cbn [insert list_insert]. rewrite !ul32s_cons. unfold update.
    rewrite splice_app_inner by (rewrite !length_le_split; lia).
    f_equal.
  - cbn in Hw. cbn [insert list_insert]. rewrite !ul32s_cons.
    unfold update.
    replace (4 * Z.of_nat (S i))
      with (Z.of_nat (length (le_split 4 w0)) + 4 * Z.of_nat i)
      by (rewrite length_le_split; lia).
    rewrite splice_app_shift by lia. f_equal.
    now apply IH.
Qed.

(** The same two facts for an image lying at [loc] in a buffer. *)
Lemma word_at_spliced loc ws b i w :
  0 <= loc -> (Z.to_nat loc <= length b)%nat ->
  ws !! i = Some w ->
  word_at 4 (loc + 4 * Z.of_nat i) (splice loc (ul32s ws) b) = w mod 2 ^ 32.
Proof.
  intros Hl Hb Hw.
  apply lookup_lt_Some in Hw as Hi.
  rewrite <- (word_at_ul32s ws i w Hw).
  unfold word_at, splice. f_equal.
  replace (loc + 4 * Z.of_nat i)
    with (Z.of_nat (length (take (Z.to_nat loc) b)) + 4 * Z.of_nat i)
    by (rewrite length_take; lia).
  rewrite slice_app_shift by lia.
  apply slice_app_inner. rewrite length_ul32s. lia.
Qed.

Lemma update_spliced loc ws b i w v :
  0 <= loc -> (Z.to_nat loc <= length b)%nat ->
  ws !! i = Some w ->
  update 4 (loc + 4 * Z.of_nat i) v (splice loc (ul32s ws) b)
  = splice loc (ul32s (<[i := v]> ws)) b.
Proof.
  intros Hl Hb Hw.
  apply lookup_lt_Some in Hw as Hi.
  rewrite <- (update_ul32s ws i w v Hw).
  unfold update at 1. unfold splice at 2.
  replace (loc + 4 * Z.of_nat i)
    with (Z.of_nat (length (take (Z.to_nat loc) b)) + 4 * Z.of_nat i)
    by (rewrite length_take; lia).
  rewrite splice_app_shift by lia.
  rewrite splice_app_inner
    by (rewrite length_ul32s, length_le_split; lia).
  fold (update 4 (4 * Z.of_nat i) v (ul32s ws)).
  unfold splice.
  rewrite length_update by (rewrite length_ul32s; lia).
  reflexivity.
Qed.

Lemma in_bounds_spliced loc ws b i :
  in_bounds (length (ul32s ws)) loc b = true ->
  (i < length ws)%nat ->
  in_bounds 4 (loc + 4 * Z.of_nat i) (splice loc (ul32s ws) b) = true.
Proof.
  intros Hb Hi. apply in_bounds_spec in Hb as [Hl Hb].
  apply in_bounds_spec. rewrite length_splice by lia.
  rewrite length_ul32s in Hb. lia.
Qed.

(** Patching the [i]-th instruction of a template copied at [loc]. *)
Lemma patched_template loc loc' ws b i w f s :
  loc' = loc + 4 * Z.of_nat i ->
  in_bounds (length (ul32s ws)) loc b = true ->
  ws !! i = Some w ->
  0 <= w < 2 ^ 32 ->
  buf s = splice loc (ul32s ws) b ->
  in_bounds 4 loc' (buf s) = true /\
  buf (patched loc' f s) = splice loc (ul32s (<[i := f w]> ws)) b.
Proof.
  intros -> Hb Hw Hr Hs.
  apply lookup_lt_Some in Hw as Hi.
  split.
  - rewrite Hs. now apply in_bounds_spliced.
  - apply in_bounds_spec in Hb as [Hl Hb].
    unfold patched. cbn [buf set_buf]. rewrite Hs.
    rewrite (word_at_spliced loc ws b i w) by (assumption || lia).
    rewrite Z.mod_small by assumption.
    apply update_spliced with (w := w); (assumption || lia).
Qed.

Lemma state_ext s s' :
  buf s = buf s' -> errors s = errors s' -> symbols s = symbols s' ->
  num_dynrel s = num_dynrel s' -> reldyn_offset s = reldyn_offset s' ->
  dynrel s = dynrel s' -> s = s'.
Proof. destruct s, s'; cbn; congruence. Qed.

Lemma memcpy_ok loc bs s :
  in_bounds (length bs) loc (buf s) = true ->
  memcpy loc bs s = Returns tt (set_buf (splice loc bs (buf s)) s).
Proof. intros Hb. unfold memcpy. now rewrite Hb. Qed.

Lemma when_error_run (c : bool) d s :
  when c (Error d) s = Returns tt (reported (if c then [d] else []) s).
Proof. destruct c; [reflexivity|]. cbn [when]. now rewrite reported_nil. Qed.

End TemplateFacts.

(** ** C3: overflow in the PLT stub generator *)

Section PltFacts.

Implicit Types (s : LinkState) (loc : Z).

(** One patch of a copied template, as a step of the generator. *)
Lemma write_j20_template loc loc' ws b i w val s (k : unit -> M unit) :
  loc' = loc + 4 * Z.of_nat i ->
  in_bounds (length (ul32s ws)) loc b = true ->
  ws !! i = Some w ->
  0 <= w < 2 ^ 32 ->
  buf s = splice loc (ul32s ws) b ->
  bind (write_j20 loc' val) k s
  = k tt (patched loc' (fun w => insn_j20 w val) s)
  /\ buf (patched loc' (fun w => insn_j20 w val) s)
     = splice loc (ul32s (<[i := insn_j20 w val]> ws)) b.
Proof.
  intros Hl Hb Hw Hr Hs.
  destruct (patched_template loc loc' ws b i w (fun w => insn_j20 w val) s
              Hl Hb Hw Hr Hs) as [Hb' Hbuf].
  split; [|exact Hbuf].
  apply bind_returns. now apply write_j20_ok.
Qed.

Lemma write_k12_template loc loc' ws b i w val s (k : unit -> M unit) :
  loc' = loc + 4 * Z.of_nat i ->
  in_bounds (length (ul32s ws)) loc b = true ->
  ws !! i = Some w ->
  0 <= w < 2 ^ 32 ->
  buf s = splice loc (ul32s ws) b ->
  bind (write_k12 loc' val) k s
  = k tt (patched loc' (fun w => insn_k12 w val) s)
  /\ buf (patched loc' (fun w => insn_k12 w val) s)
     = splice loc (ul32s (<[i := insn_k12 w val]> ws)) b.
Proof.
  intros Hl Hb Hw Hr Hs.
  destruct (patched_template loc loc' ws b i w (fun w => insn_k12 w val) s
              Hl Hb Hw Hr Hs) as [Hb' Hbuf].
  split; [|exact Hbuf].
  apply bind_returns. now apply write_k12_ok.
Qed.

(** The state after the template was copied holds its image at [loc]. *)
Ltac template_copied ws H :=
  erewrite bind_returns by (apply memcpy_ok; eassumption);
  erewrite bind_returns by apply when_error_run;
  lazymatch goal with
  | |- bind _ _ ?st = _ =>
      assert (H : buf st = splice _ (ul32s ws) _) by reflexivity
  end.

(** One more instruction of the template is patched. *)
Ltac template_step lem loc' i Hb Hprev Hnew :=
  lazymatch type of Hprev with
  | buf _ = splice ?loc (ul32s ?ws) ?b =>
      edestruct (lem loc loc' ws b i) as [-> Hnew];
      [lia | exact Hb | reflexivity | lia | exact Hprev |]
  end.

(** The last instruction is patched and the generator returns. *)
Ltac template_done loc' i Hb Hprev :=
  let Hb' := fresh "Hb" in
  let Hnew := fresh "Hbuf" in
  lazymatch type of Hprev with
  | buf _ = splice ?loc (ul32s ?ws) ?b =>
      edestruct (patched_template loc loc' ws b i) as [Hb' Hnew];
      [lia | exact Hb | reflexivity | lia | exact Hprev |];
      rewrite write_k12_ok by exact Hb';
      f_equal; apply state_ext; try reflexivity; exact Hnew
  end.

(** What the header generator does, overflow or not. *)
Lemma write_plt_header_run ctx loc s :
  in_bounds 32 loc (buf s) = true ->
  write_plt_header ctx loc s
  = Returns tt
      (set_buf (splice loc (ul32s (plt_header_words ctx)) (buf s))
         (reported (if plt_overflow (gotplt ctx) (plt ctx)
                    then [Overflow_PLT_header] else []) s)).
Proof.
  intros Hb. unfold write_plt_header, plt_header_words, plt_overflow.
  destruct (is_64 ctx).
  - template_copied insn_64 H0.
    template_step write_j20_template loc 0%nat Hb H0 H1.
    template_step write_k12_template (loc + 8) 2%nat Hb H1 H2.
    template_done (loc + 16) 4%nat Hb H2.
  - template_copied insn_32 H0.
    template_step write_j20_template loc 0%nat Hb H0 H1.
    template_step write_k12_template (loc + 8) 2%nat Hb H1 H2.
    template_done (loc + 16) 4%nat Hb H2.
Qed.

(** What the generator of a PLT entry does, overflow or not. *)
Lemma write_plt_entry_run ctx loc sym s :
  in_bounds 16 loc (buf s) = true ->
  write_plt_entry ctx loc sym s
  = Returns tt
      (set_buf
         (splice loc
            (ul32s (plt_entry_words ctx (get_gotplt_addr sym)
                                    (get_plt_addr sym)))
            (buf s))
         (reported (if plt_overflow (get_gotplt_addr sym) (get_plt_addr sym)
                    then [Overflow_PLT_entry] else []) s)).
Proof.
  intros Hb. unfold write_plt_entry, plt_entry_words, plt_overflow.
  destruct (is_64 ctx).
  - template_copied plt_entry_64 H0.
    template_step write_j20_template loc 0%nat Hb H0 H1.
    template_done (loc + 4) 1%nat Hb H1.
  - template_copied plt_entry_32 H0.
    template_step write_j20_template loc 0%nat Hb H0 H1.
    template_done (loc + 4) 1%nat Hb H1.
Qed.

(** What the generator of a PLTGOT entry does, overflow or not. *)
Lemma write_pltgot_entry_run ctx loc sym s :
  in_bounds 16 loc (buf s) = true ->
  write_pltgot_entry ctx loc sym s
  = Returns tt
      (set_buf
         (splice loc
            (ul32s (plt_entry_words ctx (get_got_addr sym)
                                    (get_plt_addr sym)))
            (buf s))
         (reported (if plt_overflow (get_got_addr sym) (get_plt_addr sym)
                    then [Overflow_PLTGOT_entry] else []) s)).
Proof.
  intros Hb. unfold write_pltgot_entry, plt_entry_words, plt_overflow.
  destruct (is_64 ctx).
  - template_copied plt_entry_64 H0.
    template_step write_j20_template loc 0%nat Hb H0 H1.
    template_done (loc + 4) 1%nat Hb H1.
  - template_copied plt_entry_32 H0.
    template_step write_j20_template loc 0%nat Hb H0 H1.
    template_done (loc + 4) 1%nat Hb H1.
Qed.

End PltFacts.

(** Claim C3, as stated, fails.  With the GOT-PLT 4 GiB above the PLT the
    header generator finds the overflow, records the error and returns: the
    link is not aborted, and the 32 bytes of the header were written. *)
Lemma plt_header_overflow_is_not_fatal :
  plt_overflow (gotplt Examples.ctx_far) (plt Examples.ctx_far) = true /\
  write_plt_header Examples.ctx_far 0 (Examples.image (Examples.zeros 32) [])
  = Returns tt (mkState (ul32s insn_64) [Overflow_PLT_header] [] 0 0 None) /\
  ul32s insn_64 <> Examples.zeros 32.
Proof.
  split; [reflexivity|]. split; [vm_compute; reflexivity|].
  vm_compute. discriminate.
Qed.

(** Claim C3, amended.  When the header, a PLT entry or a PLTGOT entry is
    generated and the slot distance plus the bias exceeds [0xffffffff], the
    overflow error is recorded and the generator returns normally: link
    generation is not aborted there.  The instruction template is in the
    output buffer, with its hi20 and lo12 fields patched from the distance
    cut to the fields, as it is when there is no overflow. *)
Theorem plt_overflow_is_recorded_after_copy (ctx : Ctx) (loc : Z)
    (sym : Symbol) (s : LinkState) :
  (plt_overflow (gotplt ctx) (plt ctx) = true ->
   in_bounds 32 loc (buf s) = true ->
   write_plt_header ctx loc s
   = Returns tt
       (set_buf (splice loc (ul32s (plt_header_words ctx)) (buf s))
          (set_errors (Overflow_PLT_header :: errors s) s))) /\
  (plt_overflow (get_gotplt_addr sym) (get_plt_addr sym) = true ->
   in_bounds 16 loc (buf s) = true ->
   write_plt_entry ctx loc sym s
   = Returns tt
       (set_buf
          (splice loc
             (ul32s (plt_entry_words ctx (get_gotplt_addr sym)
                                     (get_plt_addr sym)))
             (buf s))
          (set_errors (Overflow_PLT_entry :: errors s) s))) /\
  (plt_overflow (get_got_addr sym) (get_plt_addr sym) = true ->
   in_bounds 16 loc (buf s) = true ->
   write_pltgot_entry ctx loc sym s
   = Returns tt
       (set_buf
          (splice loc
             (ul32s (plt_entry_words ctx (get_got_addr sym)
                                     (get_plt_addr sym)))
             (buf s))
          (set_errors (Overflow_PLTGOT_entry :: errors s) s))).
Proof.
  repeat split; intros Hov Hb.
  - rewrite write_plt_header_run by exact Hb. now rewrite Hov.
  - rewrite write_plt_entry_run by exact Hb. now rewrite Hov.
  - rewrite write_pltgot_entry_run by exact Hb. now rewrite Hov.
Qed.

Lemma plt_overflow_is_recorded_after_copy_witness :
  write_plt_header Examples.ctx_far 4 (Examples.image (Examples.zeros 40) [])
  = Returns tt
      (mkState (splice 4 (ul32s (plt_header_words Examples.ctx_far))
                       (Examples.zeros 40))
               [Overflow_PLT_header] [] 0 0 None) /\
  write_plt_entry Examples.ctx_far 4 Examples.sym_far
    (Examples.image (Examples.zeros 40) [])
  = Returns tt
      (mkState (splice 4 (ul32s (plt_entry_words Examples.ctx_far
                                   0x100030000 0x10020))
                       (Examples.zeros 40))
               [Overflow_PLT_entry] [] 0 0 None) /\
  write_pltgot_entry Examples.ctx_far 4 Examples.sym_far
    (Examples.image (Examples.zeros 40) [])
  = Returns tt
      (mkState (splice 4 (ul32s (plt_entry_words Examples.ctx_far
                                   0x100020000 0x10020))
                       (Examples.zeros 40))
               [Overflow_PLTGOT_entry] [] 0 0 None).
Proof.
  destruct (plt_overflow_is_recorded_after_copy Examples.ctx_far 4
              Examples.sym_far (Examples.image (Examples.zeros 40) []))
    as (Hh & He & Hg).
  split; [|split].
  - apply Hh; reflexivity.
  - apply He; reflexivity.
  - apply Hg; reflexivity.
Defined.

(** ** C10: [R_NONE] is skipped by every pass *)

(** Claim C10.  A relocation of kind [R_NONE] is a no-op in the requirement
    scanner, in the applier for allocated sections, in the applier for
    non-allocated sections and in the unwind applier: each returns with the
    link state it was given, so the buffer, the symbol flags and the list of
    errors are unchanged, and each loop goes on with the next relocation. *)
Theorem r_none_is_skipped {ext : Collaborators} (ctx : Ctx)
    (sec : InputSection) (eh : EhFrameSection) (base offset val : Z)
    (rel : ElfRel) (rels : list ElfRel) (s : LinkState) :
  r_type rel = R_NONE ->
  scan_relocations_rel ctx sec rel s = Returns tt s /\
  apply_reloc_alloc_rel ctx sec base rel s = Returns tt s /\
  apply_reloc_nonalloc_rel ctx sec base rel s = Returns tt s /\
  apply_eh_reloc ctx eh rel offset val s = Returns tt s /\
  for_each (scan_relocations_rel ctx sec) (rel :: rels) s
  = for_each (scan_relocations_rel ctx sec) rels s /\
  for_each (apply_reloc_alloc_rel ctx sec base) (rel :: rels) s
  = for_each (apply_reloc_alloc_rel ctx sec base) rels s /\
  for_each (apply_reloc_nonalloc_rel ctx sec base) (rel :: rels) s
  = for_each (apply_reloc_nonalloc_rel ctx sec base) rels s.
Proof.
  intros Hty.
  assert (Hscan : scan_relocations_rel ctx sec rel s = Returns tt s).
  { unfold scan_relocations_rel. now rewrite Hty. }
  assert (Halloc : apply_reloc_alloc_rel ctx sec base rel s = Returns tt s).
  { unfold apply_reloc_alloc_rel. now rewrite Hty. }
  assert (Hnon : apply_reloc_nonalloc_rel ctx sec base rel s = Returns tt s).
  { unfold apply_reloc_nonalloc_rel. now rewrite Hty. }
  assert (Heh : apply_eh_reloc ctx eh rel offset val s = Returns tt s).
  { unfold apply_eh_reloc. now rewrite Hty. }
  split; [exact Hscan|]. split; [exact Halloc|]. split; [exact Hnon|].
  split; [exact Heh|].
  cbn [for_each].
  split; [|split].
  - now rewrite (bind_returns _ _ _ _ _ Hscan).
  - now rewrite (bind_returns _ _ _ _ _ Halloc).
  - now rewrite (bind_returns _ _ _ _ _ Hnon).
Qed.

Lemma r_none_is_skipped_witness :
  scan_relocations_rel (ext := Examples.quiet) Examples.ctx64 Examples.text
    (mkRel 0 R_NONE 7 0) (Examples.image Examples.ones4 [])
  = Returns tt (Examples.image Examples.ones4 []) /\
  apply_reloc_alloc_rel (ext := Examples.quiet) Examples.ctx64 Examples.text
    0 (mkRel 0 R_NONE 7 0) (Examples.image Examples.ones4 [])
  = Returns tt (Examples.image Examples.ones4 []) /\
  apply_reloc_nonalloc_rel (ext := Examples.quiet) Examples.ctx64
    Examples.text 0 (mkRel 0 R_NONE 7 0) (Examples.image Examples.ones4 [])
  = Returns tt (Examples.image Examples.ones4 []) /\
  apply_eh_reloc Examples.ctx64 Examples.eh_frame
    (mkRel 0 R_NONE 7 0) 0 5 (Examples.image Examples.ones4 [])
  = Returns tt (Examples.image Examples.ones4 []).
Proof.
  destruct (r_none_is_skipped (ext := Examples.quiet) Examples.ctx64
              Examples.text Examples.eh_frame 0 0 5 (mkRel 0 R_NONE 7 0) []
              (Examples.image Examples.ones4 []) eq_refl)
    as (H1 & H2 & H3 & H4 & _).
  exact (conj H1 (conj H2 (conj H3 H4))).
Defined.

(** ** C7: the GOT offset of a symbol *)

(** Claim C7.  In the applier for allocated sections, a GOT-relative
    relocation is computed against [GOT + G + A], where the byte offset [G]
    is the TLS-GD slot index times the word size when the symbol has a
    TLS-GD slot, and the GOT slot index times the word size otherwise: the
    instruction word at the patch site is the encoding of that address. *)
Theorem got_offset_uses_tlsgd_slot_if_any {ext : Collaborators} (ctx : Ctx)
    (sec : InputSection) (base : Z) (rel : ElfRel) (s : LinkState)
    (sym : Symbol) :
  is_got_relative (r_type rel) = true ->
  symbols s !! r_sym rel = Some sym ->
  in_bounds 4 (base + r_offset rel) (buf s) = true ->
  exists s',
    apply_reloc_alloc_rel ctx sec base rel s = Returns tt s' /\
    buf s' =
    update 4 (base + r_offset rel)
      (got_relative_insn (r_type rel)
         (got ctx
          + (if has_tlsgd sym
             then (u64 (get_tlsgd_idx sym) * sizeof_Word ctx)%u64
             else (u64 (get_got_idx sym) * sizeof_Word ctx)%u64)
          + u64 (r_addend rel))%u64
         (sec_addr sec + r_offset rel)%u64
         (word_at 4 (base + r_offset rel) (buf s)))
      (buf s).
Proof.
  intros Hk Hsym Hb.
  unfold apply_reloc_alloc_rel.
  destruct (r_type rel) eqn:Hty; try discriminate Hk;
    cbn [is_hint got_relative_insn];
    (erewrite bind_returns by (apply get_symbol_ok; exact Hsym));
    cbv zeta.
  1: erewrite bind_returns by apply check_run.
  all: destruct (has_tlsgd sym).
  all: first [ rewrite write_j20_ok by exact Hb
             | rewrite write_k12_ok by exact Hb ].
  all: eexists; split; reflexivity.
Qed.

Lemma got_offset_uses_tlsgd_slot_if_any_witness :
  exists s',
    apply_reloc_alloc_rel (ext := Examples.quiet) Examples.ctx64 Examples.text
      0 (mkRel 0 R_LARCH_GOT_LO12 0 0)
      (Examples.image Examples.ones4 [Examples.sym_tlsgd])
    = Returns tt s' /\
    buf s' = update 4 0 (insn_k12 0xffffffff (0x20000 + 5 * 8))
                    Examples.ones4.
Proof.
  destruct (got_offset_uses_tlsgd_slot_if_any (ext := Examples.quiet)
              Examples.ctx64 Examples.text 0 (mkRel 0 R_LARCH_GOT_LO12 0 0)
              (Examples.image Examples.ones4 [Examples.sym_tlsgd])
              Examples.sym_tlsgd eq_refl eq_refl eq_refl)
    as (s' & Hrun & Hbuf).
  exists s'. split; [exact Hrun|]. rewrite Hbuf. reflexivity.
Defined.

(** ** C8: ADD then SUB restores the bytes *)

Section AccumulateFacts.

Implicit Types (s : LinkState) (loc v b x : Z) (n : nat).

Lemma mod_pow2_of_u64 k x : 0 <= k <= 64 -> (u64 x) mod 2 ^ k = x mod 2 ^ k.
Proof.
  intros Hk. unfold u64, wrap. apply Z.mod_mod_divide.
  exists (2 ^ (64 - k)). rewrite <- Z.pow_add_r by lia. f_equal. lia.
Qed.

Lemma set_buf_same s : set_buf (buf s) s = s.
Proof. now destruct s. Qed.

Lemma load_then_store n loc (f : Z -> Z) s :
  in_bounds n loc (buf s) = true ->
  (w <- load n loc ;; store n loc (f w)) s
  = Returns tt (set_buf (update n loc (f (word_at n loc (buf s))) (buf s)) s).
Proof.
  intros Hb. erewrite bind_returns by now apply load_ok.
  now apply store_ok.
Qed.

(** Two read-modify-write steps at one place, the second undoing the
    first modulo the width of the field, leave the state as it was. *)
Lemma modify_then_undo n loc (f g : Z -> Z) s :
  in_bounds n loc (buf s) = true ->
  (forall w, 0 <= w < 2 ^ (Z.of_nat n * 8) ->
     g ((f w) mod 2 ^ (Z.of_nat n * 8)) mod 2 ^ (Z.of_nat n * 8) = w) ->
  exists buf1,
    (w <- load n loc ;; store n loc (f w)) s = Returns tt (set_buf buf1 s) /\
    (w <- load n loc ;; store n loc (g w)) (set_buf buf1 s) = Returns tt s.
Proof.
  intros Hb Hfg. eexists. split; [now apply load_then_store|].
  rewrite load_then_store by (cbn [buf set_buf]; now rewrite in_bounds_update).
  f_equal. apply state_ext; try reflexivity.
  cbn [buf set_buf].
  rewrite update_update, word_at_update by assumption.
  rewrite <- update_mod, Hfg by apply word_at_range.
  now apply update_word_at.
Qed.

Lemma add_then_sub_mod k w v :
  0 <= k <= 64 -> 0 <= w < 2 ^ k ->
  (u64 ((u64 (w + v)) mod 2 ^ k - v)) mod 2 ^ k = w.
Proof.
  intros Hk Hw.
  rewrite !mod_pow2_of_u64 by assumption.
  rewrite Zminus_mod_idemp_l.
  replace (w + v - v) with w by lia.
  now apply Z.mod_small.
Qed.

Lemma add_assign_then_sub_assign n loc v s :
  (n <= 8)%nat ->
  in_bounds n loc (buf s) = true ->
  exists buf1,
    add_assign n loc v s = Returns tt (set_buf buf1 s) /\
    sub_assign n loc v (set_buf buf1 s) = Returns tt s.
Proof.
  intros Hn Hb. unfold add_assign, sub_assign.
  apply (modify_then_undo n loc (fun w => (w + v)%u64) (fun w => (w - v)%u64));
    [assumption|].
  intros w Hw. unfold add64, sub64.
  apply add_then_sub_mod; [lia | assumption].
Qed.

(** The 6-bit field. *)
Lemma six_range b x : 0 <= six b x < 2 ^ 8.
Proof.
  unfold six.
  assert (H1 : 0 <= Z.land b 0xc0 < 2 ^ 8).
  { change 0xc0 with (Z.land 0xc0 (Z.ones 8)).
    rewrite Z.land_assoc, Z.land_ones by lia.
    apply Z.mod_pos_bound. lia. }
  assert (H2 : 0 <= Z.land x 0x3f < 2 ^ 8).
  { change 0x3f with (Z.land 0x3f (Z.ones 8)).
    rewrite Z.land_assoc, Z.land_ones by lia.
    apply Z.mod_pos_bound. lia. }
  split.
  - apply Z.lor_nonneg. lia.
  - destruct (Z.eq_dec (Z.lor (Z.land b 0xc0) (Z.land x 0x3f)) 0) as [->|Hnz];
      [lia|].
    apply Z.log2_lt_pow2.
    + assert (0 <= Z.lor (Z.land b 0xc0) (Z.land x 0x3f))
        by (apply Z.lor_nonneg; lia). lia.
    + rewrite Z.log2_lor by lia.
      apply Z.max_lub_lt.
      * destruct (Z.eq_dec (Z.land b 0xc0) 0) as [->|]; [cbn; lia|].
        apply Z.log2_lt_pow2; lia.
      * destruct (Z.eq_dec (Z.land x 0x3f) 0) as [->|]; [cbn; lia|].
        apply Z.log2_lt_pow2; lia.
Qed.

Lemma six_top_bits b x : Z.land (six b x) 0xc0 = Z.land b 0xc0.
Proof.
  unfold six.
  change 0xc0 with (Z.shiftl (Z.ones 2) 6). change 0x3f with (Z.ones 6).
  Z.bitblast.
Qed.

Lemma six_low_bits b x : (six b x) mod 2 ^ 6 = x mod 2 ^ 6.
Proof.
  unfold six. rewrite <- !Z.land_ones by lia.
  change 0xc0 with (Z.shiftl (Z.ones 2) 6). change 0x3f with (Z.ones 6).
  Z.bitblast.
Qed.

Lemma six_same b x :
  0 <= b < 2 ^ 8 -> x mod 2 ^ 6 = b mod 2 ^ 6 -> six b x = b.
Proof.
  intros Hb Hx. unfold six.
  change 0x3f with (Z.ones 6). rewrite Z.land_ones, Hx, <- Z.land_ones by lia.
  rewrite <- (Z.mod_small b (2 ^ 8)) at 3 by assumption.
  rewrite <- (Z.land_ones b 8) by lia.
  change 0xc0 with (Z.shiftl (Z.ones 2) 6).
  Z.bitblast.
Qed.

Lemma six_restore w x y :
  0 <= w < 2 ^ 8 -> y mod 2 ^ 6 = w mod 2 ^ 6 -> six (six w x) y = w.
Proof.
  intros Hw Hy. unfold six at 1. rewrite six_top_bits.
  now apply six_same.
Qed.

(** ADD6 then SUB6, for the value [v] added to and taken from the byte. *)
Lemma add6_then_sub6 loc v (f g : Z -> Z) s :
  in_bounds 1 loc (buf s) = true ->
  (forall b, (f b) mod 2 ^ 6 = (b + v) mod 2 ^ 6) ->
  (forall b, (g b) mod 2 ^ 6 = (b - v) mod 2 ^ 6) ->
  exists buf1,
    (b <- load 1 loc ;; store 1 loc (six b (f b))) s
    = Returns tt (set_buf buf1 s) /\
    (b <- load 1 loc ;; store 1 loc (six b (g b))) (set_buf buf1 s)
    = Returns tt s /\
    Z.land (word_at 1 loc buf1) 0xc0 = Z.land (word_at 1 loc (buf s)) 0xc0.
Proof.
  intros Hb Hf Hg.
  destruct (modify_then_undo 1 loc (fun b => six b (f b))
              (fun b => six b (g b)) s Hb) as (buf1 & H1 & H2).
  - intros w Hw. change (Z.of_nat 1 * 8) with 8 in *.
    rewrite !(Z.mod_small (six _ _)) by apply six_range.
    apply six_restore; [assumption|].
    rewrite Hg.
    rewrite <- Zminus_mod_idemp_l, six_low_bits, Hf, Zminus_mod_idemp_l.
    f_equal. lia.
  - exists buf1. split; [exact H1|]. split; [exact H2|].
    rewrite load_then_store in H1 by assumption.
    injection H1 as <-.
    rewrite word_at_update by assumption.
    change (Z.of_nat 1 * 8) with 8.
    rewrite Z.mod_small by apply six_range.
    apply six_top_bits.
Qed.

(** One 6-bit step keeps the top two bits, whatever it accumulates. *)
Lemma six_step_keeps_top_bits loc (f : Z -> Z) s :
  in_bounds 1 loc (buf s) = true ->
  exists buf1,
    (b <- load 1 loc ;; store 1 loc (six b (f b))) s
    = Returns tt (set_buf buf1 s) /\
    Z.land (word_at 1 loc buf1) 0xc0 = Z.land (word_at 1 loc (buf s)) 0xc0.
Proof.
  intros Hb. eexists. split; [now apply load_then_store|].
  rewrite word_at_update by assumption.
  change (Z.of_nat 1 * 8) with 8.
  rewrite Z.mod_small by apply six_range.
  apply six_top_bits.
Qed.

End AccumulateFacts.

Section AccumulateKinds.

Context {ext : Collaborators}.

Lemma accumulate_kinds_cases w tadd tsub n :
  accumulate_kinds w = Some (tadd, tsub, n) ->
  (w = 6 /\ tadd = R_LARCH_ADD6 /\ tsub = R_LARCH_SUB6 /\ n = 1%nat) \/
  (w <> 6 /\ (n <= 8)%nat /\
   ((tadd = R_LARCH_ADD8 /\ tsub = R_LARCH_SUB8 /\ n = 1%nat) \/
    (tadd = R_LARCH_ADD16 /\ tsub = R_LARCH_SUB16 /\ n = 2%nat) \/
    (tadd = R_LARCH_ADD32 /\ tsub = R_LARCH_SUB32 /\ n = 4%nat) \/
    (tadd = R_LARCH_ADD64 /\ tsub = R_LARCH_SUB64 /\ n = 8%nat))).
Proof.
  unfold accumulate_kinds. intros Hk.
  destruct (Z.eqb_spec w 6);
    [injection Hk as <- <- <-; left; auto|].
  right. split; [assumption|].
  destruct (Z.eqb_spec w 8); [injection Hk as <- <- <-; intuition lia|].
  destruct (Z.eqb_spec w 16); [injection Hk as <- <- <-; intuition lia|].
  destruct (Z.eqb_spec w 32); [injection Hk as <- <- <-; intuition lia|].
  destruct (Z.eqb_spec w 64); [injection Hk as <- <- <-; intuition lia|].
  discriminate.
Qed.

Lemma mod6_of_u64 x : (u64 x) mod 2 ^ 6 = x mod 2 ^ 6.
Proof. apply mod_pow2_of_u64. lia. Qed.

Lemma add2_mod6 b S A : ((b + S + A)%u64) mod 2 ^ 6 = (b + (S + A)) mod 2 ^ 6.
Proof.
  unfold add64. rewrite mod6_of_u64.
  rewrite <- Zplus_mod_idemp_l, mod6_of_u64, Zplus_mod_idemp_l.
  f_equal. lia.
Qed.

Lemma sub2_mod6 b S A : ((b - S - A)%u64) mod 2 ^ 6 = (b - (S + A)) mod 2 ^ 6.
Proof.
  unfold sub64. rewrite mod6_of_u64.
  rewrite <- Zminus_mod_idemp_l, mod6_of_u64, Zminus_mod_idemp_l.
  f_equal. lia.
Qed.

Lemma add1_mod6 b v : ((b + v)%u64) mod 2 ^ 6 = (b + v) mod 2 ^ 6.
Proof. apply mod6_of_u64. Qed.

Lemma sub1_mod6 b v : ((b - v)%u64) mod 2 ^ 6 = (b - v) mod 2 ^ 6.
Proof. apply mod6_of_u64. Qed.

(** The pair ADD/SUB in the applier for allocated sections. *)
Lemma alloc_add_then_sub ctx sec base off i addend sym s w tadd tsub n :
  accumulate_kinds w = Some (tadd, tsub, n) ->
  symbols s !! i = Some sym ->
  in_bounds n (base + off) (buf s) = true ->
  exists buf1,
    apply_reloc_alloc_rel ctx sec base (mkRel off tadd i addend) s
    = Returns tt (set_buf buf1 s) /\
    apply_reloc_alloc_rel ctx sec base (mkRel off tsub i addend)
      (set_buf buf1 s)
    = Returns tt s /\
    (w = 6 ->
     Z.land (word_at 1 (base + off) buf1) 0xc0
     = Z.land (word_at 1 (base + off) (buf s)) 0xc0).
Proof.
  intros Hk Hsym Hb.
  apply accumulate_kinds_cases in Hk
    as [(-> & -> & -> & ->) | (Hw & Hn & Hk)].
  - unfold apply_reloc_alloc_rel. cbn [r_type r_sym r_offset r_addend is_hint].
    destruct (add6_then_sub6 (base + off)
                (get_addr sym + u64 addend)
                (fun b => (b + get_addr sym + u64 addend)%u64)
                (fun b => (b - get_addr sym - u64 addend)%u64) s Hb)
      as (buf1 & H1 & H2 & H3).
    + intros b. apply add2_mod6.
    + intros b. apply sub2_mod6.
    + exists buf1. split; [|split].
      * erewrite bind_returns by (apply get_symbol_ok; exact Hsym).
        exact H1.
      * erewrite bind_returns by (apply get_symbol_ok; exact Hsym).
        exact H2.
      * intros _. exact H3.
  - destruct (add_assign_then_sub_assign n (base + off)
                (get_addr sym + u64 addend)%u64 s Hn Hb)
      as (buf1 & H1 & H2).
    exists buf1.
    unfold apply_reloc_alloc_rel. cbn [r_type r_sym r_offset r_addend].
    destruct Hk as [(-> & -> & ->) | [(-> & -> & ->)
                   | [(-> & -> & ->) | (-> & -> & ->)]]];
      cbn [is_hint];
      (split; [|split]);
      try (erewrite bind_returns by (apply get_symbol_ok; exact Hsym);
           assumption);
      intros; contradiction.
Qed.

(** The pair ADD/SUB in the unwind applier. *)
Lemma eh_add_then_sub ctx eh off i addend offset val s w tadd tsub n :
  accumulate_kinds w = Some (tadd, tsub, n) ->
  in_bounds n (eh_sh_offset eh + offset) (buf s) = true ->
  exists buf1,
    apply_eh_reloc ctx eh (mkRel off tadd i addend) offset val s
    = Returns tt (set_buf buf1 s) /\
    apply_eh_reloc ctx eh (mkRel off tsub i addend) offset val (set_buf buf1 s)
    = Returns tt s /\
    (w = 6 ->
     Z.land (word_at 1 (eh_sh_offset eh + offset) buf1) 0xc0
     = Z.land (word_at 1 (eh_sh_offset eh + offset) (buf s)) 0xc0).
Proof.
  intros Hk Hb.
  apply accumulate_kinds_cases in Hk
    as [(-> & -> & -> & ->) | (Hw & Hn & Hk)].
  - unfold apply_eh_reloc. cbn [r_type].
    destruct (add6_then_sub6 (eh_sh_offset eh + offset) val
                (fun b => (b + val)%u64) (fun b => (b - val)%u64) s Hb)
      as (buf1 & H1 & H2 & H3).
    + intros b. apply add1_mod6.
    + intros b. apply sub1_mod6.
    + exists buf1. split; [exact H1|]. split; [exact H2|].
      intros _. exact H3.
  - destruct (add_assign_then_sub_assign n (eh_sh_offset eh + offset)
                val s Hn Hb) as (buf1 & H1 & H2).
    exists buf1.
    unfold apply_eh_reloc. cbn [r_type].
    destruct Hk as [(-> & -> & ->) | [(-> & -> & ->)
                   | [(-> & -> & ->) | (-> & -> & ->)]]];
      (split; [|split]); try assumption; intros; contradiction.
Qed.

End AccumulateKinds.

(** Claim C8.  For every width [w] among 6, 8, 16, 32 and 64, every buffer
    and every value: the ADD relocation of that width followed by the SUB
    relocation of that width with the same value leaves the link state, and
    so the bytes of the buffer, exactly as they were.  This holds in the
    applier for allocated sections, where the value is [S + A], and in the
    unwind applier, where it is [val].  For the 6-bit kinds every single
    application keeps the top two bits of the byte it changes. *)
Theorem add_then_sub_restores {ext : Collaborators} (ctx : Ctx)
    (sec : InputSection) (eh : EhFrameSection) (base off offset val addend : Z)
    (i : nat) (sym : Symbol) (s : LinkState) (w : Z) (tadd tsub : RelType)
    (n : nat) :
  accumulate_kinds w = Some (tadd, tsub, n) ->
  (symbols s !! i = Some sym ->
   in_bounds n (base + off) (buf s) = true ->
   exists s1,
     apply_reloc_alloc_rel ctx sec base (mkRel off tadd i addend) s
     = Returns tt s1 /\
     apply_reloc_alloc_rel ctx sec base (mkRel off tsub i addend) s1
     = Returns tt s) /\
  (in_bounds n (eh_sh_offset eh + offset) (buf s) = true ->
   exists s1,
     apply_eh_reloc ctx eh (mkRel off tadd i addend) offset val s
     = Returns tt s1 /\
     apply_eh_reloc ctx eh (mkRel off tsub i addend) offset val s1
     = Returns tt s) /\
  (forall t, t = R_LARCH_ADD6 \/ t = R_LARCH_SUB6 ->
   symbols s !! i = Some sym ->
   in_bounds 1 (base + off) (buf s) = true ->
   exists s1,
     apply_reloc_alloc_rel ctx sec base (mkRel off t i addend) s
     = Returns tt s1 /\
     Z.land (word_at 1 (base + off) (buf s1)) 0xc0
     = Z.land (word_at 1 (base + off) (buf s)) 0xc0) /\
  (forall t, t = R_LARCH_ADD6 \/ t = R_LARCH_SUB6 ->
   in_bounds 1 (eh_sh_offset eh + offset) (buf s) = true ->
   exists s1,
     apply_eh_reloc ctx eh (mkRel off t i addend) offset val s
     = Returns tt s1 /\
     Z.land (word_at 1 (eh_sh_offset eh + offset) (buf s1)) 0xc0
     = Z.land (word_at 1 (eh_sh_offset eh + offset) (buf s)) 0xc0).
Proof.
  intros Hk. split; [|split; [|split]].
  - intros Hsym Hb.
    destruct (alloc_add_then_sub ctx sec base off i addend sym s w tadd tsub n
                Hk Hsym Hb) as (buf1 & H1 & H2 & _).
    now exists (set_buf buf1 s).
  - intros Hb.
    destruct (eh_add_then_sub ctx eh off i addend offset val s w tadd tsub n
                Hk Hb) as (buf1 & H1 & H2 & _).
    now exists (set_buf buf1 s).
  - intros t Ht Hsym Hb.
    unfold apply_reloc_alloc_rel. cbn [r_type r_sym r_offset r_addend].
    destruct Ht as [-> | ->]; cbn [is_hint];
      (erewrite bind_returns by (apply get_symbol_ok; exact Hsym)).
    + destruct (six_step_keeps_top_bits (base + off)
                  (fun b => (b + get_addr sym + u64 addend)%u64) s Hb)
        as (buf1 & H1 & H2).
      exists (set_buf buf1 s). split; [exact H1 | exact H2].
    + destruct (six_step_keeps_top_bits (base + off)
                  (fun b => (b - get_addr sym - u64 addend)%u64) s Hb)
        as (buf1 & H1 & H2).
      exists (set_buf buf1 s). split; [exact H1 | exact H2].
  - intros t Ht Hb.
    unfold apply_eh_reloc. cbn [r_type].
    destruct Ht as [-> | ->].
    + destruct (six_step_keeps_top_bits (eh_sh_offset eh + offset)
                  (fun b => (b + val)%u64) s Hb) as (buf1 & H1 & H2).
      exists (set_buf buf1 s). split; [exact H1 | exact H2].
    + destruct (six_step_keeps_top_bits (eh_sh_offset eh + offset)
                  (fun b => (b - val)%u64) s Hb) as (buf1 & H1 & H2).
      exists (set_buf buf1 s). split; [exact H1 | exact H2].
Qed.

Lemma add_then_sub_restores_witness :
  (exists s1,
     apply_reloc_alloc_rel (ext := Examples.quiet) Examples.ctx64
       Examples.text 0 (mkRel 1 R_LARCH_ADD16 0 7)
       (Examples.image Examples.ones4 [Examples.sym_at 0x1234])
     = Returns tt s1 /\
     apply_reloc_alloc_rel (ext := Examples.quiet) Examples.ctx64
       Examples.text 0 (mkRel 1 R_LARCH_SUB16 0 7) s1
     = Returns tt (Examples.image Examples.ones4 [Examples.sym_at 0x1234])) /\
  (exists s1,
     apply_eh_reloc Examples.ctx64 Examples.eh_frame
       (mkRel 1 R_LARCH_ADD16 0 7) 2 0xabcdef
       (Examples.image Examples.ones4 [Examples.sym_at 0x1234])
     = Returns tt s1 /\
     apply_eh_reloc Examples.ctx64 Examples.eh_frame
       (mkRel 1 R_LARCH_SUB16 0 7) 2 0xabcdef s1
     = Returns tt (Examples.image Examples.ones4 [Examples.sym_at 0x1234])).
Proof.
  destruct (add_then_sub_restores (ext := Examples.quiet) Examples.ctx64
              Examples.text Examples.eh_frame 0 1 2 0xabcdef 7 0
              (Examples.sym_at 0x1234)
              (Examples.image Examples.ones4 [Examples.sym_at 0x1234])
              16 R_LARCH_ADD16 R_LARCH_SUB16 2 eq_refl)
    as (Halloc & Heh & _).
  split.
  - apply Halloc; reflexivity.
  - apply Heh; reflexivity.
Defined.

(** ** C5: tombstones in non-allocated sections *)

(** Claim C5, as stated, fails.  [R_LARCH_32] is a supported kind of the
    applier for non-allocated sections; with a symbol tombstoned to [1] it
    still stores [S + A], here [0x1234]. *)
Lemma tombstone_is_not_consulted_by_R_LARCH_32 :
  get_tombstone (Collaborators := Examples.tombstoning)
    (Examples.sym_at 0x1234) None = Some 1 /\
  apply_reloc_nonalloc_rel (ext := Examples.tombstoning) Examples.ctx64
    Examples.debug_info 0 (mkRel 0 R_LARCH_32 0 0)
    (Examples.image (Examples.zeros 4) [Examples.sym_at 0x1234])
  = Returns tt
      (Examples.image [Byte.x34; Byte.x12; Byte.x00; Byte.x00]
                      [Examples.sym_at 0x1234]) /\
  word_at 4 0 [Byte.x34; Byte.x12; Byte.x00; Byte.x00] = 0x1234.
Proof.
  split; [reflexivity|]. split; vm_compute; reflexivity.
Qed.

(** Claim C5, amended.  In the applier for non-allocated sections, for a
    relocation of kind [R_LARCH_64], [R_LARCH_TLS_DTPREL32] or
    [R_LARCH_TLS_DTPREL64] against a symbol that has an owning file and is
    tombstoned, the bytes stored at the patch site are those of the
    tombstone's value, cut to the width of the field, not those of
    [S + A]. *)
Theorem tombstone_overrides_value {ext : Collaborators} (ctx : Ctx)
    (sec : InputSection) (base : Z) (rel : ElfRel) (s : LinkState)
    (sym : Symbol) (n : nat) (v : Z) :
  tombstone_width (r_type rel) = Some n ->
  symbols s !! r_sym rel = Some sym ->
  file sym = true ->
  get_tombstone sym (fst (get_fragment ctx sec rel)) = Some v ->
  in_bounds n (base + r_offset rel) (buf s) = true ->
  exists s',
    apply_reloc_nonalloc_rel ctx sec base rel s = Returns tt s' /\
    buf s' = update n (base + r_offset rel) v (buf s) /\
    word_at n (base + r_offset rel) (buf s') = v mod 2 ^ (Z.of_nat n * 8).
Proof.
  intros Hk Hsym Hfile Htomb Hb.
  unfold apply_reloc_nonalloc_rel.
  destruct (get_fragment ctx sec rel) as [frag frag_addend].
  cbn [fst] in Htomb.
  destruct (r_type rel) eqn:Hty; try discriminate Hk;
    injection Hk as <-;
    (erewrite bind_returns by (apply get_symbol_ok; exact Hsym));
    rewrite Hfile; cbn [negb]; rewrite Htomb;
    rewrite store_ok by exact Hb;
    (eexists; split; [reflexivity|]);
    cbn [buf set_buf];
    (split; [reflexivity | now apply word_at_update]).
Qed.

Lemma tombstone_overrides_value_witness :
  exists s',
    apply_reloc_nonalloc_rel (ext := Examples.tombstoning) Examples.ctx64
      Examples.debug_info 0 (mkRel 0 R_LARCH_TLS_DTPREL32 0 0)
      (Examples.image Examples.ones4 [Examples.sym_at 0x1234])
    = Returns tt s' /\
    word_at 4 0 (buf s') = 1.
Proof.
  destruct (tombstone_overrides_value (ext := Examples.tombstoning)
              Examples.ctx64 Examples.debug_info 0
              (mkRel 0 R_LARCH_TLS_DTPREL32 0 0)
              (Examples.image Examples.ones4 [Examples.sym_at 0x1234])
              (Examples.sym_at 0x1234) 4 1
              eq_refl eq_refl eq_refl eq_refl eq_refl)
    as (s' & Hrun & _ & Hword).
  exists s'. split; [exact Hrun | exact Hword].
Defined.

(** ** C6: indirect functions need a GOT slot and a PLT stub *)

Section FlagFacts.

Context {ext : Collaborators}.

Implicit Types (s : LinkState) (i : nat) (m f : Z).

Lemma land_lor_same f m : Z.land (Z.lor f m) m = m.
Proof.
  apply Z.bits_inj'. intros k _.
  rewrite Z.land_spec, Z.lor_spec.
  destruct (Z.testbit f k), (Z.testbit m k); reflexivity.
Qed.

Lemma land_lor_keeps f m m' : Z.land f m = m -> Z.land (Z.lor f m') m = m.
Proof.
  intros Hf. apply Z.bits_inj'. intros k _.
  apply (f_equal (fun z => Z.testbit z k)) in Hf.
  rewrite Z.land_spec in Hf. rewrite Z.land_spec, Z.lor_spec.
  destruct (Z.testbit f k), (Z.testbit m k), (Z.testbit m' k);
    cbn in *; congruence.
Qed.

Lemma land_lor_split f a b :
  Z.land f (Z.lor a b) = Z.lor a b -> Z.land f a = a /\ Z.land f b = b.
Proof.
  intros Hf. split; apply Z.bits_inj'; intros k _;
    apply (f_equal (fun z => Z.testbit z k)) in Hf;
    rewrite Z.land_spec, Z.lor_spec in Hf; rewrite Z.land_spec;
    destruct (Z.testbit f k), (Z.testbit a k), (Z.testbit b k);
    cbn in *; congruence.
Qed.

Lemma has_flags_split s i a b :
  has_flags s i (Z.lor a b) -> has_flags s i a /\ has_flags s i b.
Proof.
  intros (sym & Hsym & Hf). apply land_lor_split in Hf as [Ha Hb].
  split; exists sym; auto.
Qed.

(** [sym.flags |= m] sets the flags of [m]. *)
Lemma or_flags_sets i m s sym :
  symbols s !! i = Some sym ->
  exists s',
    or_flags i m s = Returns tt s' /\ has_flags s' i m.
Proof.
  intros Hsym. unfold or_flags. rewrite Hsym.
  eexists. split; [reflexivity|].
  exists (set_flags (Z.lor (flags sym) m) sym). cbn [symbols set_symbols].
  split.
  - apply list_lookup_insert_eq. now apply lookup_lt_Some in Hsym.
  - cbn [flags set_flags]. apply land_lor_same.
Qed.

(** [sym.flags |= m'] keeps the flags that were set. *)
Lemma or_flags_keeps i m m' s :
  has_flags s i m ->
  exists s',
    or_flags i m' s = Returns tt s' /\ has_flags s' i m.
Proof.
  intros (sym & Hsym & Hf). unfold or_flags. rewrite Hsym.
  eexists. split; [reflexivity|].
  exists (set_flags (Z.lor (flags sym) m') sym). cbn [symbols set_symbols].
  split.
  - apply list_lookup_insert_eq. now apply lookup_lt_Some in Hsym.
  - cbn [flags set_flags]. now apply land_lor_keeps.
Qed.

(** [sym.flags |= m'] on any symbol keeps the flags that were set. *)
Lemma or_flags_keeps_any i j m m' s s' :
  has_flags s i m ->
  or_flags j m' s = Returns tt s' ->
  has_flags s' i m.
Proof.
  intros (sym & Hsym & Hf) Hrun. unfold or_flags in Hrun.
  destruct (symbols s !! j) as [symj|] eqn:Hj; [|discriminate].
  injection Hrun as <-.
  destruct (Nat.eq_dec j i) as [->|Hne].
  - rewrite Hsym in Hj. injection Hj as <-.
    exists (set_flags (Z.lor (flags sym) m') sym).
    cbn [symbols set_symbols]. split.
    + apply list_lookup_insert_eq. now apply lookup_lt_Some in Hsym.
    + cbn [flags set_flags]. now apply land_lor_keeps.
  - exists sym. cbn [symbols set_symbols]. split; [|exact Hf].
    now rewrite list_lookup_insert_ne.
Qed.

(** The scan of a relocation that reaches the symbol handling, for an
    indirect function: the relocation is scanned to the end and the mask
    [NEEDS_GOT | NEEDS_PLT] is set. *)
Lemma scan_ifunc_step ctx sec rel s s0 sym :
  scanners_set_only ctx sec ->
  (r_type rel = R_LARCH_64 -> is_64 ctx = true) ->
  is_hint (r_type rel) = false ->
  record_undef_error ctx sec rel s = (false, s0) ->
  symbols s0 !! r_sym rel = Some sym ->
  file sym = true ->
  is_ifunc sym = true ->
  exists s',
    scan_relocations_rel ctx sec rel s = Returns tt s' /\
    has_flags s' (r_sym rel) (Z.lor NEEDS_GOT NEEDS_PLT).
Proof.
  intros (Habs & Hdyn & Hpc & Htls) H64 Hhint Hundef Hsym Hfile Hifunc.
  destruct (or_flags_sets (r_sym rel) (Z.lor NEEDS_GOT NEEDS_PLT) s0 sym Hsym)
    as (s1 & Hor & Hfl).
  unfold scan_relocations_rel. rewrite Hhint. cbv iota.
  erewrite bind_returns by (unfold call_ret; now rewrite Hundef).
  cbv iota.
  erewrite bind_returns by (apply get_symbol_ok; exact Hsym).
  rewrite Hfile, Hifunc. cbn [negb when].
  erewrite bind_returns by exact Hor.
  assert (Hkeep : forall m',
            exists s', or_flags (r_sym rel) m' s1 = Returns tt s' /\
                       has_flags s' (r_sym rel) (Z.lor NEEDS_GOT NEEDS_PLT))
    by (intros; now apply or_flags_keeps).
  clear Hor Hundef Hsym.
  revert H64 Hhint.
  destruct (r_type rel); intros H64 Hhint; try discriminate Hhint;
    try (destruct (Hkeep NEEDS_GOT) as (s' & Hrun & Hfl');
         exists s'; split; [exact Hrun | assumption]);
    try (destruct (Hkeep NEEDS_GOTTP) as (s' & Hrun & Hfl');
         exists s'; split; [exact Hrun | assumption]);
    try (destruct (Hkeep NEEDS_TLSGD) as (s' & Hrun & Hfl');
         exists s'; split; [exact Hrun | assumption]);
    try (eexists; split; [reflexivity | exact Hfl]);
    try (eexists; split; [reflexivity | now apply Hpc]);
    try (eexists; split; [reflexivity | now apply Htls]).
  - destruct (is_64 ctx);
      (eexists; split; [reflexivity |]);
      [now apply Habs | now apply Hdyn].
  - rewrite (H64 eq_refl). cbn [assert].
    eexists. split; [reflexivity | now apply Hdyn].
  - destruct (is_imported sym); cbn [when].
    + destruct (Hkeep NEEDS_PLT) as (s' & Hrun & Hfl').
      exists s'. split; [exact Hrun | assumption].
    + eexists. split; [reflexivity | assumption].
Qed.

(** Scanning a relocation never clears a flag of any symbol. *)
Lemma scan_rel_keeps_flags ctx sec rel s s' i m :
  scanners_set_only ctx sec ->
  (forall r, set_only (fun s => snd (record_undef_error ctx sec r s))) ->
  has_flags s i m ->
  scan_relocations_rel ctx sec rel s = Returns tt s' ->
  has_flags s' i m.
Proof.
  intros (Habs & Hdyn & Hpc & Htls) Hrep Hfl.
  unfold scan_relocations_rel.
  destruct (is_hint (r_type rel)); [intros [= <-]; exact Hfl|].
  unfold bind at 1, call_ret at 1.
  pose proof (Hrep rel s i m Hfl) as Hfl0. cbv beta in Hfl0.
  destruct (record_undef_error ctx sec rel s) as [undef s0] eqn:Hundef.
  cbn [snd] in Hfl0.
  destruct undef; [intros [= <-]; exact Hfl0|].
  unfold bind at 1, get_symbol.
  destruct (symbols s0 !! r_sym rel) as [sym|]; [|discriminate].
  destruct (file sym); cbn [negb].
  2:{ unfold bind, call_ret.
      pose proof (Hrep rel s0 i m Hfl0) as Hfl1. cbv beta in Hfl1.
      destruct (record_undef_error ctx sec rel s0) as [u s1] eqn:Hundef1.
      cbn [snd] in Hfl1.
      intros [= <-]. exact Hfl1. }
  unfold bind at 1.
  destruct (when (is_ifunc sym)
              (or_flags (r_sym rel) (Z.lor NEEDS_GOT NEEDS_PLT)) s0)
    as [[] s1| |] eqn:Hwhen; try discriminate.
  assert (Hfl1 : has_flags s1 i m).
  { destruct (is_ifunc sym); cbn [when] in Hwhen.
    - eapply or_flags_keeps_any; eassumption.
    - injection Hwhen as <-. exact Hfl0. }
  clear Hwhen Hfl0 Hfl.
  destruct (r_type rel);
    try (intros [= <-]; exact Hfl1);
    try (intros Hrun; eapply or_flags_keeps_any; eassumption);
    try (intros [= <-]; now apply Hpc);
    try (intros [= <-]; now apply Htls).
  - destruct (is_64 ctx); intros [= <-]; [now apply Habs | now apply Hdyn].
  - destruct (is_64 ctx); cbn [assert]; [|discriminate].
    intros [= <-]. now apply Hdyn.
  - destruct (is_imported sym); cbn [when].
    + intros Hrun. eapply or_flags_keeps_any; eassumption.
    + intros [= <-]. exact Hfl1.
Qed.

(** So does the rest of the loop. *)
Lemma scan_loop_keeps_flags ctx sec rels s s' i m :
  scanners_set_only ctx sec ->
  (forall r, set_only (fun s => snd (record_undef_error ctx sec r s))) ->
  has_flags s i m ->
  for_each (scan_relocations_rel ctx sec) rels s = Returns tt s' ->
  has_flags s' i m.
Proof.
  intros Hext Hrep. revert s.
  induction rels as [|rel rels IH]; intros s Hfl; cbn [for_each].
  - intros [= <-]. exact Hfl.
  - unfold bind.
    destruct (scan_relocations_rel ctx sec rel s) as [[] s1| |] eqn:Hrel;
      try discriminate.
    apply IH. eapply scan_rel_keeps_flags; eassumption.
Qed.

(** The flags an indirect function received are still set when the scan
    of the section returns. *)
Lemma scan_pass_ifunc ctx sec rel rels s s0 sym s' :
  scanners_set_only ctx sec ->
  (forall r, set_only (fun s => snd (record_undef_error ctx sec r s))) ->
  (r_type rel = R_LARCH_64 -> is_64 ctx = true) ->
  is_hint (r_type rel) = false ->
  record_undef_error ctx sec rel s = (false, s0) ->
  symbols s0 !! r_sym rel = Some sym ->
  file sym = true ->
  is_ifunc sym = true ->
  for_each (scan_relocations_rel ctx sec) (rel :: rels) s = Returns tt s' ->
  has_flags s' (r_sym rel) NEEDS_GOT /\ has_flags s' (r_sym rel) NEEDS_PLT.
Proof.
  intros Hext Hrep H64 Hhint Hundef Hsym Hfile Hifunc Hrun.
  destruct (scan_ifunc_step ctx sec rel s s0 sym Hext H64 Hhint Hundef Hsym
              Hfile Hifunc) as (s1 & Hstep & Hfl).
  cbn [for_each] in Hrun. rewrite (bind_returns _ _ _ _ _ Hstep) in Hrun.
  apply has_flags_split.
  eapply scan_loop_keeps_flags; eassumption.
Qed.

End FlagFacts.

(** Claim C6.  Take a relocation that reaches the symbol handling of the
    requirement scanner: its kind is not one of the skipped hints, the
    undefined-symbol reporter does not claim it, and its symbol has an
    owning file.  If that symbol is an indirect function then, whatever the
    kind of the relocation, the scan of the relocation returns and leaves
    the symbol with both [NEEDS_GOT] and [NEEDS_PLT] set.  The collaborators
    that scan absolute, PC-relative and TLS Local-Exec references are
    assumed never to clear a flag, and [R_LARCH_64] is assumed to occur in
    64-bit links only, as the source asserts. *)
Theorem ifunc_needs_got_and_plt {ext : Collaborators} (ctx : Ctx)
    (sec : InputSection) (rel : ElfRel) (s s0 : LinkState) (sym : Symbol) :
  (forall i r, set_only (scan_absrel ctx sec i r)) ->
  (forall i r, set_only (scan_dyn_absrel ctx sec i r)) ->
  (forall i r, set_only (scan_pcrel ctx sec i r)) ->
  (forall i r, set_only (check_tlsle ctx sec i r)) ->
  (r_type rel = R_LARCH_64 -> is_64 ctx = true) ->
  is_hint (r_type rel) = false ->
  record_undef_error ctx sec rel s = (false, s0) ->
  symbols s0 !! r_sym rel = Some sym ->
  file sym = true ->
  is_ifunc sym = true ->
  exists s',
    scan_relocations_rel ctx sec rel s = Returns tt s' /\
    has_flags s' (r_sym rel) NEEDS_GOT /\
    has_flags s' (r_sym rel) NEEDS_PLT.
Proof.
  intros Habs Hdyn Hpc Htls H64 Hhint Hundef Hsym Hfile Hifunc.
  destruct (scan_ifunc_step ctx sec rel s s0 sym
              (conj Habs (conj Hdyn (conj Hpc Htls)))
              H64 Hhint Hundef Hsym Hfile Hifunc) as (s' & Hrun & Hfl).
  exists s'. split; [exact Hrun|]. now apply has_flags_split.
Qed.

Lemma ifunc_needs_got_and_plt_witness :
  exists s',
    scan_relocations_rel (ext := Examples.quiet) Examples.ctx64 Examples.text
      (mkRel 0 R_LARCH_ADD32 0 0)
      (Examples.image Examples.ones4 [Examples.ifunc_at 0x1234])
    = Returns tt s' /\
    has_flags s' 0 1 /\ has_flags s' 0 2.
Proof.
  apply (ifunc_needs_got_and_plt (ext := Examples.quiet) Examples.ctx64
           Examples.text (mkRel 0 R_LARCH_ADD32 0 0)
           (Examples.image Examples.ones4 [Examples.ifunc_at 0x1234])
           (Examples.image Examples.ones4 [Examples.ifunc_at 0x1234])
           (Examples.ifunc_at 0x1234));
    try reflexivity; try (intros i r s i' m Hm; exact Hm).
Defined.

(** ** The two-instruction sequence, through the instruction fields *)

Section FieldFacts.

Lemma u32_as_land x : u32 x = Z.land x (Z.ones 32).
Proof. unfold u32, wrap. symmetry. apply Z.land_ones. lia. Qed.

Lemma field_j20_insn_j20 w val :
  field_j20 (insn_j20 w val) = Z.land val 0xfffff.
Proof.
  unfold field_j20, insn_j20. rewrite !u32_as_land.
  change 0xfe00001f with (Z.lor (Z.shiftl (Z.ones 7) 25) (Z.ones 5)).
  change 0xfffff with (Z.ones 20).
  Z.bitblast.
Qed.

(** The mask of [write_k12] clears bits 10 to 19 only: bits 20 and 21 of
    the 12-bit field keep what the instruction word had there. *)
Lemma write_k12_keeps_bits_20_21 :
  insn_k12 0xffffffff 0 = 0xfff003ff /\
  field_k12 (insn_k12 0xffffffff 0) = 0xc00.
Proof. split; reflexivity. Qed.

Lemma field_k12_clear_bits w l :
  field_k12 w = 0 -> 10 <= l < 22 -> Z.testbit w l = false.
Proof.
  intros Hw Hl.
  assert (H := f_equal (fun z => Z.testbit z (l - 10)) Hw).
  cbn beta in H. unfold field_k12 in H.
  change 0xfff with (Z.ones 12) in H.
  rewrite Z.land_spec, Z.shiftr_spec, Z.bits_0, Z.ones_spec_low in H by lia.
  rewrite andb_true_r in H.
  now replace (l - 10 + 10) with l in H by lia.
Qed.

(** On an instruction word whose 12-bit field is clear, as the assembler
    and the PLT templates leave it, the field reads back the value. *)
Lemma field_k12_insn_k12 w val :
  field_k12 w = 0 ->
  field_k12 (insn_k12 w val) = Z.land val 0xfff.
Proof.
  intros Hw.
  unfold field_k12, insn_k12. rewrite !u32_as_land.
  change 0xfff003ff with (Z.lor (Z.shiftl (Z.ones 12) 20) (Z.ones 10)).
  change 0xfff with (Z.ones 12).
  Z.bitblast.
  rewrite (field_k12_clear_bits w l Hw) by lia.
  cbn [andb orb negb]. now rewrite !andb_true_r.
Qed.

Lemma sign_extend20_small v :
  - 2 ^ 19 <= v < 2 ^ 19 -> sign_extend20 (Z.land v 0xfffff) = v.
Proof.
  intros Hv. unfold sign_extend20.
  change 0xfffff with (Z.ones 20).
  rewrite !Z.land_ones by lia. rewrite Z.mod_mod by lia.
  destruct (Z.testbit (v mod 2 ^ 20) 19) eqn:Hb.
  - apply Z.testbit_true in Hb; [|lia].
    destruct (Z.neg_nonneg_cases v) as [Hneg|Hpos].
    + assert (Hm : v mod 2 ^ 20 = v + 2 ^ 20).
      { symmetry. apply Z.mod_unique with (q := -1); lia. }
      lia.
    + rewrite (Z.mod_small v) in Hb by lia.
      rewrite Z.div_small in Hb by lia. discriminate.
  - apply Z.testbit_false in Hb; [|lia].
    destruct (Z.neg_nonneg_cases v) as [Hneg|Hpos].
    + assert (Hm : v mod 2 ^ 20 = v + 2 ^ 20).
      { symmetry. apply Z.mod_unique with (q := -1); lia. }
      rewrite Hm in Hb.
      assert (Hq : (v + 2 ^ 20) / 2 ^ 19 = 1).
      { symmetry. apply Z.div_unique with (r := v + 2 ^ 19); lia. }
      rewrite Hq in Hb. discriminate.
    + apply Z.mod_small. lia.
Qed.

Lemma shiftr12_range v :
  - 2 ^ 31 <= v < 2 ^ 31 -> - 2 ^ 19 <= Z.shiftr v 12 < 2 ^ 19.
Proof.
  intros Hv. rewrite Z.shiftr_div_pow2 by lia.
  split.
  - apply Z.div_le_lower_bound; lia.
  - apply Z.div_lt_upper_bound; lia.
Qed.

(** When the range check of a PC-relative high part passes, the fields
    the two relocations leave in the instruction pair decode to the
    target. *)
Lemma materialize_from_fields pc target w_hi w_lo :
  field_k12 w_lo = 0 ->
  - 2 ^ 31 <= i64 (mid20 target pc) < 2 ^ 31 ->
  materialize pc
    (sign_extend20
       (field_j20 (insn_j20 w_hi (Z.shiftr (i64 (mid20 target pc)) 12))))
    (field_k12 (insn_k12 w_lo target))
  = u64 target.
Proof.
  intros Hlo Hr.
  rewrite field_j20_insn_j20, field_k12_insn_k12 by exact Hlo.
  rewrite sign_extend20_small by now apply shiftr12_range.
  rewrite <- (materialize_mid20 pc target).
  unfold materialize.
  rewrite !shift12_exact
    by (rewrite ?mod12_of_i64; apply mid20_low_bits).
  unfold add64. f_equal. f_equal.
  rewrite <- u64_add_r, u64_i64, u64_add_r. reflexivity.
Qed.

(** The check is on the page difference, not on the distance: just below
    [pc + 2^31] a target may round up to the next page and be refused. *)
Lemma pcala_hi20_upper_edge :
  check_failures Examples.ctx64 (mkSec [] 0 true 0)
    (Examples.sym_at 0x7fffffff) (mkRel 0 R_LARCH_PCALA_HI20 0 0)
  = [Out_of_range (mkRel 0 R_LARCH_PCALA_HI20 0 0)
                  (2 ^ 31) (- 2 ^ 31) (2 ^ 31)].
Proof. vm_compute. reflexivity. Qed.

End FieldFacts.

(** * Part III: further properties of the code *)

(** ** The address arithmetic *)

Section ArithmeticFacts.

Lemma u64_eq_of_diff a b k : a = b + 2 ^ 64 * k -> u64 a = u64 b.
Proof.
  intros ->. unfold u64, wrap.
  rewrite (Z.mul_comm (2 ^ 64) k). apply Z.mod_add. lia.
Qed.

Lemma u64_decompose x : exists k, u64 x = x + 2 ^ 64 * k.
Proof.
  exists (- (x / 2 ^ 64)). unfold u64, wrap.
  pose proof (Z.div_mod x (2 ^ 64) ltac:(lia)). lia.
Qed.

Lemma page_add_pages x d :
  d mod 2 ^ 12 = 0 -> page (x + d)%u64 = (page x + d)%u64.
Proof.
  intros Hd. unfold add64.
  rewrite <- (u64_small (page (u64 (x + d)))) by apply page_range.
  rewrite !page_decompose, u64_idem, mod12_of_u64.
  replace ((x + d) mod 2 ^ 12) with (x mod 2 ^ 12)
    by (rewrite <- Zplus_mod_idemp_r, Hd, Z.add_0_r; reflexivity).
  rewrite u64_sub_l.
  replace (u64 x - x mod 2 ^ 12 + d)
    with (u64 x + (d - x mod 2 ^ 12)) by lia.
  rewrite u64_add_l. f_equal. lia.
Qed.

End ArithmeticFacts.

(** [page] rounds a 64-bit address down to a multiple of 4096: the result
    is at most the address, less than 4096 below it, has its low 12 bits
    clear, and is a fixed point of [page]. *)
Theorem page_rounds_down (x : Z) :
  0 <= x < 2 ^ 64 ->
  page x <= x < page x + 2 ^ 12 /\
  Z.land (page x) 0xfff = 0 /\
  page (page x) = page x.
Proof.
  intros Hx. split; [|split].
  - rewrite page_decompose, u64_small by assumption.
    pose proof (Z.mod_pos_bound x (2 ^ 12) ltac:(lia)). lia.
  - rewrite land_0xfff. apply page_low_bits.
  - apply page_idempotent.
Qed.

Lemma page_rounds_down_witness :
  page 0x12345fff <= 0x12345fff < page 0x12345fff + 2 ^ 12.
Proof. apply (page_rounds_down 0x12345fff). lia. Defined.

(** [mid20] is position independent: moving the target and the place by the
    same whole number of pages, wrapping around included, leaves it
    unchanged; and it depends on the place only through its page. *)
Theorem mid20_position_independent (val pc d : Z) :
  d mod 2 ^ 12 = 0 ->
  mid20 (val + d)%u64 (pc + d)%u64 = mid20 val pc /\
  mid20 val (page pc) = mid20 val pc.
Proof.
  intros Hd. split.
  - unfold mid20.
    assert (H1 : (val + d + 0x800)%u64 = (val + 0x800 + d)%u64).
    { unfold add64. rewrite !u64_add_l. f_equal. lia. }
    rewrite H1, (page_add_pages pc d Hd), (page_add_pages _ d Hd).
    unfold sub64. unfold add64 at 1 3.
    rewrite u64_sub_l, u64_sub_r. f_equal. lia.
  - unfold mid20. now rewrite page_idempotent.
Qed.

Lemma mid20_position_independent_witness :
  mid20 (0x12345abc + 0x7000)%u64 (0x1000ffc + 0x7000)%u64
  = mid20 0x12345abc 0x1000ffc.
Proof.
  apply (mid20_position_independent 0x12345abc 0x1000ffc 0x7000).
  reflexivity.
Defined.

Section SignedFacts.

Lemma i64_eq_of_diff a b k : a = b + 2 ^ 64 * k -> i64 a = i64 b.
Proof.
  intros ->. unfold i64. f_equal.
  replace (b + 2 ^ 64 * k + 2 ^ 63) with (b + 2 ^ 63 + k * 2 ^ 64) by lia.
  apply Z.mod_add. lia.
Qed.

Lemma i64_decompose x : exists k, i64 x = x + 2 ^ 64 * k.
Proof.
  exists (- ((x + 2 ^ 63) / 2 ^ 64)). unfold i64.
  pose proof (Z.div_mod (x + 2 ^ 63) (2 ^ 64) ltac:(lia)). lia.
Qed.

Lemma i64_sub_l a b : i64 (i64 a - b) = i64 (a - b).
Proof.
  destruct (i64_decompose a) as [k Hk].
  apply i64_eq_of_diff with (k := k). lia.
Qed.

Lemma i64_sub_r a b : i64 (a - i64 b) = i64 (a - b).
Proof.
  destruct (i64_decompose b) as [k Hk].
  apply i64_eq_of_diff with (k := - k). lia.
Qed.

Lemma mod_pow2_of_i64 k x : 0 <= k <= 64 -> (i64 x) mod 2 ^ k = x mod 2 ^ k.
Proof.
  intros Hk. rewrite <- (mod_pow2_of_u64 k (i64 x)) by assumption.
  rewrite u64_i64. now apply mod_pow2_of_u64.
Qed.

Lemma land_bit11 x : Z.land x 0x800 = if Z.testbit x 11 then 2 ^ 11 else 0.
Proof.
  apply Z.bits_inj'. intros n Hn.
  rewrite Z.land_spec. change 0x800 with (2 ^ 11).
  rewrite Z.pow2_bits_eqb by lia.
  destruct (Z.eqb_spec 11 n) as [<-|Hne].
  - destruct (Z.testbit x 11); cbn [andb].
    + now rewrite Z.pow2_bits_true by lia.
    + now rewrite Z.bits_0.
  - rewrite andb_false_r.
    destruct (Z.testbit x 11).
    + rewrite Z.pow2_bits_false by lia. reflexivity.
    + now rewrite Z.bits_0.
Qed.

Lemma land_upper32 x : Z.land x (Z.lnot 0xffffffff) = 2 ^ 32 * (x / 2 ^ 32).
Proof.
  change 0xffffffff with (Z.ones 32).
  rewrite <- Z.ldiff_land, Z.ldiff_ones_r by lia.
  rewrite Z.shiftr_div_pow2, Z.shiftl_mul_pow2 by lia. lia.
Qed.

End SignedFacts.

(** [alau64_hi32] in closed form: the value, less [2^32] when its bit 11 is
    set, less the upper 32 bits of the place, as a signed 64-bit number.
    Hence its low 32 bits are those of the value: only the upper half, which
    the second pair of instructions receives, is corrected. *)
Theorem alau64_hi32_closed_form (val pc : Z) :
  alau64_hi32 val pc
  = i64 (val - 2 ^ 32 * ((if Z.testbit val 11 then 1 else 0) + pc / 2 ^ 32))
  /\ (alau64_hi32 val pc) mod 2 ^ 32 = val mod 2 ^ 32.
Proof.
  assert (Hform : alau64_hi32 val pc
                  = i64 (val - 2 ^ 32 * ((if Z.testbit val 11 then 1 else 0)
                                         + pc / 2 ^ 32))).
  { unfold alau64_hi32.
    rewrite land_bit11, land_upper32, i64_sub_l.
    f_equal. destruct (Z.testbit val 11).
    - change (i64 (Z.shiftl (2 ^ 11) 21)) with (2 ^ 32). lia.
    - change (i64 (Z.shiftl 0 21)) with 0. lia. }
  split; [exact Hform|].
  rewrite Hform, mod_pow2_of_i64 by lia.
  rewrite <- Zminus_mod_idemp_r.
  rewrite (Z.mul_comm (2 ^ 32)), Z.mod_mul by lia.
  now rewrite Z.sub_0_r.
Qed.

(** ** The immediate writers *)

Section WriterFacts.

Implicit Types (s : LinkState) (loc val w : Z).

(** The masks and fields as runs of ones, for reasoning bit by bit. *)
Ltac masks_as_ones :=
  unfold field_j20, field_k12, field_k16, field_d5k16, field_d10k16,
    insn_j20, insn_k12, insn_k16, insn_d5k16, insn_d10k16;
  rewrite ?u32_as_land;
  change 0xfe00001f with (Z.lor (Z.shiftl (Z.ones 7) 25) (Z.ones 5));
  change 0xfff003ff with (Z.lor (Z.shiftl (Z.ones 12) 20) (Z.ones 10));
  change 0xffc003ff with (Z.lor (Z.shiftl (Z.ones 10) 22) (Z.ones 10));
  change 0xfc0003e0 with (Z.lor (Z.shiftl (Z.ones 6) 26)
                                (Z.shiftl (Z.ones 5) 5));
  change 0xfc0003ff with (Z.lor (Z.shiftl (Z.ones 6) 26) (Z.ones 10));
  change 0xfc000000 with (Z.shiftl (Z.ones 6) 26);
  change 0xfffff with (Z.ones 20);
  change 0xffff with (Z.ones 16);
  change 0xfff with (Z.ones 12);
  change 0xc00 with (Z.shiftl (Z.ones 2) 10);
  change 0x3ff with (Z.ones 10);
  change 0x1f with (Z.ones 5).

Lemma insn_j20_keeps w val :
  Z.land (insn_j20 w val) 0xfe00001f = Z.land w 0xfe00001f.
Proof. masks_as_ones. Z.bitblast. Qed.

Lemma insn_k16_keeps w val :
  Z.land (insn_k16 w val) 0xfc0003ff = Z.land w 0xfc0003ff.
Proof. masks_as_ones. Z.bitblast. Qed.

Lemma insn_d5k16_keeps w val :
  Z.land (insn_d5k16 w val) 0xfc0003e0 = Z.land w 0xfc0003e0.
Proof. masks_as_ones. Z.bitblast. Qed.

Lemma insn_d10k16_keeps w val :
  Z.land (insn_d10k16 w val) 0xfc000000 = Z.land w 0xfc000000.
Proof. masks_as_ones. Z.bitblast. Qed.

Lemma insn_k12_keeps w val :
  Z.land (insn_k12 w val) 0xffc003ff = Z.land w 0xffc003ff.
Proof. masks_as_ones. Z.bitblast. Qed.

Lemma field_k16_insn_k16 w val :
  field_k16 (insn_k16 w val) = Z.land val (Z.ones 16).
Proof. masks_as_ones. Z.bitblast. Qed.

Lemma insn_d5k16_low w val :
  Z.land (Z.shiftr (insn_d5k16 w val) 10) (Z.ones 16) = Z.land val (Z.ones 16).
Proof. masks_as_ones. Z.bitblast. Qed.

Lemma insn_d5k16_high w val :
  Z.land (insn_d5k16 w val) (Z.ones 5)
  = Z.land (Z.shiftr val 16) (Z.ones 5).
Proof. masks_as_ones. Z.bitblast. Qed.

Lemma insn_d10k16_low w val :
  Z.land (Z.shiftr (insn_d10k16 w val) 10) (Z.ones 16) = Z.land val (Z.ones 16).
Proof. masks_as_ones. Z.bitblast. Qed.

Lemma insn_d10k16_high w val :
  Z.land (insn_d10k16 w val) (Z.ones 10)
  = Z.land (Z.shiftr val 16) (Z.ones 10).
Proof. masks_as_ones. Z.bitblast. Qed.

Lemma join_16 n val :
  0 <= n ->
  Z.lor (Z.shiftl (Z.land (Z.shiftr val 16) (Z.ones n)) 16)
        (Z.land val (Z.ones 16))
  = Z.land val (Z.ones (16 + n)).
Proof. intros Hn. Z.bitblast. Qed.

Lemma field_d5k16_insn_d5k16 w val :
  field_d5k16 (insn_d5k16 w val) = Z.land val (Z.ones 21).
Proof.
  unfold field_d5k16.
  change 0x1f with (Z.ones 5). change 0xffff with (Z.ones 16).
  rewrite insn_d5k16_low, insn_d5k16_high. now apply join_16.
Qed.

Lemma field_d10k16_insn_d10k16 w val :
  field_d10k16 (insn_d10k16 w val) = Z.land val (Z.ones 26).
Proof.
  unfold field_d10k16.
  change 0x3ff with (Z.ones 10). change 0xffff with (Z.ones 16).
  rewrite insn_d10k16_low, insn_d10k16_high. now apply join_16.
Qed.

Lemma field_k12_insn_k12_gen w val :
  field_k12 (insn_k12 w val)
  = Z.lor (Z.land (field_k12 w) 0xc00) (Z.land val (Z.ones 12)).
Proof. masks_as_ones. Z.bitblast. Qed.

Lemma insn_j20_twice w v1 v2 : insn_j20 (insn_j20 w v1) v2 = insn_j20 w v2.
Proof. masks_as_ones. Z.bitblast. Qed.

Lemma insn_k16_twice w v1 v2 : insn_k16 (insn_k16 w v1) v2 = insn_k16 w v2.
Proof. masks_as_ones. Z.bitblast. Qed.

Lemma insn_d5k16_twice w v1 v2 :
  insn_d5k16 (insn_d5k16 w v1) v2 = insn_d5k16 w v2.
Proof.
  unfold insn_d5k16 at 1 3. f_equal. apply insn_d5k16_keeps.
Qed.

Lemma insn_d10k16_twice w v1 v2 :
  insn_d10k16 (insn_d10k16 w v1) v2 = insn_d10k16 w v2.
Proof.
  unfold insn_d10k16 at 1 3. f_equal. apply insn_d10k16_keeps.
Qed.

(** An instruction word stays an instruction word. *)
Lemma lor_land_u32 w m v :
  0 <= w < 2 ^ 32 -> 0 <= v < 2 ^ 32 ->
  (Z.lor (Z.land w m) v) mod 2 ^ 32 = Z.lor (Z.land w m) v.
Proof.
  intros Hw Hv.
  rewrite <- (Z.mod_small w (2 ^ 32)) at 2 by assumption.
  rewrite <- (Z.mod_small v (2 ^ 32)) at 2 by assumption.
  rewrite <- !Z.land_ones by lia. Z.bitblast.
Qed.

Lemma lor_u32 a b :
  0 <= a < 2 ^ 32 -> 0 <= b < 2 ^ 32 -> 0 <= Z.lor a b < 2 ^ 32.
Proof.
  intros Ha Hb.
  assert (H : Z.lor a b = (Z.lor a b) mod 2 ^ 32).
  { rewrite <- (Z.mod_small a (2 ^ 32)) at 1 by assumption.
    rewrite <- (Z.mod_small b (2 ^ 32)) at 1 by assumption.
    rewrite <- !Z.land_ones by lia. Z.bitblast. }
  rewrite H. apply Z.mod_pos_bound. lia.
Qed.

Lemma land_ones_u32 x n : 0 <= n <= 32 -> 0 <= Z.land x (Z.ones n) < 2 ^ 32.
Proof.
  intros Hn. rewrite Z.land_ones by lia.
  pose proof (Z.mod_pos_bound x (2 ^ n) ltac:(lia)).
  assert (2 ^ n <= 2 ^ 32) by (apply Z.pow_le_mono_r; lia). lia.
Qed.

(** Reading the word a writer left. *)
Lemma word_at_patched loc (f : Z -> Z) s :
  in_bounds 4 loc (buf s) = true ->
  word_at 4 loc (buf (patched loc f s))
  = f (word_at 4 loc (buf s)) mod 2 ^ 32.
Proof.
  intros Hb. unfold patched. cbn [buf set_buf].
  now rewrite word_at_update.
Qed.

Lemma patched_patched loc (f g : Z -> Z) s :
  in_bounds 4 loc (buf s) = true ->
  patched loc g (patched loc f s)
  = patched loc (fun w => g (f w mod 2 ^ 32)) s.
Proof.
  intros Hb. unfold patched. cbn [buf set_buf].
  rewrite word_at_update, update_update by assumption.
  reflexivity.
Qed.

End WriterFacts.
(** ** The immediate writers on the buffer *)

Section WriterRuns.

Lemma lookup_splice_outside loc (bs b : list byte) (i : nat) :
  in_bounds (length bs) loc b = true ->
  Z.of_nat i < loc \/ loc + Z.of_nat (length bs) <= Z.of_nat i ->
  splice loc bs b !! i = b !! i.
Proof.
  intros Hb Hi. apply in_bounds_spec in Hb as [Hloc Hb].
  unfold splice. destruct Hi as [Hi|Hi].
  - rewrite lookup_app_l by (rewrite length_take; lia).
    apply lookup_take_lt. lia.
  - rewrite lookup_app_r by (rewrite length_take; lia).
    rewrite lookup_app_r by (rewrite length_take; lia).
    rewrite lookup_drop, length_take. f_equal. lia.
Qed.

Lemma same_outside_splice loc (bs b : list byte) :
  in_bounds (length bs) loc b = true ->
  same_outside (length bs) loc b (splice loc bs b).
Proof.
  intros Hb. split.
  - apply length_splice. now apply in_bounds_spec in Hb as [_ Hb].
  - intros i Hi. now apply lookup_splice_outside.
Qed.

Lemma same_outside_update n loc v (b : list byte) :
  in_bounds n loc b = true -> same_outside n loc b (update n loc v b).
Proof.
  intros Hb. unfold update.
  rewrite <- (length_le_split n v) at 1.
  apply same_outside_splice. now rewrite length_le_split.
Qed.

Lemma same_outside_refl n loc (b : list byte) : same_outside n loc b b.
Proof. now split. Qed.

Lemma same_outside_trans n loc (b1 b2 b3 : list byte) :
  same_outside n loc b1 b2 -> same_outside n loc b2 b3 ->
  same_outside n loc b1 b3.
Proof.
  intros [Hl1 H1] [Hl2 H2]. split; [congruence|].
  intros i Hi. now rewrite H2, H1.
Qed.

Lemma same_outside_weaken n loc m loc' (b b' : list byte) :
  loc' <= loc -> loc + Z.of_nat n <= loc' + Z.of_nat m ->
  same_outside n loc b b' -> same_outside m loc' b b'.
Proof.
  intros H1 H2 [Hl H]. split; [exact Hl|].
  intros i Hi. apply H. lia.
Qed.

Lemma same_outside_patched loc f s :
  in_bounds 4 loc (buf s) = true ->
  same_outside 4 loc (buf s) (buf (patched loc f s)).
Proof. intros Hb. unfold patched. cbn [buf set_buf]. now apply same_outside_update. Qed.

Lemma insn_word (w : Z) m v :
  0 <= w < 2 ^ 32 -> 0 <= v < 2 ^ 32 ->
  Z.lor (Z.land w m) v mod 2 ^ 32 = Z.lor (Z.land w m) v.
Proof. apply lor_land_u32. Qed.

Lemma insn_j20_word w val :
  0 <= w < 2 ^ 32 -> insn_j20 w val mod 2 ^ 32 = insn_j20 w val.
Proof. intros Hw. apply insn_word; [exact Hw|apply u32_range]. Qed.

Lemma insn_k12_word w val :
  0 <= w < 2 ^ 32 -> insn_k12 w val mod 2 ^ 32 = insn_k12 w val.
Proof. intros Hw. apply insn_word; [exact Hw|apply u32_range]. Qed.

Lemma insn_k16_word w val :
  0 <= w < 2 ^ 32 -> insn_k16 w val mod 2 ^ 32 = insn_k16 w val.
Proof. intros Hw. apply insn_word; [exact Hw|apply u32_range]. Qed.

Lemma insn_d5k16_word w val :
  0 <= w < 2 ^ 32 -> insn_d5k16 w val mod 2 ^ 32 = insn_d5k16 w val.
Proof.
  intros Hw. apply insn_word; [exact Hw|].
  apply lor_u32; [apply u32_range|].
  change 0x1f with (Z.ones 5). apply land_ones_u32. lia.
Qed.

Lemma insn_d10k16_word w val :
  0 <= w < 2 ^ 32 -> insn_d10k16 w val mod 2 ^ 32 = insn_d10k16 w val.
Proof.
  intros Hw. apply insn_word; [exact Hw|].
  apply lor_u32; [apply u32_range|].
  change 0x3ff with (Z.ones 10). apply land_ones_u32. lia.
Qed.

Lemma word_range loc (b : list byte) : 0 <= word_at 4 loc b < 2 ^ 32.
Proof. exact (word_at_range 4 loc b). Qed.

End WriterRuns.

(** [write_j20] leaves the low 20 bits of its value in bits 5 to 24 of the
    instruction word at [loc]; the other bits of the word, the bytes
    around it and the diagnostics are as they were. *)
Theorem write_j20_fills_its_field loc val s :
  in_bounds 4 loc (buf s) = true ->
  exists s',
    write_j20 loc val s = Returns tt s' /\
    field_j20 (word_at 4 loc (buf s')) = val mod 2 ^ 20 /\
    Z.land (word_at 4 loc (buf s')) 0xfe00001f
    = Z.land (word_at 4 loc (buf s)) 0xfe00001f /\
    same_outside 4 loc (buf s) (buf s') /\
    errors s' = errors s.
Proof.
  intros Hb. eexists. split; [now apply write_j20_ok|].
  rewrite word_at_patched, insn_j20_word by (assumption || apply word_range).
  split; [|split; [|split]].
  - rewrite field_j20_insn_j20. change 0xfffff with (Z.ones 20).
    apply Z.land_ones. lia.
  - apply insn_j20_keeps.
  - now apply same_outside_patched.
  - reflexivity.
Qed.

Lemma write_j20_fills_its_field_witness :
  exists s',
    write_j20 4 0x12345 (Examples.image (Examples.zeros 4 ++ Examples.ones4) [])
    = Returns tt s' /\
    field_j20 (word_at 4 4 (buf s')) = 0x12345.
Proof.
  destruct (write_j20_fills_its_field 4 0x12345
              (Examples.image (Examples.zeros 4 ++ Examples.ones4) []))
    as (s' & Hrun & Hf & _); [reflexivity|].
  exists s'. split; [exact Hrun|exact Hf].
Defined.

(** [write_k16] leaves the low 16 bits of its value in bits 10 to 25 of
    the instruction word at [loc] and keeps the rest. *)
Theorem write_k16_fills_its_field loc val s :
  in_bounds 4 loc (buf s) = true ->
  exists s',
    write_k16 loc val s = Returns tt s' /\
    field_k16 (word_at 4 loc (buf s')) = val mod 2 ^ 16 /\
    Z.land (word_at 4 loc (buf s')) 0xfc0003ff
    = Z.land (word_at 4 loc (buf s)) 0xfc0003ff /\
    same_outside 4 loc (buf s) (buf s') /\
    errors s' = errors s.
Proof.
  intros Hb. eexists. split; [now apply write_k16_ok|].
  rewrite word_at_patched, insn_k16_word by (assumption || apply word_range).
  split; [|split; [|split]].
  - rewrite field_k16_insn_k16. apply Z.land_ones. lia.
  - apply insn_k16_keeps.
  - now apply same_outside_patched.
  - reflexivity.
Qed.

Lemma write_k16_fills_its_field_witness :
  exists s',
    write_k16 0 0x1beef (Examples.image Examples.ones4 []) = Returns tt s' /\
    field_k16 (word_at 4 0 (buf s')) = 0xbeef.
Proof.
  destruct (write_k16_fills_its_field 0 0x1beef
              (Examples.image Examples.ones4 []))
    as (s' & Hrun & Hf & _); [reflexivity|].
  exists s'. split; [exact Hrun|exact Hf].
Defined.

(** [write_d5k16] splits the low 21 bits of its value over bits 10 to 25
    (the low 16) and bits 0 to 4 (the 5 above them); read back in that
    order they give the value, and the rest of the word is kept. *)
Theorem write_d5k16_fills_its_field loc val s :
  in_bounds 4 loc (buf s) = true ->
  exists s',
    write_d5k16 loc val s = Returns tt s' /\
    field_d5k16 (word_at 4 loc (buf s')) = val mod 2 ^ 21 /\
    Z.land (word_at 4 loc (buf s')) 0xfc0003e0
    = Z.land (word_at 4 loc (buf s)) 0xfc0003e0 /\
    same_outside 4 loc (buf s) (buf s') /\
    errors s' = errors s.
Proof.
  intros Hb. eexists. split; [now apply write_d5k16_ok|].
  rewrite word_at_patched, insn_d5k16_word by (assumption || apply word_range).
  split; [|split; [|split]].
  - rewrite field_d5k16_insn_d5k16. apply Z.land_ones. lia.
  - apply insn_d5k16_keeps.
  - now apply same_outside_patched.
  - reflexivity.
Qed.

Lemma write_d5k16_fills_its_field_witness :
  exists s',
    write_d5k16 0 0x15beef (Examples.image Examples.ones4 [])
    = Returns tt s' /\
    field_d5k16 (word_at 4 0 (buf s')) = 0x15beef.
Proof.
  destruct (write_d5k16_fills_its_field 0 0x15beef
              (Examples.image Examples.ones4 []))
    as (s' & Hrun & Hf & _); [reflexivity|].
  exists s'. split; [exact Hrun|exact Hf].
Defined.

(** [write_d10k16] splits the low 26 bits of its value over bits 10 to 25
    (the low 16) and bits 0 to 9 (the 10 above them); read back in that
    order they give the value, and the rest of the word is kept. *)
Theorem write_d10k16_fills_its_field loc val s :
  in_bounds 4 loc (buf s) = true ->
  exists s',
    write_d10k16 loc val s = Returns tt s' /\
    field_d10k16 (word_at 4 loc (buf s')) = val mod 2 ^ 26 /\
    Z.land (word_at 4 loc (buf s')) 0xfc000000
    = Z.land (word_at 4 loc (buf s)) 0xfc000000 /\
    same_outside 4 loc (buf s) (buf s') /\
    errors s' = errors s.
Proof.
  intros Hb. eexists. split; [now apply write_d10k16_ok|].
  rewrite word_at_patched, insn_d10k16_word by (assumption || apply word_range).
  split; [|split; [|split]].
  - rewrite field_d10k16_insn_d10k16. apply Z.land_ones. lia.
  - apply insn_d10k16_keeps.
  - now apply same_outside_patched.
  - reflexivity.
Qed.

Lemma write_d10k16_fills_its_field_witness :
  exists s',
    write_d10k16 0 0x2abbeef (Examples.image Examples.ones4 [])
    = Returns tt s' /\
    field_d10k16 (word_at 4 0 (buf s')) = 0x2abbeef.
Proof.
  destruct (write_d10k16_fills_its_field 0 0x2abbeef
              (Examples.image Examples.ones4 []))
    as (s' & Hrun & Hf & _); [reflexivity|].
  exists s'. split; [exact Hrun|exact Hf].
Defined.

(** [write_k12] clears bits 10 to 19 and sets the low 12 bits of its
    value at bit 10: bits 20 and 21 of the field keep what the word had
    there, joined with the two top bits of the value.  The field reads
    back the value when these two bits were clear; every bit outside the
    field is kept. *)
Theorem write_k12_joins_the_top_two_bits loc val s :
  in_bounds 4 loc (buf s) = true ->
  exists s',
    write_k12 loc val s = Returns tt s' /\
    field_k12 (word_at 4 loc (buf s'))
    = Z.lor (Z.land (field_k12 (word_at 4 loc (buf s))) 0xc00)
            (val mod 2 ^ 12) /\
    (Z.land (field_k12 (word_at 4 loc (buf s))) 0xc00 = 0 ->
     field_k12 (word_at 4 loc (buf s')) = val mod 2 ^ 12) /\
    Z.land (word_at 4 loc (buf s')) 0xffc003ff
    = Z.land (word_at 4 loc (buf s)) 0xffc003ff /\
    same_outside 4 loc (buf s) (buf s') /\
    errors s' = errors s.
Proof.
  intros Hb. eexists. split; [now apply write_k12_ok|].
  rewrite word_at_patched, insn_k12_word by (assumption || apply word_range).
  assert (Hf : field_k12 (insn_k12 (word_at 4 loc (buf s)) val)
               = Z.lor (Z.land (field_k12 (word_at 4 loc (buf s))) 0xc00)
                       (val mod 2 ^ 12)).
  { rewrite field_k12_insn_k12_gen. f_equal. apply Z.land_ones. lia. }
  split; [exact Hf|split; [|split; [|split]]].
  - intros H0. rewrite Hf, H0. apply Z.lor_0_l.
  - apply insn_k12_keeps.
  - now apply same_outside_patched.
  - reflexivity.
Qed.

Lemma write_k12_joins_the_top_two_bits_witness :
  exists s',
    write_k12 0 0x123 (Examples.image Examples.ones4 []) = Returns tt s' /\
    field_k12 (word_at 4 0 (buf s')) = 0xd23.
Proof.
  destruct (write_k12_joins_the_top_two_bits 0 0x123
              (Examples.image Examples.ones4 []))
    as (s' & Hrun & Hf & _); [reflexivity|].
  exists s'. split; [exact Hrun|exact Hf].
Defined.
(** ** Writing twice, and reading a branch back *)

Section OverwriteFacts.

Lemma load_out_of_bounds n loc s :
  in_bounds n loc (buf s) = false -> load n loc s = Undefined.
Proof. intros Hb. unfold load. now rewrite Hb. Qed.

Lemma and_assign_out_of_bounds {B} n loc m (k : unit -> M B) s :
  in_bounds n loc (buf s) = false ->
  bind (and_assign n loc m) k s = Undefined.
Proof.
  intros Hb. unfold and_assign, bind. now rewrite load_out_of_bounds.
Qed.

Lemma in_bounds_patched n loc loc' f s :
  in_bounds 4 loc (buf s) = true ->
  in_bounds n loc' (buf (patched loc f s)) = in_bounds n loc' (buf s).
Proof.
  intros Hb. unfold patched. cbn [buf set_buf]. now apply in_bounds_update.
Qed.

Lemma patched_congr loc (f g : Z -> Z) s :
  f (word_at 4 loc (buf s)) = g (word_at 4 loc (buf s)) ->
  patched loc f s = patched loc g s.
Proof. intros H. unfold patched. now rewrite H. Qed.

(** Two writers in a row, when the second hides the first. *)
Lemma writer_twice (write : Z -> Z -> M unit) (insn : Z -> Z -> Z)
    loc v1 v2 s :
  (forall v s, in_bounds 4 loc (buf s) = true ->
     write loc v s = Returns tt (patched loc (fun w => insn w v) s)) ->
  (forall v s, in_bounds 4 loc (buf s) = false -> write loc v s = Undefined) ->
  (forall w v, 0 <= w < 2 ^ 32 -> insn w v mod 2 ^ 32 = insn w v) ->
  (forall w, insn (insn w v1) v2 = insn w v2) ->
  (write loc v1 ;;; write loc v2) s = write loc v2 s.
Proof.
  intros Hok Hoob Hword Htwice.
  destruct (in_bounds 4 loc (buf s)) eqn:Hb.
  - erewrite bind_returns by now apply Hok.
    rewrite !Hok by (rewrite ?in_bounds_patched; assumption).
    f_equal. rewrite patched_patched by assumption.
    apply patched_congr.
    now rewrite Hword, Htwice by apply word_range.
  - unfold bind. now rewrite !Hoob.
Qed.

Lemma sign_extend_mod n x :
  0 < n -> - 2 ^ (n - 1) <= x < 2 ^ (n - 1) ->
  sign_extend n (x mod 2 ^ n) = x.
Proof.
  intros Hn Hx. unfold sign_extend.
  assert (Hp : 2 ^ n = 2 * 2 ^ (n - 1)).
  { rewrite <- Z.pow_succ_r by lia. f_equal. lia. }
  rewrite Zplus_mod_idemp_l, Z.mod_small by lia. lia.
Qed.

(** A displacement that is a multiple of four, shifted as the source
    shifts the unsigned value. *)
Lemma shiftr2_of_u64 d w :
  0 <= w <= 62 -> Z.land d 3 = 0 ->
  Z.shiftr (u64 d) 2 mod 2 ^ w = (d / 4) mod 2 ^ w.
Proof.
  intros Hw Hd.
  change 3 with (Z.ones 2) in Hd. rewrite Z.land_ones in Hd by lia.
  change (2 ^ 2) with 4 in Hd.
  rewrite Z.shiftr_div_pow2 by lia. change (2 ^ 2) with 4.
  assert (Hq : d = 4 * (d / 4)) by (pose proof (Z.div_mod d 4); lia).
  assert (Hu : u64 d = 4 * ((d / 4) mod 2 ^ 62)).
  { unfold u64, wrap. rewrite Hq at 1.
    change (2 ^ 64) with (4 * 2 ^ 62).
    rewrite Z.mul_mod_distr_l by lia. reflexivity. }
  rewrite Hu, (Z.mul_comm 4), Z.div_mul by lia.
  apply Z.mod_mod_divide.
  exists (2 ^ (62 - w)). rewrite <- Z.pow_add_r by lia. f_equal. lia.
Qed.

Lemma branch_field_branch_insn t w insn val :
  branch_width t = Some w ->
  branch_field t (branch_insn t insn val) = val mod 2 ^ w.
Proof.
  intros Hw.
  destruct t; try discriminate Hw; injection Hw as <-;
    cbn [branch_field branch_insn].
  - rewrite field_k16_insn_k16. apply Z.land_ones. lia.
  - rewrite field_d5k16_insn_d5k16. apply Z.land_ones. lia.
  - rewrite field_d10k16_insn_d10k16. apply Z.land_ones. lia.
Qed.

Lemma branch_insn_word t w insn val :
  branch_width t = Some w -> 0 <= insn < 2 ^ 32 ->
  branch_insn t insn val mod 2 ^ 32 = branch_insn t insn val.
Proof.
  intros Hw Hi.
  destruct t; try discriminate Hw; cbn [branch_insn].
  - now apply insn_k16_word.
  - now apply insn_d5k16_word.
  - now apply insn_d10k16_word.
Qed.

End OverwriteFacts.

(** Each of [write_j20], [write_k16], [write_d5k16] and [write_d10k16]
    overwrites its field: writing a value and then another at the same
    place is writing the second, whatever the place and the buffer. *)
Theorem immediate_writers_overwrite loc v1 v2 s :
  (write_j20 loc v1 ;;; write_j20 loc v2) s = write_j20 loc v2 s /\
  (write_k16 loc v1 ;;; write_k16 loc v2) s = write_k16 loc v2 s /\
  (write_d5k16 loc v1 ;;; write_d5k16 loc v2) s = write_d5k16 loc v2 s /\
  (write_d10k16 loc v1 ;;; write_d10k16 loc v2) s = write_d10k16 loc v2 s.
Proof.
  split; [|split; [|split]].
  - apply writer_twice with (insn := insn_j20).
    + intros. now apply write_j20_ok.
    + intros. now apply and_assign_out_of_bounds.
    + intros. now apply insn_j20_word.
    + intros. apply insn_j20_twice.
  - apply writer_twice with (insn := insn_k16).
    + intros. now apply write_k16_ok.
    + intros. now apply and_assign_out_of_bounds.
    + intros. now apply insn_k16_word.
    + intros. apply insn_k16_twice.
  - apply writer_twice with (insn := insn_d5k16).
    + intros. now apply write_d5k16_ok.
    + intros. now apply and_assign_out_of_bounds.
    + intros. now apply insn_d5k16_word.
    + intros. apply insn_d5k16_twice.
  - apply writer_twice with (insn := insn_d10k16).
    + intros. now apply write_d10k16_ok.
    + intros. now apply and_assign_out_of_bounds.
    + intros. now apply insn_d10k16_word.
    + intros. apply insn_d10k16_twice.
Qed.

(** A direct branch whose displacement [S + A - P] is a multiple of four
    and in range: the relocation returns, adds no diagnostic, and the
    field it leaves in the instruction word, read as a signed number of
    the field's width and multiplied by four, is the displacement. *)
Theorem branch_field_holds_the_displacement {ext : Collaborators}
    (ctx : Ctx) (sec : InputSection) (base : Z) (rel : ElfRel)
    (s : LinkState) (sym : Symbol) (w : Z) :
  branch_width (r_type rel) = Some w ->
  symbols s !! r_sym rel = Some sym ->
  in_bounds 4 (base + r_offset rel) (buf s) = true ->
  Z.land (i64 (displacement sec sym rel)) 3 = 0 ->
  - 2 ^ (w + 1) <= i64 (displacement sec sym rel) < 2 ^ (w + 1) ->
  exists s',
    apply_reloc_alloc_rel ctx sec base rel s = Returns tt s' /\
    errors s' = errors s /\
    4 * sign_extend w
          (branch_field (r_type rel)
             (word_at 4 (base + r_offset rel) (buf s')))
    = i64 (displacement sec sym rel).
Proof.
  intros Hw Hsym Hb Ha Hr.
  assert (Hk : is_checked (r_type rel) = true).
  { destruct (r_type rel); try discriminate Hw; reflexivity. }
  assert (Hw' : w = 16 \/ w = 21 \/ w = 26).
  { destruct (r_type rel); try discriminate Hw; injection Hw as <-; lia. }
  eexists. split; [now apply checked_reloc_run with (sym := sym)|].
  assert (Hf : check_failures ctx sec sym rel = []).
  { unfold check_failures. rewrite Hw. now apply no_failures. }
  rewrite Hf, reported_nil. split; [reflexivity|].
  rewrite word_at_patched by assumption.
  unfold checked_insn. rewrite Hw.
  rewrite (branch_insn_word _ w) by (assumption || apply word_range).
  rewrite (branch_field_branch_insn _ w) by assumption.
  set (d := i64 (displacement sec sym rel)) in *.
  assert (Hu : displacement sec sym rel = u64 d).
  { unfold d. rewrite u64_i64. unfold displacement, sub64.
    now rewrite u64_idem. }
  rewrite Hu, shiftr2_of_u64 by (assumption || lia).
  assert (Hq : d = 4 * (d / 4)).
  { change 3 with (Z.ones 2) in Ha. rewrite Z.land_ones in Ha by lia.
    change (2 ^ 2) with 4 in Ha. pose proof (Z.div_mod d 4). lia. }
  assert (Hp : 2 ^ (w + 1) = 4 * 2 ^ (w - 1)).
  { change 4 with (2 ^ 2). rewrite <- Z.pow_add_r by lia. f_equal. lia. }
  rewrite sign_extend_mod; [lia|lia|].
  rewrite Hp in Hr. lia.
Qed.

Lemma branch_field_holds_the_displacement_witness :
  exists s',
    apply_reloc_alloc_rel (ext := Examples.quiet) Examples.ctx64
      Examples.text 0 (mkRel 4 R_LARCH_B21 0 0)
      (Examples.image (Examples.zeros 8) [Examples.sym_at 0xff4]) = Returns tt s' /\
    4 * sign_extend 21 (field_d5k16 (word_at 4 4 (buf s'))) = - 16.
Proof.
  destruct (branch_field_holds_the_displacement (ext := Examples.quiet)
              Examples.ctx64 Examples.text 0 (mkRel 4 R_LARCH_B21 0 0)
              (Examples.image (Examples.zeros 8) [Examples.sym_at 0xff4])
              (Examples.sym_at 0xff4) 21)
    as (s' & Hrun & _ & Hf);
    [reflexivity|reflexivity|reflexivity|reflexivity|vm_compute; split; congruence|].
  exists s'. split; [exact Hrun|exact Hf].
Defined.
(** ** The appliers, kind by kind *)

Section ApplierFacts.

Context {ext : Collaborators}.

Lemma bind_ext {A B} (m : M A) (k k' : A -> M B) s :
  (forall a s', k a s' = k' a s') -> bind m k s = bind m k' s.
Proof. intros H. unfold bind. destruct (m s); auto. Qed.

Lemma add64_assoc a b c : ((a + b) + c)%u64 = (a + (b + c))%u64.
Proof. unfold add64. rewrite u64_add_l, u64_add_r. f_equal. lia. Qed.

Lemma sub64_sub64 a b c : ((a - b) - c)%u64 = (a - (b + c))%u64.
Proof. unfold sub64, add64. rewrite u64_sub_l, u64_sub_r. f_equal. lia. Qed.

Lemma for_each_app {A} (body : A -> M unit) l1 l2 s :
  for_each body (l1 ++ l2) s = (for_each body l1 ;;; for_each body l2) s.
Proof.
  revert s. induction l1 as [|x l1 IH]; intros s; cbn [for_each app].
  - reflexivity.
  - unfold bind. unfold bind in IH.
    destruct (body x s) as [[] s1|s1|]; [apply IH|reflexivity|reflexivity].
Qed.

Lemma in_bounds_le n m loc (b : list byte) :
  (n <= m)%nat -> in_bounds m loc b = true -> in_bounds n loc b = true.
Proof. intros Hn Hb. apply in_bounds_spec in Hb. apply in_bounds_spec. lia. Qed.

End ApplierFacts.

(** On the kinds [apply_eh_reloc] has a case for, it does to the unwind
    section what [apply_reloc_alloc] does to a section at the same
    address and file offset, given the value [S + A] of the symbol. *)
Theorem eh_applier_agrees_with_section_applier {ext : Collaborators}
    (ctx : Ctx) (eh : EhFrameSection) (sec : InputSection) (rel : ElfRel)
    (sym : Symbol) (s : LinkState) :
  eh_supported (r_type rel) = true ->
  symbols s !! r_sym rel = Some sym ->
  sec_addr sec = eh_sh_addr eh ->
  apply_eh_reloc ctx eh rel (r_offset rel)
    (get_addr sym + u64 (r_addend rel))%u64 s
  = apply_reloc_alloc_rel ctx sec (eh_sh_offset eh) rel s.
Proof.
  intros Hk Hsym Haddr.
  unfold apply_eh_reloc, apply_reloc_alloc_rel.
  destruct (r_type rel) eqn:Hty; try discriminate Hk; cbn [is_hint];
    try reflexivity;
    (erewrite (bind_returns (get_symbol _))
       by (apply get_symbol_ok; exact Hsym));
    try reflexivity.
  - apply bind_ext. intros b s'. now rewrite add64_assoc.
  - apply bind_ext. intros b s'. now rewrite sub64_sub64.
  - now rewrite sub64_sub64, Haddr.
  - now rewrite sub64_sub64, Haddr.
Qed.

Lemma eh_applier_agrees_with_section_applier_witness :
  apply_eh_reloc Examples.ctx64 Examples.eh_frame
    (mkRel 4 R_LARCH_32_PCREL 0 8) 4 (0x3000 + u64 8)%u64
    (Examples.image (Examples.zeros 8) [Examples.sym_at 0x3000])
  = apply_reloc_alloc_rel (ext := Examples.quiet) Examples.ctx64
      (mkSec [] 0x2000 true 0) 0 (mkRel 4 R_LARCH_32_PCREL 0 8)
      (Examples.image (Examples.zeros 8) [Examples.sym_at 0x3000]).
Proof.
  apply (eh_applier_agrees_with_section_applier (ext := Examples.quiet)
           Examples.ctx64 Examples.eh_frame (mkSec [] 0x2000 true 0)
           (mkRel 4 R_LARCH_32_PCREL 0 8) (Examples.sym_at 0x3000));
    reflexivity.
Defined.

(** On every other kind [apply_eh_reloc] exits: the diagnostic is the only
    change, no byte of the buffer is written. *)
Theorem eh_applier_exits_on_other_kinds (ctx : Ctx) (eh : EhFrameSection)
    (rel : ElfRel) (offset val : Z) (s : LinkState) :
  eh_supported (r_type rel) = false ->
  apply_eh_reloc ctx eh rel offset val s
  = Exits (reported [Unsupported_eh_relocation rel] s).
Proof.
  intros Hk. unfold apply_eh_reloc.
  destruct (r_type rel); try discriminate Hk; reflexivity.
Qed.

Lemma eh_applier_exits_on_other_kinds_witness :
  apply_eh_reloc Examples.ctx64 Examples.eh_frame
    (mkRel 0 R_LARCH_B26 0 0) 0 0 (Examples.image (Examples.zeros 8) [])
  = Exits (reported [Unsupported_eh_relocation (mkRel 0 R_LARCH_B26 0 0)]
             (Examples.image (Examples.zeros 8) [])).
Proof.
  apply (eh_applier_exits_on_other_kinds Examples.ctx64 Examples.eh_frame
           (mkRel 0 R_LARCH_B26 0 0) 0 0). reflexivity.
Defined.

(** The markers [R_LARCH_RELAX], [R_LARCH_MARK_LA] and
    [R_LARCH_MARK_PCREL] are skipped by the scanner and by the applier of
    allocated sections, which leave the state as it is; the applier of
    non-allocated sections and the unwind applier have no case for them
    and exit. *)
Theorem markers_are_skipped_in_allocated_sections_only
    {ext : Collaborators} (ctx : Ctx) (sec : InputSection)
    (eh : EhFrameSection) (base offset val : Z) (rel : ElfRel)
    (sym : Symbol) (s : LinkState) :
  is_hint (r_type rel) = true -> r_type rel <> R_NONE ->
  symbols s !! r_sym rel = Some sym -> file sym = true ->
  scan_relocations_rel ctx sec rel s = Returns tt s /\
  apply_reloc_alloc_rel ctx sec base rel s = Returns tt s /\
  apply_reloc_nonalloc_rel ctx sec base rel s
  = Exits (reported [Invalid_nonalloc_relocation rel] s) /\
  apply_eh_reloc ctx eh rel offset val s
  = Exits (reported [Unsupported_eh_relocation rel] s).
Proof.
  intros Hk Hn Hsym Hfile.
  unfold scan_relocations_rel, apply_reloc_alloc_rel,
    apply_reloc_nonalloc_rel, apply_eh_reloc.
  rewrite Hk.
  destruct (r_type rel); try discriminate Hk; try congruence;
    (split; [reflexivity|split; [reflexivity|split; [|reflexivity]]]);
    (erewrite bind_returns by (apply get_symbol_ok; exact Hsym));
    rewrite Hfile; cbn [negb];
    destruct (get_fragment ctx sec rel); reflexivity.
Qed.

Lemma markers_are_skipped_in_allocated_sections_only_witness :
  scan_relocations_rel (ext := Examples.quiet) Examples.ctx64 Examples.text
    (mkRel 0 R_LARCH_RELAX 0 0)
    (Examples.image (Examples.zeros 4) [Examples.sym_at 0])
  = Returns tt (Examples.image (Examples.zeros 4) [Examples.sym_at 0]) /\
  apply_reloc_nonalloc_rel (ext := Examples.quiet) Examples.ctx64
    Examples.text 0 (mkRel 0 R_LARCH_RELAX 0 0)
    (Examples.image (Examples.zeros 4) [Examples.sym_at 0])
  = Exits (reported [Invalid_nonalloc_relocation (mkRel 0 R_LARCH_RELAX 0 0)]
             (Examples.image (Examples.zeros 4) [Examples.sym_at 0])).
Proof.
  pose proof (markers_are_skipped_in_allocated_sections_only
                (ext := Examples.quiet) Examples.ctx64 Examples.text
                Examples.eh_frame 0 0 0 (mkRel 0 R_LARCH_RELAX 0 0)
                (Examples.sym_at 0)
                (Examples.image (Examples.zeros 4) [Examples.sym_at 0])
                eq_refl ltac:(discriminate) eq_refl eq_refl)
    as (Hscan & _ & Hnon & _).
  split; [exact Hscan|exact Hnon].
Defined.
(** ** What the applier of allocated sections writes, and where *)

Section PatchFacts.

Context {ext : Collaborators}.

Lemma patches_store n loc v : patches n loc (store n loc v).
Proof.
  intros s Hb. eexists. split; [now apply store_ok|].
  split; [now apply same_outside_update|reflexivity].
Qed.

Lemma patches_load n loc (k : Z -> M unit) :
  (forall w, patches n loc (k w)) -> patches n loc (w <- load n loc ;; k w).
Proof.
  intros Hk s Hb.
  destruct (Hk (word_at n loc (buf s)) s Hb) as (s' & Hrun & Hrest).
  exists s'. split; [|exact Hrest].
  erewrite bind_returns by now apply load_ok. exact Hrun.
Qed.

Lemma patches_add_assign n loc v : patches n loc (add_assign n loc v).
Proof. apply patches_load. intros w. apply patches_store. Qed.

Lemma patches_sub_assign n loc v : patches n loc (sub_assign n loc v).
Proof. apply patches_load. intros w. apply patches_store. Qed.

Lemma patches_patched loc (write : M unit) (f : Z -> Z) :
  (forall s, in_bounds 4 loc (buf s) = true ->
     write s = Returns tt (patched loc f s)) ->
  patches 4 loc write.
Proof.
  intros Hok s Hb. eexists. split; [now apply Hok|].
  split; [now apply same_outside_patched|reflexivity].
Qed.

Lemma patches_write_j20 loc val : patches 4 loc (write_j20 loc val).
Proof.
  apply patches_patched with (f := fun w => insn_j20 w val).
  intros. now apply write_j20_ok.
Qed.

Lemma patches_write_k12 loc val : patches 4 loc (write_k12 loc val).
Proof.
  apply patches_patched with (f := fun w => insn_k12 w val).
  intros. now apply write_k12_ok.
Qed.

Lemma patches_write_k16 loc val : patches 4 loc (write_k16 loc val).
Proof.
  apply patches_patched with (f := fun w => insn_k16 w val).
  intros. now apply write_k16_ok.
Qed.

Lemma patches_write_d5k16 loc val : patches 4 loc (write_d5k16 loc val).
Proof.
  apply patches_patched with (f := fun w => insn_d5k16 w val).
  intros. now apply write_d5k16_ok.
Qed.

Lemma patches_write_d10k16 loc val : patches 4 loc (write_d10k16 loc val).
Proof.
  apply patches_patched with (f := fun w => insn_d10k16 w val).
  intros. now apply write_d10k16_ok.
Qed.

(** A check before a patch adds diagnostics only. *)
Lemma patches_after_report n loc (c m : M unit) :
  (forall s, exists ds, c s = Returns tt (reported ds s)) ->
  patches n loc m -> patches n loc (c ;;; m).
Proof.
  intros Hc Hm s Hb.
  destruct (Hc s) as (ds & Hrun).
  destruct (Hm (reported ds s) Hb) as (s' & Hrun' & Hrest).
  exists s'. split; [|exact Hrest].
  erewrite bind_returns by exact Hrun. exact Hrun'.
Qed.

Lemma patches_check n loc rel val lo hi m :
  patches n loc m -> patches n loc (check rel val lo hi ;;; m).
Proof.
  apply patches_after_report. intros s. eexists. apply check_run.
Qed.

Lemma patches_check_branch n loc rel val lo hi m :
  patches n loc m -> patches n loc (check_branch rel val lo hi ;;; m).
Proof.
  apply patches_after_report. intros s. eexists. apply check_branch_run.
Qed.

Ltac patch_step :=
  first [ apply patches_check | apply patches_check_branch
        | apply patches_write_j20 | apply patches_write_k12
        | apply patches_write_k16 | apply patches_write_d5k16
        | apply patches_write_d10k16
        | apply patches_add_assign | apply patches_sub_assign
        | apply patches_store
        | apply patches_load; intros ? ].

Lemma patches_run n loc m s :
  patches n loc m -> in_bounds n loc (buf s) = true ->
  exists s', m s = Returns tt s' /\
             same_outside n loc (buf s) (buf s') /\
             symbols s' = symbols s.
Proof. intros H. apply H. Qed.

(** The relocation of a kind the applier patches itself. *)
Lemma alloc_rel_patches ctx sec base rel s sym n :
  patch_size ctx (r_type rel) = Some n ->
  symbols s !! r_sym rel = Some sym ->
  in_bounds n (base + r_offset rel) (buf s) = true ->
  exists s',
    apply_reloc_alloc_rel ctx sec base rel s = Returns tt s' /\
    same_outside n (base + r_offset rel) (buf s) (buf s') /\
    symbols s' = symbols s.
Proof.
  intros Hn Hsym Hb.
  unfold apply_reloc_alloc_rel.
  destruct (r_type rel) eqn:Hty; cbn [patch_size] in Hn;
    try discriminate Hn; cbn [is_hint];
    (erewrite (bind_returns (get_symbol _))
       by (apply get_symbol_ok; exact Hsym));
    try (destruct (is_64 ctx); [|discriminate Hn]);
    injection Hn as <-;
    (apply patches_run; [|exact Hb]);
    repeat patch_step.
Qed.

End PatchFacts.
(** For every kind [apply_reloc_alloc] patches with its own statements
    (all but the dynamic absolute and the ULEB128 kinds, which other
    functions write), a relocation whose patch site is in the buffer
    returns, keeps the length of the buffer and every byte outside the
    1, 2, 4 or 8 bytes of the patch site, and changes no symbol. *)
Theorem section_applier_patches_in_place {ext : Collaborators} (ctx : Ctx)
    (sec : InputSection) (base : Z) (rel : ElfRel) (s : LinkState)
    (sym : Symbol) (n : nat) :
  patch_size ctx (r_type rel) = Some n ->
  symbols s !! r_sym rel = Some sym ->
  in_bounds n (base + r_offset rel) (buf s) = true ->
  exists s',
    apply_reloc_alloc_rel ctx sec base rel s = Returns tt s' /\
    length (buf s') = length (buf s) /\
    (forall i : nat,
       Z.of_nat i < base + r_offset rel \/
       base + r_offset rel + Z.of_nat n <= Z.of_nat i ->
       buf s' !! i = buf s !! i) /\
    symbols s' = symbols s.
Proof.
  intros Hn Hsym Hb.
  destruct (alloc_rel_patches ctx sec base rel s sym n Hn Hsym Hb)
    as (s' & Hrun & [Hlen Hout] & Hsyms).
  exists s'. auto.
Qed.

Lemma section_applier_patches_in_place_witness :
  exists s',
    apply_reloc_alloc_rel (ext := Examples.quiet) Examples.ctx64
      Examples.text 0 (mkRel 4 R_LARCH_PCALA_LO12 0 0)
      (Examples.image (Examples.ones4 ++ Examples.zeros 4 ++ Examples.ones4)
         [Examples.sym_at 0x1234])
    = Returns tt s' /\
    length (buf s') = 12%nat /\
    buf s' !! 3%nat = Some Byte.xff /\ buf s' !! 8%nat = Some Byte.xff.
Proof.
  destruct (section_applier_patches_in_place (ext := Examples.quiet)
              Examples.ctx64 Examples.text 0 (mkRel 4 R_LARCH_PCALA_LO12 0 0)
              (Examples.image
                 (Examples.ones4 ++ Examples.zeros 4 ++ Examples.ones4)
                 [Examples.sym_at 0x1234])
              (Examples.sym_at 0x1234) 4 eq_refl eq_refl eq_refl)
    as (s' & Hrun & Hlen & Hout & _).
  exists s'. split; [exact Hrun|]. split; [exact Hlen|].
  split; [apply (Hout 3%nat)|apply (Hout 8%nat)]; cbn; lia.
Defined.

(** The switch of [apply_reloc_alloc] has a case for exactly the kinds
    the switch of [scan_relocations] has one for: on a 64-bit target, with
    the patch site in the buffer, a relocation of a kind the scanner
    accepts returns, and one of a kind the scanner reports as unknown
    reaches [unreachable()]. *)
Theorem section_applier_covers_what_the_scanner_knows
    {ext : Collaborators} (ctx : Ctx) (sec : InputSection) (base : Z)
    (rel : ElfRel) (s : LinkState) (sym : Symbol) :
  is_hint (r_type rel) = false ->
  symbols s !! r_sym rel = Some sym ->
  in_bounds 8 (base + r_offset rel) (buf s) = true ->
  is_64 ctx = true ->
  if scanner_known (r_type rel)
  then exists s', apply_reloc_alloc_rel ctx sec base rel s = Returns tt s'
  else apply_reloc_alloc_rel ctx sec base rel s = Undefined.
Proof.
  intros Hh Hsym Hb H64.
  destruct (patch_size ctx (r_type rel)) as [n|] eqn:Hn.
  - assert (Hle : (n <= 8)%nat).
    { destruct (r_type rel); cbn [patch_size] in Hn;
        try discriminate Hn; try (injection Hn as <-; lia).
      destruct (is_64 ctx); [injection Hn as <-; lia|discriminate Hn]. }
    destruct (alloc_rel_patches ctx sec base rel s sym n Hn Hsym
                (in_bounds_le n 8 _ _ Hle Hb)) as (s' & Hrun & _).
    assert (Hk : scanner_known (r_type rel) = true).
    { destruct (r_type rel); try discriminate Hn; reflexivity. }
    rewrite Hk. now exists s'.
  - unfold apply_reloc_alloc_rel. rewrite Hh.
    erewrite bind_returns by (apply get_symbol_ok; exact Hsym).
    destruct (r_type rel); cbn [patch_size] in Hn; try discriminate Hn;
      try discriminate Hh; cbn [scanner_known];
      rewrite ?H64 in *; try discriminate Hn;
      try reflexivity; eexists; reflexivity.
Qed.

Lemma section_applier_covers_what_the_scanner_knows_witness :
  apply_reloc_alloc_rel (ext := Examples.quiet) Examples.ctx64
    Examples.text 0 (mkRel 0 R_LARCH_TLS_DTPREL32 0 0)
    (Examples.image (Examples.zeros 8) [Examples.sym_at 0x1234])
  = Undefined.
Proof.
  apply (section_applier_covers_what_the_scanner_knows
           (ext := Examples.quiet) Examples.ctx64 Examples.text 0
           (mkRel 0 R_LARCH_TLS_DTPREL32 0 0)
           (Examples.image (Examples.zeros 8) [Examples.sym_at 0x1234])
           (Examples.sym_at 0x1234)); reflexivity.
Defined.

(** [apply_reloc_nonalloc] stops at the first relocation of a kind it has
    no case for: the process exits with the diagnostic of that relocation
    on top of what the relocations before it left, and no relocation
    after it is applied. *)
Theorem nonalloc_applier_stops_at_an_invalid_kind {ext : Collaborators}
    (ctx : Ctx) (sec : InputSection) (base : Z) (pre post : list ElfRel)
    (rel : ElfRel) (s s1 : LinkState) (sym : Symbol) :
  get_rels sec = pre ++ rel :: post ->
  for_each (apply_reloc_nonalloc_rel ctx sec base) pre s = Returns tt s1 ->
  nonalloc_supported (r_type rel) = false ->
  symbols s1 !! r_sym rel = Some sym ->
  file sym = true ->
  apply_reloc_nonalloc ctx sec base s
  = Exits (reported [Invalid_nonalloc_relocation rel] s1).
Proof.
  intros Hrels Hpre Hk Hsym Hfile.
  unfold apply_reloc_nonalloc. rewrite Hrels, for_each_app.
  erewrite bind_returns by exact Hpre.
  cbn [for_each]. unfold bind at 1.
  assert (Hrel : apply_reloc_nonalloc_rel ctx sec base rel s1
                 = Exits (reported [Invalid_nonalloc_relocation rel] s1)).
  { unfold apply_reloc_nonalloc_rel.
    destruct (r_type rel); try discriminate Hk;
      (erewrite bind_returns by (apply get_symbol_ok; exact Hsym));
      rewrite Hfile; cbn [negb];
      destruct (get_fragment ctx sec rel); reflexivity. }
  now rewrite Hrel.
Qed.

Lemma nonalloc_applier_stops_at_an_invalid_kind_witness :
  apply_reloc_nonalloc (ext := Examples.quiet) Examples.ctx64
    (mkSec [mkRel 0 R_LARCH_32 0 1; mkRel 4 R_LARCH_B26 0 0;
            mkRel 4 R_LARCH_32 0 2] 0 false 0) 0
    (Examples.image (Examples.zeros 8) [Examples.sym_at 0x1000])
  = Exits (reported [Invalid_nonalloc_relocation (mkRel 4 R_LARCH_B26 0 0)]
             (Examples.image
                (update 4 0 0x1001 (Examples.zeros 8))
                [Examples.sym_at 0x1000])).
Proof.
  apply (nonalloc_applier_stops_at_an_invalid_kind (ext := Examples.quiet)
           Examples.ctx64 _ 0 [mkRel 0 R_LARCH_32 0 1]
           [mkRel 4 R_LARCH_32 0 2] (mkRel 4 R_LARCH_B26 0 0)
           (Examples.image (Examples.zeros 8) [Examples.sym_at 0x1000])
           _ (Examples.sym_at 0x1000)); reflexivity.
Defined.

(** On the accumulating kinds (ADD, SUB, and their ULEB128 forms), for a
    defined symbol that is not in a merged fragment, the applier of
    non-allocated sections does what the applier of allocated sections
    does. *)
Theorem appliers_agree_on_accumulating_kinds {ext : Collaborators}
    (ctx : Ctx) (sec : InputSection) (base : Z) (rel : ElfRel)
    (s : LinkState) (sym : Symbol) (a : Z) :
  is_accumulating (r_type rel) = true ->
  symbols s !! r_sym rel = Some sym ->
  file sym = true ->
  get_fragment ctx sec rel = (None, a) ->
  apply_reloc_nonalloc_rel ctx sec base rel s
  = apply_reloc_alloc_rel ctx sec base rel s.
Proof.
  intros Hk Hsym Hfile Hfrag.
  unfold apply_reloc_nonalloc_rel, apply_reloc_alloc_rel.
  destruct (r_type rel); try discriminate Hk; cbn [is_hint];
    (erewrite !(bind_returns (get_symbol _))
       by (apply get_symbol_ok; exact Hsym));
    rewrite Hfile, Hfrag; reflexivity.
Qed.

Lemma appliers_agree_on_accumulating_kinds_witness :
  apply_reloc_nonalloc_rel (ext := Examples.quiet) Examples.ctx64
    Examples.debug_info 0 (mkRel 2 R_LARCH_SUB16 0 3)
    (Examples.image (Examples.zeros 4) [Examples.sym_at 0x1000])
  = apply_reloc_alloc_rel (ext := Examples.quiet) Examples.ctx64
      Examples.debug_info 0 (mkRel 2 R_LARCH_SUB16 0 3)
      (Examples.image (Examples.zeros 4) [Examples.sym_at 0x1000]).
Proof.
  apply (appliers_agree_on_accumulating_kinds (ext := Examples.quiet)
           Examples.ctx64 Examples.debug_info 0 (mkRel 2 R_LARCH_SUB16 0 3)
           (Examples.image (Examples.zeros 4) [Examples.sym_at 0x1000])
           (Examples.sym_at 0x1000) 0); reflexivity.
Defined.
(** The kinds of [apply_reloc_nonalloc] that store an address: the bytes
    at the patch site then hold, cut to their width, the address of the
    merged fragment plus the fragment's addend when the relocation
    refers to a fragment, and the symbol's address plus the relocation's
    addend otherwise, less the DTP base for the two DTPREL kinds;
    provided no tombstone applies (which [R_LARCH_32] never asks). *)
Theorem nonalloc_applier_stores_the_fragment_address {ext : Collaborators}
    (ctx : Ctx) (sec : InputSection) (base : Z) (rel : ElfRel)
    (s : LinkState) (sym : Symbol) (n : nat) :
  stored_width (r_type rel) = Some n ->
  symbols s !! r_sym rel = Some sym ->
  file sym = true ->
  in_bounds n (base + r_offset rel) (buf s) = true ->
  (r_type rel <> R_LARCH_32 ->
   get_tombstone sym (fst (get_fragment ctx sec rel)) = None) ->
  exists s',
    apply_reloc_nonalloc_rel ctx sec base rel s = Returns tt s' /\
    word_at n (base + r_offset rel) (buf s')
    = (match get_fragment ctx sec rel with
       | (Some f, a) => frag_get_addr f + a
       | (None, _) => get_addr sym + r_addend rel
       end - stored_bias ctx (r_type rel)) mod 2 ^ (Z.of_nat n * 8) /\
    same_outside n (base + r_offset rel) (buf s) (buf s') /\
    errors s' = errors s.
Proof.
  intros Hn Hsym Hfile Hb Htomb.
  unfold apply_reloc_nonalloc_rel.
  destruct (r_type rel) eqn:Hty; try discriminate Hn; injection Hn as <-;
    (erewrite bind_returns by (apply get_symbol_ok; exact Hsym));
    rewrite Hfile; cbn [negb stored_bias];
    destruct (get_fragment ctx sec rel) as [[f|] a]; cbn [fst] in Htomb;
    rewrite ?Htomb by discriminate;
    (eexists; split; [now apply store_ok|]);
    cbn [buf set_buf errors];
    (split; [|split; [now apply same_outside_update|reflexivity]]);
    rewrite word_at_update by assumption;
    unfold add64, sub64; rewrite ?u64_add_r, ?u64_sub_l;
    (rewrite mod_pow2_of_u64 by (cbn; lia));
    f_equal; lia.
Qed.

Lemma nonalloc_applier_stores_the_fragment_address_witness :
  exists s',
    apply_reloc_nonalloc_rel (ext := Examples.quiet) Examples.ctx64
      Examples.debug_info 0 (mkRel 0 R_LARCH_32 0 (-1))
      (Examples.image (Examples.zeros 4) [Examples.sym_at 0x100000000])
    = Returns tt s' /\
    word_at 4 0 (buf s') = 0xffffffff.
Proof.
  destruct (nonalloc_applier_stores_the_fragment_address
              (ext := Examples.quiet) Examples.ctx64 Examples.debug_info 0
              (mkRel 0 R_LARCH_32 0 (-1))
              (Examples.image (Examples.zeros 4)
                 [Examples.sym_at 0x100000000])
              (Examples.sym_at 0x100000000) 4 eq_refl eq_refl eq_refl
              eq_refl ltac:(intros H; now destruct H))
    as (s' & Hrun & Hw & _).
  exists s'. split; [exact Hrun|exact Hw].
Defined.
(** ** The requirement scanner *)

Section ScannerFacts.

Context {ext : Collaborators}.

Lemma alter_alter {A} (f g : A -> A) (i : nat) (l : list A) :
  alter f i (alter g i l) = alter (fun x => f (g x)) i l.
Proof.
  revert i. induction l as [|x l IH]; intros [|i]; cbn; f_equal; auto.
Qed.

Lemma insert_as_alter {A} (f : A -> A) (i : nat) (l : list A) x :
  l !! i = Some x -> <[i := f x]> l = alter f i l.
Proof.
  revert i. induction l as [|y l IH]; intros [|i] H; cbn in *;
    try discriminate.
  - now injection H as ->.
  - f_equal. now apply IH.
Qed.

Lemma set_flags_same sym : set_flags (flags sym) sym = sym.
Proof. now destruct sym. Qed.

Lemma set_symbols_same s : set_symbols (symbols s) s = s.
Proof. now destruct s. Qed.

Lemma or_flags_run i m s sym :
  symbols s !! i = Some sym -> or_flags i m s = Returns tt (flagged i m s).
Proof.
  intros Hsym. unfold or_flags, flagged. rewrite Hsym.
  now rewrite (insert_as_alter
                 (fun sym => set_flags (Z.lor (flags sym) m) sym)).
Qed.

Lemma flagged_0 i s : flagged i 0 s = s.
Proof.
  unfold flagged. rewrite list_alter_id; [apply set_symbols_same|].
  intros sym. rewrite Z.lor_0_r. apply set_flags_same.
Qed.

Lemma flagged_flagged i m m' s :
  flagged i m' (flagged i m s) = flagged i (Z.lor m m') s.
Proof.
  unfold flagged. cbn [symbols set_symbols]. rewrite alter_alter.
  unfold set_symbols. cbn [buf errors symbols num_dynrel reldyn_offset dynrel].
  f_equal. apply list_alter_ext; [|reflexivity].
  intros sym _. unfold set_flags. cbn [flags file get_addr]. 
  now rewrite Z.lor_assoc.
Qed.

Lemma symbols_flagged_lookup i m s sym :
  symbols s !! i = Some sym ->
  symbols (flagged i m s) !! i
  = Some (set_flags (Z.lor (flags sym) m) sym).
Proof.
  intros Hsym. unfold flagged. cbn [symbols set_symbols].
  now rewrite list_lookup_alter_eq, Hsym.
Qed.

(** The scan of a relocation, up to the flags of an indirect function. *)
Lemma scan_rel_run ctx sec rel s s0 sym :
  is_hint (r_type rel) = false ->
  record_undef_error ctx sec rel s = (false, s0) ->
  symbols s0 !! r_sym rel = Some sym ->
  file sym = true ->
  scan_relocations_rel ctx sec rel s
  = match r_type rel with
    | R_LARCH_32 =>
        if is_64 ctx then call (scan_absrel ctx sec (r_sym rel) rel)
        else call (scan_dyn_absrel ctx sec (r_sym rel) rel)
    | R_LARCH_64 =>
        assert (is_64 ctx) ;;;
        call (scan_dyn_absrel ctx sec (r_sym rel) rel)
    | R_LARCH_B26 =>
        when (is_imported sym) (or_flags (r_sym rel) NEEDS_PLT)
    | R_LARCH_GOT_HI20 | R_LARCH_GOT_PC_HI20 =>
        or_flags (r_sym rel) NEEDS_GOT
    | R_LARCH_TLS_IE_HI20 | R_LARCH_TLS_IE_PC_HI20 =>
        or_flags (r_sym rel) NEEDS_GOTTP
    | R_LARCH_TLS_LD_PC_HI20 | R_LARCH_TLS_GD_PC_HI20
    | R_LARCH_TLS_LD_HI20 | R_LARCH_TLS_GD_HI20 =>
        or_flags (r_sym rel) NEEDS_TLSGD
    | R_LARCH_32_PCREL | R_LARCH_64_PCREL =>
        call (scan_pcrel ctx sec (r_sym rel) rel)
    | R_LARCH_TLS_LE_HI20 | R_LARCH_TLS_LE_LO12
    | R_LARCH_TLS_LE64_LO20 | R_LARCH_TLS_LE64_HI12 =>
        call (check_tlsle ctx sec (r_sym rel) rel)
    | R_NONE | R_LARCH_RELAX | R_LARCH_MARK_LA | R_LARCH_MARK_PCREL
    | R_LARCH_TLS_DTPREL32 | R_LARCH_TLS_DTPREL64 | R_LARCH_OTHER _ =>
        Error (Unknown_relocation rel)
    | _ => skip
    end (flagged (r_sym rel)
           (if is_ifunc sym then Z.lor NEEDS_GOT NEEDS_PLT else 0) s0).
Proof.
  intros Hh Hundef Hsym Hfile.
  unfold scan_relocations_rel. rewrite Hh. cbv iota.
  erewrite bind_returns by (unfold call_ret; now rewrite Hundef).
  cbv iota.
  erewrite bind_returns by (apply get_symbol_ok; exact Hsym).
  rewrite Hfile. cbn [negb].
  destruct (is_ifunc sym); cbn [when].
  - erewrite bind_returns by (eapply or_flags_run; exact Hsym).
    destruct (r_type rel); reflexivity.
  - rewrite flagged_0. unfold bind, skip, ret.
    destruct (r_type rel); reflexivity.
Qed.

End ScannerFacts.

(** A relocation the scanner handles with its own statements, for a
    defined symbol the reporter of undefined symbols does not claim: the
    scan returns, and its whole effect is to set the flags the kind and
    the symbol require ([NEEDS_GOT | NEEDS_PLT] for an indirect function,
    [NEEDS_PLT] for a 26-bit branch to an imported symbol, [NEEDS_GOT],
    [NEEDS_GOTTP] or [NEEDS_TLSGD] for the high parts that read such a
    slot, nothing for the others) on that symbol. *)
Theorem scanner_sets_the_required_flags {ext : Collaborators} (ctx : Ctx)
    (sec : InputSection) (rel : ElfRel) (s s0 : LinkState) (sym : Symbol) :
  scanner_known (r_type rel) = true ->
  is_delegated (r_type rel) = false ->
  record_undef_error ctx sec rel s = (false, s0) ->
  symbols s0 !! r_sym rel = Some sym ->
  file sym = true ->
  scan_relocations_rel ctx sec rel s
  = Returns tt (flagged (r_sym rel) (required_flags sym (r_type rel)) s0).
Proof.
  intros Hk Hd Hundef Hsym Hfile.
  unfold required_flags.
  set (m0 := if is_ifunc sym then Z.lor NEEDS_GOT NEEDS_PLT else 0).
  assert (Hsym' : symbols (flagged (r_sym rel) m0 s0) !! r_sym rel
                  = Some (set_flags (Z.lor (flags sym) m0) sym))
    by now apply symbols_flagged_lookup.
  assert (Hh : is_hint (r_type rel) = false)
    by (destruct (r_type rel); try discriminate Hk; reflexivity).
  rewrite (scan_rel_run ctx sec rel s s0 sym Hh Hundef Hsym Hfile).
  fold m0.
  destruct (r_type rel) eqn:Hty; try discriminate Hk; try discriminate Hd;
    try (unfold skip, ret; now rewrite Z.lor_0_r);
    try (erewrite or_flags_run by exact Hsym';
         now rewrite flagged_flagged).
  destruct (is_imported sym); cbn [when].
  - erewrite or_flags_run by exact Hsym'. now rewrite flagged_flagged.
  - unfold skip, ret. now rewrite Z.lor_0_r.
Qed.

Lemma scanner_sets_the_required_flags_witness :
  scan_relocations_rel (ext := Examples.quiet) Examples.ctx64 Examples.text
    (mkRel 0 R_LARCH_TLS_GD_HI20 0 0)
    (Examples.image Examples.ones4 [Examples.ifunc_at 0x1234])
  = Returns tt
      (Examples.image Examples.ones4
         [set_flags 19 (Examples.ifunc_at 0x1234)]).
Proof.
  apply (scanner_sets_the_required_flags (ext := Examples.quiet)
           Examples.ctx64 Examples.text (mkRel 0 R_LARCH_TLS_GD_HI20 0 0)
           (Examples.image Examples.ones4 [Examples.ifunc_at 0x1234])
           (Examples.image Examples.ones4 [Examples.ifunc_at 0x1234])
           (Examples.ifunc_at 0x1234)); reflexivity.
Defined.

(** A relocation of a kind the scanner has no case for is reported as an
    unknown relocation, after the flags of an indirect function were set,
    and the scan goes on with the next relocation. *)
Theorem scanner_reports_an_unknown_kind_and_goes_on {ext : Collaborators}
    (ctx : Ctx) (sec : InputSection) (rel : ElfRel) (post : list ElfRel)
    (s s0 : LinkState) (sym : Symbol) :
  is_hint (r_type rel) = false ->
  scanner_known (r_type rel) = false ->
  record_undef_error ctx sec rel s = (false, s0) ->
  symbols s0 !! r_sym rel = Some sym ->
  file sym = true ->
  for_each (scan_relocations_rel ctx sec) (rel :: post) s
  = for_each (scan_relocations_rel ctx sec) post
      (reported [Unknown_relocation rel]
         (flagged (r_sym rel)
            (if is_ifunc sym then Z.lor NEEDS_GOT NEEDS_PLT else 0) s0)).
Proof.
  intros Hh Hk Hundef Hsym Hfile.
  cbn [for_each]. erewrite bind_returns; [reflexivity|].
  rewrite (scan_rel_run ctx sec rel s s0 sym Hh Hundef Hsym Hfile).
  destruct (r_type rel); try discriminate Hk; try discriminate Hh;
    reflexivity.
Qed.

Lemma scanner_reports_an_unknown_kind_and_goes_on_witness :
  for_each (scan_relocations_rel (ext := Examples.quiet) Examples.ctx64
              Examples.text)
    [mkRel 0 (R_LARCH_OTHER 200) 0 0; mkRel 0 R_LARCH_GOT_HI20 0 0]
    (Examples.image Examples.ones4 [Examples.sym_at 0x1234])
  = Returns tt
      (reported [Unknown_relocation (mkRel 0 (R_LARCH_OTHER 200) 0 0)]
         (Examples.image Examples.ones4
            [set_flags 1 (Examples.sym_at 0x1234)])).
Proof.
  rewrite (scanner_reports_an_unknown_kind_and_goes_on
             (ext := Examples.quiet) Examples.ctx64 Examples.text
             (mkRel 0 (R_LARCH_OTHER 200) 0 0)
             [mkRel 0 R_LARCH_GOT_HI20 0 0]
             (Examples.image Examples.ones4 [Examples.sym_at 0x1234])
             (Examples.image Examples.ones4 [Examples.sym_at 0x1234])
             (Examples.sym_at 0x1234) eq_refl eq_refl eq_refl eq_refl
             eq_refl).
  reflexivity.
Defined.

(** No relocation of a section clears a requirement flag of any symbol:
    a flag that is set when [scan_relocations] starts is set when it
    returns, provided the functions it calls never clear one. *)
Theorem scanner_never_clears_a_flag {ext : Collaborators} (ctx : Ctx)
    (sec : InputSection) (s s' : LinkState) (i : nat) (m : Z) :
  scanners_set_only ctx sec ->
  (forall r, set_only (fun s => snd (record_undef_error ctx sec r s))) ->
  has_flags s i m ->
  scan_relocations ctx sec s = Returns tt s' ->
  has_flags s' i m.
Proof.
  intros Hext Hrep Hfl. unfold scan_relocations.
  destruct (is_alloc sec); cbn [assert]; [|discriminate].
  unfold bind at 1. cbn [skip ret]. unfold bind at 1, call.
  apply scan_loop_keeps_flags; assumption.
Qed.

Lemma scanner_never_clears_a_flag_witness :
  has_flags
    (Examples.image Examples.ones4 [set_flags 17 (Examples.sym_at 0x1234)])
    0 16.
Proof.
  apply (scanner_never_clears_a_flag (ext := Examples.quiet) Examples.ctx64
           (mkSec [mkRel 0 R_LARCH_GOT_HI20 0 0] 0x1000 true 0)
           (Examples.image Examples.ones4
              [set_flags 16 (Examples.sym_at 0x1234)])
           _ 0 16).
  - repeat split; intros i r s i' m Hm; exact Hm.
  - intros r s i' m Hm. exact Hm.
  - exists (set_flags 16 (Examples.sym_at 0x1234)). split; reflexivity.
  - reflexivity.
Defined.
(** ** What the passes over allocated sections never do *)

Section NeverExits.

Context {ext : Collaborators}.






















End NeverExits.

(** ** The PLT generators *)

Section PltFacts.

Lemma word_of_stub loc ws (b : list byte) (i : nat) w :
  0 <= loc /\ (Z.to_nat loc <= length b)%nat ->
  ws !! i = Some w -> 0 <= w < 2 ^ 32 ->
  word_at 4 (loc + 4 * Z.of_nat i) (splice loc (ul32s ws) b) = w.
Proof.
  intros [Hl Hb] Hw Hr.
  rewrite (word_at_spliced loc ws b i w) by assumption.
  now apply Z.mod_small.
Qed.

Lemma insn_j20_range w val : 0 <= w < 2 ^ 32 -> 0 <= insn_j20 w val < 2 ^ 32.
Proof.
  intros Hw. rewrite <- (insn_j20_word w val Hw).
  apply Z.mod_pos_bound. lia.
Qed.

Lemma insn_k12_range w val : 0 <= w < 2 ^ 32 -> 0 <= insn_k12 w val < 2 ^ 32.
Proof.
  intros Hw. rewrite <- (insn_k12_word w val Hw).
  apply Z.mod_pos_bound. lia.
Qed.

Lemma land_0xfffff x : Z.land x 0xfffff = x mod 2 ^ 20.
Proof. change 0xfffff with (Z.ones 20). apply Z.land_ones. lia. Qed.

(** The stub the two entry generators leave, from the words they write. *)
Lemma stub_of_entry_words ctx loc slot plt (b : list byte) :
  in_bounds 16 loc b = true ->
  is_plt_stub ctx loc slot plt
    (splice loc (ul32s (plt_entry_words ctx slot plt)) b).
Proof.
  intros Hb0.
  assert (Hb : 0 <= loc /\ (Z.to_nat loc <= length b)%nat)
    by (apply in_bounds_spec in Hb0; lia).
  unfold is_plt_stub.
  set (hi := Z.shiftr (mid20 slot plt) 12).
  set (b' := splice loc (ul32s (plt_entry_words ctx slot plt)) b).
  assert (H0 : word_at 4 loc b' = insn_j20 0x1c00000f hi).
  { replace loc with (loc + 4 * Z.of_nat 0) at 1 by lia.
    apply word_of_stub; [exact Hb| |apply insn_j20_range; lia].
    unfold plt_entry_words. now destruct (is_64 ctx). }
  assert (H1 : word_at 4 (loc + 4) b'
               = insn_k12 (if is_64 ctx then 0x28c001ef else 0x288001ef)
                          (slot - plt)%u64).
  { change (loc + 4) with (loc + 4 * Z.of_nat 1).
    apply word_of_stub; [exact Hb| |].
    - unfold plt_entry_words. now destruct (is_64 ctx).
    - apply insn_k12_range. destruct (is_64 ctx); lia. }
  assert (H2 : word_at 4 (loc + 8) b' = 0x4c0001ed).
  { change (loc + 8) with (loc + 4 * Z.of_nat 2).
    apply word_of_stub; [exact Hb| |lia].
    unfold plt_entry_words. now destruct (is_64 ctx). }
  assert (H3 : word_at 4 (loc + 12) b' = 0x03400000).
  { change (loc + 12) with (loc + 4 * Z.of_nat 3).
    apply word_of_stub; [exact Hb| |lia].
    unfold plt_entry_words. now destruct (is_64 ctx). }
  rewrite H0, H1, H2, H3.
  rewrite field_j20_insn_j20, land_0xfffff.
  rewrite field_k12_insn_k12 by (now destruct (is_64 ctx)).
  rewrite land_0xfff, insn_j20_keeps, insn_k12_keeps.
  unfold sub64. rewrite mod_pow2_of_u64 by lia.
  repeat split; try reflexivity. now destruct (is_64 ctx).
Qed.

End PltFacts.

(** The overflow test of the PLT generators is a signed 32-bit range test
    on the distance from the stub to the slot, plus 0x800: no overflow is
    reported exactly when that number, read as a signed 64-bit value, is
    in [[-2^31, 2^31)]. *)
Theorem plt_overflow_is_a_signed_range_test (slot plt : Z) :
  plt_overflow slot plt = false
  <-> - 2 ^ 31 <= i64 (slot - plt + 0x800) < 2 ^ 31.
Proof.
  unfold plt_overflow, add64, sub64. rewrite u64_add_l.
  pose proof (i64_range (slot - plt + 0x800)) as Hr.
  destruct (i64_decompose (slot - plt + 0x800)) as [k Hk].
  set (v := i64 (slot - plt + 0x800)) in *.
  assert (Hu : u64 (slot - plt + 0x80000800) = u64 (v + 2 ^ 31)).
  { apply u64_eq_of_diff with (k := - k). lia. }
  rewrite Hu, Z.ltb_ge.
  destruct (Z.le_gt_cases (- 2 ^ 31) v) as [Hge|Hlt].
  - rewrite u64_small by lia. lia.
  - assert (Hw : u64 (v + 2 ^ 31) = v + 2 ^ 31 + 2 ^ 64).
    { rewrite (u64_eq_of_diff (v + 2 ^ 31) (v + 2 ^ 31 + 2 ^ 64) (-1))
        by lia.
      apply u64_small. lia. }
    rewrite Hw. lia.
Qed.

(** [write_plt_entry] and [write_pltgot_entry] make the same stub, the
    first for the GOT-PLT slot of the symbol and the second for its GOT
    slot: the 16 bytes at [loc] are the template, with bits 12 to 31 of
    [mid20(slot, plt)] in the first instruction and bits 0 to 11 of
    [slot - plt] in the second; the bytes around them are kept. *)
Theorem plt_entries_hold_the_slot_distance (ctx : Ctx) (loc : Z)
    (sym : Symbol) (s : LinkState) :
  in_bounds 16 loc (buf s) = true ->
  (exists s',
     write_plt_entry ctx loc sym s = Returns tt s' /\
     is_plt_stub ctx loc (get_gotplt_addr sym) (get_plt_addr sym) (buf s') /\
     same_outside 16 loc (buf s) (buf s')) /\
  (exists s',
     write_pltgot_entry ctx loc sym s = Returns tt s' /\
     is_plt_stub ctx loc (get_got_addr sym) (get_plt_addr sym) (buf s') /\
     same_outside 16 loc (buf s) (buf s')).
Proof.
  intros Hb.
  assert (Hlen : forall slot plt,
            length (ul32s (plt_entry_words ctx slot plt)) = 16%nat).
  { intros. rewrite length_ul32s. unfold plt_entry_words, patch_lo12,
      patch_hi20. destruct (is_64 ctx); reflexivity. }
  split.
  - eexists. split; [now apply write_plt_entry_run|].
    cbn [buf set_buf reported set_errors].
    split; [now apply stub_of_entry_words|].
    rewrite <- (Hlen (get_gotplt_addr sym) (get_plt_addr sym)) at 1.
    apply same_outside_splice. now rewrite Hlen.
  - eexists. split; [now apply write_pltgot_entry_run|].
    cbn [buf set_buf reported set_errors].
    split; [now apply stub_of_entry_words|].
    rewrite <- (Hlen (get_got_addr sym) (get_plt_addr sym)) at 1.
    apply same_outside_splice. now rewrite Hlen.
Qed.

Lemma plt_entries_hold_the_slot_distance_witness :
  exists s',
    write_plt_entry Examples.ctx64 0 Examples.sym_far
      (Examples.image (Examples.zeros 16) []) = Returns tt s' /\
    field_k12 (word_at 4 4 (buf s')) = 0xfe0.
Proof.
  destruct (plt_entries_hold_the_slot_distance Examples.ctx64 0
              Examples.sym_far (Examples.image (Examples.zeros 16) [])
              eq_refl) as [(s' & Hrun & Hstub & _) _].
  exists s'. split; [exact Hrun|].
  destruct Hstub as (_ & Hlo & _). exact Hlo.
Defined.

(** ** A pair of relocations on a pair of instructions *)

Section PairFacts.

Lemma word_at_same_outside n m loc loc' (b b' : list byte) :
  same_outside m loc' b b' -> 0 <= loc ->
  loc + Z.of_nat n <= loc' \/ loc' + Z.of_nat m <= loc ->
  word_at n loc b' = word_at n loc b.
Proof.
  intros [Hlen Hout] Hl Hd. unfold word_at, slice. f_equal.
  apply list_eq. intros i.
  destruct (Nat.lt_ge_cases i n) as [Hi|Hi].
  - rewrite !lookup_take_lt, !lookup_drop by assumption.
    apply Hout. lia.
  - now rewrite !lookup_take_ge by assumption.
Qed.

End PairFacts.

(** A PC-relative high part on an instruction and its low part on the
    next, for the same symbol and addend ([R_LARCH_PCALA_HI20] with
    [R_LARCH_PCALA_LO12], [R_LARCH_GOT_PC_HI20] with [R_LARCH_GOT_PC_LO12],
    [R_LARCH_TLS_IE_PC_HI20] with [R_LARCH_TLS_IE_PC_LO12]): when the page
    distance is in range and the 12-bit field of the second instruction
    starts clear (as an assembler leaves it), the two relocations return,
    report nothing, and the fields they leave decode, in the way the
    source describes for [pcalau12i] and [addi.d], to the address the
    pair is for. *)
Theorem pc_relative_pair_materializes_the_target {ext : Collaborators}
    (ctx : Ctx) (sec : InputSection) (base off : Z) (i : nat) (A : Z)
    (sym : Symbol) (s : LinkState) (thi tlo : RelType) (target : Z) :
  lo12_partner thi = Some tlo ->
  hi20_target ctx sym (mkRel off thi i A) = Some target ->
  symbols s !! i = Some sym ->
  in_bounds 8 (base + off) (buf s) = true ->
  field_k12 (word_at 4 (base + off + 4) (buf s)) = 0 ->
  - 2 ^ 31 <= i64 (mid20 target (sec_addr sec + off)%u64) < 2 ^ 31 ->
  exists s',
    for_each (apply_reloc_alloc_rel ctx sec base)
      [mkRel off thi i A; mkRel (off + 4) tlo i A] s
    = Returns tt s' /\
    errors s' = errors s /\
    materialize (sec_addr sec + off)%u64
      (sign_extend20 (field_j20 (word_at 4 (base + off) (buf s'))))
      (field_k12 (word_at 4 (base + off + 4) (buf s')))
    = target.
Proof.
  intros Hp Ht Hsym Hb Hclear Hr.
  set (P := (sec_addr sec + off)%u64) in *.
  assert (Hb0 : in_bounds 4 (base + off) (buf s) = true).
  { apply in_bounds_spec in Hb. apply in_bounds_spec. lia. }
  assert (Hb4 : in_bounds 4 (base + off + 4) (buf s) = true).
  { apply in_bounds_spec in Hb. apply in_bounds_spec. lia. }
  assert (Hl : 0 <= base + off) by (apply in_bounds_spec in Hb; lia).
  assert (Hk : is_checked thi = true)
    by (destruct thi; try discriminate Hp; reflexivity).
  assert (Hw : branch_width thi = None)
    by (destruct thi; try discriminate Hp; reflexivity).
  assert (Hu : u64 target = target).
  { destruct thi; try discriminate Hp;
      cbn [hi20_target r_type r_addend] in Ht; injection Ht as <-;
      unfold add64; apply u64_idem. }
  set (hi := Z.shiftr (i64 (mid20 target P)) 12).
  set (s1 := patched (base + off) (fun w => insn_j20 w hi) s).
  assert (H1 : apply_reloc_alloc_rel ctx sec base (mkRel off thi i A) s
               = Returns tt s1).
  { rewrite (checked_reloc_run ctx sec base (mkRel off thi i A) s sym
               Hk Hsym Hb0).
    unfold check_failures, checked_insn.
    cbn [r_type r_offset]. rewrite Hw, Ht. fold P. unfold range_failures.
    destruct (Z.ltb_spec (i64 (mid20 target P)) (- 2 ^ 31));
      destruct (Z.leb_spec (2 ^ 31) (i64 (mid20 target P))); try lia.
    cbn [orb]. now rewrite reported_nil. }
  set (s2 := patched (base + off + 4) (fun w => insn_k12 w target) s1).
  assert (Hb4' : in_bounds 4 (base + off + 4) (buf s1) = true).
  { unfold s1. now rewrite in_bounds_patched. }
  assert (H2 : apply_reloc_alloc_rel ctx sec base (mkRel (off + 4) tlo i A) s1
               = Returns tt s2).
  { unfold apply_reloc_alloc_rel.
    destruct thi; try discriminate Hp; injection Hp as <-;
      cbn [hi20_target r_type r_addend] in Ht; injection Ht as Ht;
      cbn [is_hint r_type r_sym r_offset r_addend];
      (erewrite bind_returns by (apply get_symbol_ok; exact Hsym));
      replace (base + (off + 4)) with (base + off + 4) by lia;
      unfold s2; rewrite <- Ht; unfold got_slot_offset;
      try (destruct (has_tlsgd sym)); now apply write_k12_ok. }
  exists s2. split; [|split].
  - cbn [for_each].
    erewrite bind_returns by exact H1.
    erewrite bind_returns by exact H2. reflexivity.
  - reflexivity.
  - assert (Hw1 : word_at 4 (base + off + 4) (buf s1)
                  = word_at 4 (base + off + 4) (buf s)).
    { apply (word_at_same_outside 4 4 _ (base + off)); [|lia|lia].
      now apply same_outside_patched. }
    assert (Hhi : word_at 4 (base + off) (buf s2)
                  = insn_j20 (word_at 4 (base + off) (buf s)) hi).
    { rewrite (word_at_same_outside 4 4 _ (base + off + 4) (buf s1));
        [|now apply same_outside_patched|lia|lia].
      unfold s1. rewrite word_at_patched by assumption.
      apply insn_j20_word, word_range. }
    assert (Hlo : word_at 4 (base + off + 4) (buf s2)
                  = insn_k12 (word_at 4 (base + off + 4) (buf s)) target).
    { unfold s2. rewrite word_at_patched by assumption.
      rewrite Hw1. apply insn_k12_word, word_range. }
    rewrite Hhi, Hlo. unfold hi.
    rewrite materialize_from_fields by assumption.
    exact Hu.
Qed.

Lemma pc_relative_pair_materializes_the_target_witness :
  exists s',
    for_each (apply_reloc_alloc_rel (ext := Examples.quiet) Examples.ctx64
                Examples.text 0)
      [mkRel 0 R_LARCH_PCALA_HI20 0 0; mkRel 4 R_LARCH_PCALA_LO12 0 0]
      (Examples.image (Examples.zeros 8) [Examples.sym_at 0x12345fff])
    = Returns tt s' /\
    materialize 0x1000
      (sign_extend20 (field_j20 (word_at 4 0 (buf s'))))
      (field_k12 (word_at 4 4 (buf s')))
    = 0x12345fff.
Proof.
  destruct (pc_relative_pair_materializes_the_target (ext := Examples.quiet)
              Examples.ctx64 Examples.text 0 0 0 0
              (Examples.sym_at 0x12345fff)
              (Examples.image (Examples.zeros 8) [Examples.sym_at 0x12345fff])
              R_LARCH_PCALA_HI20 R_LARCH_PCALA_LO12 0x12345fff
              eq_refl eq_refl eq_refl eq_refl eq_refl)
    as (s' & Hrun & _ & Hm); [vm_compute; split; congruence|].
  exists s'. split; [exact Hrun|exact Hm].
Defined.
(** ** Values in the fields *)

Section ValueFacts.

Context {ext : Collaborators}.

Lemma word_at_patched_other loc loc' f s :
  in_bounds 4 loc' (buf s) = true -> 0 <= loc ->
  loc + 4 <= loc' \/ loc' + 4 <= loc ->
  word_at 4 loc (buf (patched loc' f s)) = word_at 4 loc (buf s).
Proof.
  intros Hb Hl Hd.
  apply (word_at_same_outside 4 4 loc loc'); [|assumption|lia].
  now apply same_outside_patched.
Qed.

(** The four fields of a family take the 64 bits of the value apart. *)
Lemma four_fields v :
  0 <= v < 2 ^ 64 ->
  v mod 2 ^ 12
  + 2 ^ 12 * (Z.shiftr v 12 mod 2 ^ 20)
  + 2 ^ 32 * (Z.shiftr v 32 mod 2 ^ 20)
  + 2 ^ 52 * (Z.shiftr v 52 mod 2 ^ 12) = v.
Proof.
  intros Hv. rewrite !Z.shiftr_div_pow2 by lia.
  pose proof (Z.div_mod v (2 ^ 12) ltac:(lia)) as H1.
  pose proof (Z.div_mod (v / 2 ^ 12) (2 ^ 20) ltac:(lia)) as H2.
  pose proof (Z.div_mod (v / 2 ^ 32) (2 ^ 20) ltac:(lia)) as H3.
  assert (E2 : v / 2 ^ 12 / 2 ^ 20 = v / 2 ^ 32).
  { rewrite Z.div_div by lia. reflexivity. }
  assert (E3 : v / 2 ^ 32 / 2 ^ 20 = v / 2 ^ 52).
  { rewrite Z.div_div by lia. reflexivity. }
  assert (H4 : 0 <= v / 2 ^ 52 < 2 ^ 12).
  { split; [apply Z.div_pos; lia|apply Z.div_lt_upper_bound; lia]. }
  rewrite (Z.mod_small (v / 2 ^ 52)) by assumption.
  rewrite E2 in H2. rewrite E3 in H3. lia.
Qed.

Lemma field_k12_after w val :
  Z.land (field_k12 w) 0xc00 = 0 ->
  field_k12 (insn_k12 w val) = val mod 2 ^ 12.
Proof.
  intros Hw. rewrite field_k12_insn_k12_gen, Hw, Z.lor_0_l.
  apply Z.land_ones. lia.
Qed.

(** One relocation of a family, as a patch of the instruction word. *)
Lemma family_step ctx sec base (f : Family) i A sym (o : Z) t
    (insn : Z -> Z -> Z) (sh : Z) s :
  (t, insn, sh) = (fst (fst (fst (family_kinds f))), insn_j20, 12) \/
  (t, insn, sh) = (snd (fst (fst (family_kinds f))), insn_k12, 0) \/
  (t, insn, sh) = (snd (fst (family_kinds f)), insn_j20, 32) \/
  (t, insn, sh) = (snd (family_kinds f), insn_k12, 52) ->
  symbols s !! i = Some sym ->
  in_bounds 4 (base + o) (buf s) = true ->
  apply_reloc_alloc_rel ctx sec base (mkRel o t i A) s
  = Returns tt
      (patched (base + o)
         (fun w => insn w (Z.shiftr (family_value ctx sym A f) sh)) s).
Proof.
  intros Hk Hsym Hb.
  unfold apply_reloc_alloc_rel, family_value, got_slot_offset.
  destruct f; cbn [family_kinds fst snd] in Hk;
    destruct Hk as [Hk|[Hk|[Hk|Hk]]]; injection Hk as -> -> ->;
    cbn [is_hint r_type r_sym r_offset r_addend];
    (erewrite bind_returns by (apply get_symbol_ok; exact Hsym));
    rewrite ?Z.shiftr_0_r;
    try (destruct (has_tlsgd sym));
    first [now apply write_j20_ok | now apply write_k12_ok].
Qed.

End ValueFacts.

(** The four kinds of a family (absolute, GOT, TLS local-exec or TLS
    initial-exec), applied to four instructions in a row for the same
    symbol and addend: the relocations return and report nothing, and the
    fields they leave take the 64-bit value of the family apart, bits 12
    to 31, 0 to 11, 32 to 51 and 52 to 63; provided bits 20 and 21 of the
    two 12-bit fields start clear. *)
Theorem family_of_four_holds_every_bit {ext : Collaborators} (ctx : Ctx)
    (sec : InputSection) (base off : Z) (i : nat) (A : Z) (sym : Symbol)
    (s : LinkState) (f : Family) (hi20 lo12 lo20 hi12 : RelType) :
  family_kinds f = (hi20, lo12, lo20, hi12) ->
  symbols s !! i = Some sym ->
  in_bounds 16 (base + off) (buf s) = true ->
  Z.land (field_k12 (word_at 4 (base + off + 4) (buf s))) 0xc00 = 0 ->
  Z.land (field_k12 (word_at 4 (base + off + 12) (buf s))) 0xc00 = 0 ->
  exists s',
    for_each (apply_reloc_alloc_rel ctx sec base)
      [mkRel off hi20 i A; mkRel (off + 4) lo12 i A;
       mkRel (off + 8) lo20 i A; mkRel (off + 12) hi12 i A] s
    = Returns tt s' /\
    errors s' = errors s /\
    field_k12 (word_at 4 (base + off + 4) (buf s'))
    + 2 ^ 12 * field_j20 (word_at 4 (base + off) (buf s'))
    + 2 ^ 32 * field_j20 (word_at 4 (base + off + 8) (buf s'))
    + 2 ^ 52 * field_k12 (word_at 4 (base + off + 12) (buf s'))
    = family_value ctx sym A f.
Proof.
  intros Hk Hsym Hb Hc4 Hc12.
  set (v := family_value ctx sym A f).
  assert (Hv : 0 <= v < 2 ^ 64).
  { unfold v, family_value. destruct f; apply u64_range. }
  assert (Hl : 0 <= base + off) by (apply in_bounds_spec in Hb; lia).
  assert (Hb0 : in_bounds 4 (base + off) (buf s) = true)
    by (apply in_bounds_spec in Hb; apply in_bounds_spec; lia).
  assert (Hb4 : in_bounds 4 (base + off + 4) (buf s) = true)
    by (apply in_bounds_spec in Hb; apply in_bounds_spec; lia).
  assert (Hb8 : in_bounds 4 (base + off + 8) (buf s) = true)
    by (apply in_bounds_spec in Hb; apply in_bounds_spec; lia).
  assert (Hb12 : in_bounds 4 (base + off + 12) (buf s) = true)
    by (apply in_bounds_spec in Hb; apply in_bounds_spec; lia).
  set (s1 := patched (base + off) (fun w => insn_j20 w (Z.shiftr v 12)) s).
  set (s2 := patched (base + off + 4) (fun w => insn_k12 w (Z.shiftr v 0)) s1).
  set (s3 := patched (base + off + 8) (fun w => insn_j20 w (Z.shiftr v 32)) s2).
  set (s4 := patched (base + off + 12)
               (fun w => insn_k12 w (Z.shiftr v 52)) s3).
  assert (B1 : forall n l, in_bounds n l (buf s1) = in_bounds n l (buf s)).
  { intros. unfold s1. now apply in_bounds_patched. }
  assert (B2 : forall n l, in_bounds n l (buf s2) = in_bounds n l (buf s)).
  { intros. unfold s2. rewrite in_bounds_patched by now rewrite B1.
    apply B1. }
  assert (B3 : forall n l, in_bounds n l (buf s3) = in_bounds n l (buf s)).
  { intros. unfold s3. rewrite in_bounds_patched by now rewrite B2.
    apply B2. }
  assert (Hi1 : in_bounds 4 (base + off + 4) (buf s1) = true)
    by now rewrite B1.
  assert (Hi2 : in_bounds 4 (base + off + 8) (buf s2) = true)
    by now rewrite B2.
  assert (Hi3 : in_bounds 4 (base + off + 12) (buf s3) = true)
    by now rewrite B3.
  assert (H1 : apply_reloc_alloc_rel ctx sec base (mkRel off hi20 i A) s
               = Returns tt s1).
  { apply family_step; [|assumption|assumption].
    left. now rewrite Hk. }
  assert (H2 : apply_reloc_alloc_rel ctx sec base
                 (mkRel (off + 4) lo12 i A) s1 = Returns tt s2).
  { unfold s2. replace (base + off + 4) with (base + (off + 4)) in * by lia.
    apply family_step; [|exact Hsym|exact Hi1].
    right. left. now rewrite Hk. }
  assert (H3 : apply_reloc_alloc_rel ctx sec base
                 (mkRel (off + 8) lo20 i A) s2 = Returns tt s3).
  { unfold s3. replace (base + off + 8) with (base + (off + 8)) in * by lia.
    apply family_step; [|exact Hsym|exact Hi2].
    right. right. left. now rewrite Hk. }
  assert (H4 : apply_reloc_alloc_rel ctx sec base
                 (mkRel (off + 12) hi12 i A) s3 = Returns tt s4).
  { unfold s4. replace (base + off + 12) with (base + (off + 12)) in * by lia.
    apply family_step; [|exact Hsym|exact Hi3].
    right. right. right. now rewrite Hk. }
  exists s4. split; [|split].
  - cbn [for_each].
    erewrite bind_returns by exact H1.
    erewrite bind_returns by exact H2.
    erewrite bind_returns by exact H3.
    erewrite bind_returns by exact H4. reflexivity.
  - reflexivity.
  - 
    assert (W0 : word_at 4 (base + off) (buf s4)
                 = insn_j20 (word_at 4 (base + off) (buf s))
                            (Z.shiftr v 12)).
    { unfold s4. rewrite word_at_patched_other by (assumption || lia).
      unfold s3. rewrite word_at_patched_other by (assumption || lia).
      unfold s2. rewrite word_at_patched_other by (assumption || lia).
      unfold s1. rewrite word_at_patched by assumption.
      apply insn_j20_word, word_range. }
    assert (W1 : word_at 4 (base + off + 4) (buf s4)
                 = insn_k12 (word_at 4 (base + off + 4) (buf s))
                            (Z.shiftr v 0)).
    { unfold s4. rewrite word_at_patched_other by (assumption || lia).
      unfold s3. rewrite word_at_patched_other by (assumption || lia).
      unfold s2. rewrite word_at_patched by assumption.
      unfold s1. rewrite word_at_patched_other by (assumption || lia).
      apply insn_k12_word, word_range. }
    assert (W2 : word_at 4 (base + off + 8) (buf s4)
                 = insn_j20 (word_at 4 (base + off + 8) (buf s))
                            (Z.shiftr v 32)).
    { unfold s4. rewrite word_at_patched_other by (assumption || lia).
      unfold s3. rewrite word_at_patched by assumption.
      unfold s2. rewrite word_at_patched_other by (assumption || lia).
      unfold s1. rewrite word_at_patched_other by (assumption || lia).
      apply insn_j20_word, word_range. }
    assert (W3 : word_at 4 (base + off + 12) (buf s4)
                 = insn_k12 (word_at 4 (base + off + 12) (buf s))
                            (Z.shiftr v 52)).
    { unfold s4. rewrite word_at_patched by assumption.
      unfold s3. rewrite word_at_patched_other by (assumption || lia).
      unfold s2. rewrite word_at_patched_other by (assumption || lia).
      unfold s1. rewrite word_at_patched_other by (assumption || lia).
      apply insn_k12_word, word_range. }
    rewrite W0, W1, W2, W3.
    rewrite !field_j20_insn_j20, !land_0xfffff.
    rewrite !field_k12_after by assumption.
    rewrite Z.shiftr_0_r. now apply four_fields.
Qed.

Lemma family_of_four_holds_every_bit_witness :
  exists s',
    for_each (apply_reloc_alloc_rel (ext := Examples.quiet) Examples.ctx64
                Examples.text 0)
      [mkRel 0 R_LARCH_ABS_HI20 0 1; mkRel 4 R_LARCH_ABS_LO12 0 1;
       mkRel 8 R_LARCH_ABS64_LO20 0 1; mkRel 12 R_LARCH_ABS64_HI12 0 1]
      (Examples.image (Examples.zeros 16)
         [Examples.sym_at 0x123456789abcdef0])
    = Returns tt s' /\
    field_k12 (word_at 4 4 (buf s'))
    + 2 ^ 12 * field_j20 (word_at 4 0 (buf s'))
    + 2 ^ 32 * field_j20 (word_at 4 8 (buf s'))
    + 2 ^ 52 * field_k12 (word_at 4 12 (buf s'))
    = 0x123456789abcdef1.
Proof.
  destruct (family_of_four_holds_every_bit (ext := Examples.quiet)
              Examples.ctx64 Examples.text 0 0 0 1
              (Examples.sym_at 0x123456789abcdef0)
              (Examples.image (Examples.zeros 16)
                 [Examples.sym_at 0x123456789abcdef0])
              Abs _ _ _ _ eq_refl eq_refl eq_refl eq_refl eq_refl)
    as (s' & Hrun & _ & Hv).
  exists s'. split; [exact Hrun|exact Hv].
Defined.
Section CountFacts.

Context {ext : Collaborators}.

Lemma six_mod6 b x k :
  k = 6 -> (six b x mod 2 ^ (Z.of_nat 1 * 8)) mod 2 ^ k = x mod 2 ^ k.
Proof.
  intros ->. rewrite (Z.mod_small (six b x)) by apply six_range.
  apply six_low_bits.
Qed.

Ltac u64_normal :=
  unfold add64, sub64;
  repeat (rewrite ?u64_add_l, ?u64_add_r, ?u64_sub_l, ?u64_sub_r,
            ?Z.add_assoc, ?Z.sub_add_distr).

Lemma add_field k b S A :
  0 <= k <= 64 ->
  (b + (S + u64 A))%u64 mod 2 ^ k = (b + (S + A)) mod 2 ^ k.
Proof.
  intros Hk. u64_normal. rewrite mod_pow2_of_u64 by assumption.
  f_equal; lia.
Qed.

Lemma sub_field k b S A :
  0 <= k <= 64 ->
  (b - (S + u64 A))%u64 mod 2 ^ k = (b - (S + A)) mod 2 ^ k.
Proof.
  intros Hk. u64_normal. rewrite mod_pow2_of_u64 by assumption.
  f_equal; lia.
Qed.

Lemma add6_field b S A :
  (b + S + u64 A)%u64 mod 2 ^ 6 = (b + (S + A)) mod 2 ^ 6.
Proof.
  u64_normal. rewrite mod_pow2_of_u64 by lia. f_equal; lia.
Qed.

Lemma sub6_field b S A :
  (b - S - u64 A)%u64 mod 2 ^ 6 = (b - (S + A)) mod 2 ^ 6.
Proof.
  u64_normal. rewrite mod_pow2_of_u64 by lia. f_equal; lia.
Qed.

Lemma mod_mod_same x k : 0 <= k -> (x mod 2 ^ k) mod 2 ^ k = x mod 2 ^ k.
Proof. intros Hk. apply Z.mod_mod. apply Z.pow_nonzero; lia. Qed.

End CountFacts.

(** The ADD and SUB kinds of width [w] (6, 8, 16, 32 or 64) count modulo
    [2^w]: after the relocation the field at the patch site holds what it
    held plus, or minus, [S + A], modulo [2^w], for every buffer and every
    value, overflow included. *)
Theorem accumulating_kinds_count_modulo_the_field {ext : Collaborators}
    (ctx : Ctx) (sec : InputSection) (base off addend : Z) (i : nat)
    (sym : Symbol) (s : LinkState) (w : Z) (tadd tsub : RelType)
    (n : nat) :
  accumulate_kinds w = Some (tadd, tsub, n) ->
  symbols s !! i = Some sym ->
  in_bounds n (base + off) (buf s) = true ->
  (exists s1,
     apply_reloc_alloc_rel ctx sec base (mkRel off tadd i addend) s
     = Returns tt s1 /\
     word_at n (base + off) (buf s1) mod 2 ^ w
     = (word_at n (base + off) (buf s) + (get_addr sym + addend))
       mod 2 ^ w) /\
  (exists s1,
     apply_reloc_alloc_rel ctx sec base (mkRel off tsub i addend) s
     = Returns tt s1 /\
     word_at n (base + off) (buf s1) mod 2 ^ w
     = (word_at n (base + off) (buf s) - (get_addr sym + addend))
       mod 2 ^ w).
Proof.
  intros Hk Hsym Hb.
  unfold accumulate_kinds in Hk.
  destruct (Z.eqb_spec w 6) as [->|_];
    [|destruct (Z.eqb_spec w 8) as [->|_];
      [|destruct (Z.eqb_spec w 16) as [->|_];
        [|destruct (Z.eqb_spec w 32) as [->|_];
          [|destruct (Z.eqb_spec w 64) as [->|_]; [|discriminate Hk]]]]];
    injection Hk as <- <- <-;
    (split; eexists;
     (split;
      [unfold apply_reloc_alloc_rel, add_assign, sub_assign;
       cbn [is_hint r_type r_sym r_offset r_addend];
       (erewrite bind_returns by (apply get_symbol_ok; exact Hsym));
       (erewrite bind_returns by (now apply load_ok));
       now apply store_ok|]);
     cbn [buf set_buf]; rewrite word_at_update by assumption).
  - fold (six (word_at 1 (base + off) (buf s))
              (word_at 1 (base + off) (buf s) + get_addr sym + u64 addend)%u64).
    rewrite six_mod6 by reflexivity. apply add6_field.
  - fold (six (word_at 1 (base + off) (buf s))
              (word_at 1 (base + off) (buf s) - get_addr sym - u64 addend)%u64).
    rewrite six_mod6 by reflexivity. apply sub6_field.
  - change (Z.of_nat 1 * 8) with 8. rewrite mod_mod_same by lia.
    apply add_field. lia.
  - change (Z.of_nat 1 * 8) with 8. rewrite mod_mod_same by lia.
    apply sub_field. lia.
  - change (Z.of_nat 2 * 8) with 16. rewrite mod_mod_same by lia.
    apply add_field. lia.
  - change (Z.of_nat 2 * 8) with 16. rewrite mod_mod_same by lia.
    apply sub_field. lia.
  - change (Z.of_nat 4 * 8) with 32. rewrite mod_mod_same by lia.
    apply add_field. lia.
  - change (Z.of_nat 4 * 8) with 32. rewrite mod_mod_same by lia.
    apply sub_field. lia.
  - change (Z.of_nat 8 * 8) with 64. rewrite mod_mod_same by lia.
    apply add_field. lia.
  - change (Z.of_nat 8 * 8) with 64. rewrite mod_mod_same by lia.
    apply sub_field. lia.
Qed.

Lemma accumulating_kinds_count_modulo_the_field_witness :
  exists s1,
    apply_reloc_alloc_rel (ext := Examples.quiet) Examples.ctx64
      Examples.text 0 (mkRel 0 R_LARCH_ADD6 0 3)
      (Examples.image Examples.ones4 [Examples.sym_at 0x1000])
    = Returns tt s1 /\
    word_at 1 0 (buf s1) mod 2 ^ 6 = 2.
Proof.
  destruct (accumulating_kinds_count_modulo_the_field
              (ext := Examples.quiet) Examples.ctx64 Examples.text 0 0 3 0
              (Examples.sym_at 0x1000)
              (Examples.image Examples.ones4 [Examples.sym_at 0x1000])
              6 R_LARCH_ADD6 R_LARCH_SUB6 1 eq_refl eq_refl eq_refl)
    as [(s1 & Hrun & Hv) _].
  exists s1. split; [exact Hrun|exact Hv].
Defined.
